(** * gamutrf/waterfall.py: the numeric and bookkeeping core of the waterfall

    A shallow embedding of the parts of [waterfall.py] that maintain the
    rolling power/frequency matrices, map frequencies to bins, normalise
    the PSD histogram, filter nested peaks and persist detections.

    Conventions of the embedding:
    - Python/numpy floats are idealised: finite values are exact rationals
      ([Q]); the special values are kept as constructors of [npfloat]
      (signed zeros are not distinguished).  Rounding error of the binary
      representation is not modelled.
    - numpy arrays are lists, 2-D arrays are lists of rows.
    - Python exceptions are the [Raise] results of the [result] type.
    - The file system is a finite map from paths to file contents, and
      every primitive file operation is recorded in a trace, so that what
      a concurrent reader may observe between two operations is explicit. *)

From Stdlib Require Import QArith Qround ZArith Lia Lqa.
From stdpp Require Import gmap strings list fin_maps pretty.

(* ================================================================== *)
(** ** Numbers *)

(** numpy floats as far as the code distinguishes them. *)
Inductive npfloat : Type :=
  | NaN
  | Inf (negative : bool)
  | Fin (q : Q).

(** [round] on a pandas Series (and Python's builtin on a float): round
    half to even. *)
Definition np_round (x : Q) : Z :=
  let f := Qfloor x in
  match Qcompare (x - inject_Z f) (1 # 2) with
  | Lt => f
  | Gt => (f + 1)%Z
  | Eq => if Z.even f then f else (f + 1)%Z
  end.

(** [int(x)] and [ndarray.astype(int)]: truncation toward zero. *)
Definition py_int (x : Q) : Z := Z.quot (Qnum x) (Zpos (Qden x)).

(** [np.linspace(start, stop, num)]: [num] evenly spaced points, both ends
    included ([num = 1] gives [start] alone). *)
Definition linspace (start stop : Q) (num : nat) : list Q :=
  map (fun i : nat =>
         if (num =? 1)%nat then start
         else (start + inject_Z (Z.of_nat i) * ((stop - start) / inject_Z (Z.of_nat num - 1)))%Q)
      (seq 0 num).

(** numpy's index normalisation for an axis of length [n]: negative
    indices count from the end, anything else is out of bounds. *)
Definition np_index (n : nat) (i : Z) : option nat :=
  if ((0 <=? i) && (i <? Z.of_nat n))%Z then Some (Z.to_nat i)
  else if ((- Z.of_nat n <=? i) && (i <? 0))%Z then Some (Z.to_nat (i + Z.of_nat n))
  else None.

(* ================================================================== *)
(** ** Exceptions *)

Inductive exn : Type := IndexError | KeyError | ValueError.

Inductive result (A : Type) : Type :=
  | Ok (a : A)
  | Raise (e : exn).
Arguments Ok {A} a.
Arguments Raise {A} e.

Definition rbind {A B} (r : result A) (k : A -> result B) : result B :=
  match r with
  | Ok a => k a
  | Raise e => Raise e
  end.

Definition of_option {A} (e : exn) (o : option A) : result A :=
  match o with
  | Some a => Ok a
  | None => Raise e
  end.

(* ================================================================== *)
(** ** Configuration ([class WaterfallConfig]) *)

Record WaterfallConfig : Type := {
  plot_snr : bool;
  snr_min : Q;
  snr_max : Q;
  waterfall_height : nat;
  scale : Q;
  freq_resolution : Q;
  psd_db_resolution : nat;
  y_label_skip : nat;
  min_freq : Q;
  max_freq : Q
}.

(** [WaterfallConfig.__init__]. *)
Definition WaterfallConfig_init (plot_snr_ : bool) (sampling_rate fft_len min_freq_ max_freq_ : Q)
  : WaterfallConfig :=
  let scale_ := 1000000%Q in
  {| plot_snr := plot_snr_;
     snr_min := 0;
     snr_max := 50;
     waterfall_height := 100;
     scale := scale_;
     freq_resolution := (sampling_rate / fft_len / scale_)%Q;
     psd_db_resolution := 90;
     y_label_skip := 3;
     min_freq := (min_freq_ / scale_)%Q;
     max_freq := (max_freq_ / scale_)%Q |}.

(** The third argument of the [np.linspace] calls of [init_fig],
    [reset_fig] and the draw step:
    [int((max_freq - min_freq) / freq_resolution + 1)]. *)
Definition num_bins (config : WaterfallConfig) : Z :=
  py_int ((max_freq config - min_freq config) / freq_resolution config + 1).

(** [psd_x_edges = XX[0]], the first row of the mesh grid. *)
Definition psd_x_edges (config : WaterfallConfig) : list Q :=
  linspace (min_freq config) (max_freq config) (Z.to_nat (num_bins config)).

(** The bin of a frequency:
    [round((scan_df.freq - config.min_freq) / config.freq_resolution)]. *)
Definition freq_idx (config : WaterfallConfig) (f : Q) : Z :=
  np_round ((f - min_freq config) / freq_resolution config).

(** The frequency stored in the buffer:
    [round(scan_df.freq / config.freq_resolution) * config.freq_resolution]. *)
Definition quantized_freq (config : WaterfallConfig) (f : Q) : Q :=
  (inject_Z (np_round (f / freq_resolution config)) * freq_resolution config)%Q.

(** The spec's formula for the number of bins. *)
Definition spec_num_bins (min_f max_f resolution : Q) : Z :=
  (Qfloor ((max_f - min_f) / resolution) + 1)%Z.

(* ================================================================== *)
(** ** The rolling matrices and the per-batch update *)

(** One row of [scan_df]: the columns the loop reads. *)
Record sample (K : Type) : Type := {
  freq : Q;
  db : npfloat;
  ts : K
}.
Arguments freq {K} s.
Arguments db {K} s.
Arguments ts {K} s.

(** The diagnostic of a skipped batch:
    "Scan is outside specified frequency range (min to max)." *)
Inductive log_msg : Type :=
  | OutsideRange (lo hi : Q).

(** [class WaterfallState]: the fields the numeric core reads or writes
    (the plotting fields [y_ticks], [y_labels], [detection_text] and the
    tick separators are left out). *)
Record WaterfallState (K C : Type) `{Countable K} : Type := {
  db_data : list (list npfloat);
  freq_data : list (list npfloat);
  freq_bins : list Q;
  scan_times : list K;
  scan_config_history : gmap K C;
  previous_scan_config : option C;
  counter : nat
}.
Arguments db_data {K C _ _} w.
Arguments freq_data {K C _ _} w.
Arguments freq_bins {K C _ _} w.
Arguments scan_times {K C _ _} w.
Arguments scan_config_history {K C _ _} w.
Arguments previous_scan_config {K C _ _} w.
Arguments counter {K C _ _} w.

(** [np.roll(a, -1, axis=0)]: every row moves one place toward index 0
    and the first row wraps around to the end. *)
Definition np_roll_up {A} (a : list A) : list A :=
  match a with
  | [] => []
  | r :: rs => rs ++ [r]
  end.

(** An in-place update of the last row, [a[-1] = f(a[-1])]; indexing an
    array without rows raises. *)
Definition update_last_row {A} (f : A -> result A) (a : list A) : result (list A) :=
  match last a with
  | None => Raise IndexError
  | Some r => rbind (f r) (fun r' => Ok (removelast a ++ [r']))
  end.

(** [row[idx] = vals] with an index array: element-wise assignment in
    order, so that the last write to a bin wins; an index out of bounds
    raises. *)
Fixpoint scatter (row : list npfloat) (idx : list Z) (vals : list npfloat)
  : result (list npfloat) :=
  match idx, vals with
  | i :: idx', v :: vals' =>
      match np_index (length row) i with
      | Some k => scatter (<[k := v]> row) idx' vals'
      | None => Raise IndexError
      end
  | _, _ => Ok row
  end.

(** The three statements applied to each of the two matrices:
    [a = np.roll(a, -1, axis=0); a[-1, :] = np.nan; a[-1][idx] = vals]. *)
Definition ingest_row (a : list (list npfloat)) (idx : list Z) (vals : list npfloat)
  : result (list (list npfloat)) :=
  rbind (update_last_row (fun r => Ok (replicate (length r) NaN)) (np_roll_up a))
        (update_last_row (fun r => scatter r idx vals)).

Section Loop.
Context {K C : Type} `{Countable K}.

(** The row filter
    [(scan_df.freq >= config.min_freq) & (scan_df.freq <= config.max_freq)]. *)
Definition in_range (config : WaterfallConfig) (s : sample K) : bool :=
  Qle_bool (min_freq config) (freq s) && Qle_bool (freq s) (max_freq config).

(** [init_fig]: both matrices start as [waterfall_height] rows of
    [num_bins] NaN cells, the shape of the mesh grid [X]; [np.linspace]
    refuses a negative count, and [X[0]] needs a first row. *)
Definition init_fig (config : WaterfallConfig) (state : WaterfallState K C)
  : result (WaterfallState K C) :=
  if (num_bins config <? 0)%Z then Raise ValueError
  else if (waterfall_height config =? 0)%nat then Raise IndexError
  else
    let X0 := psd_x_edges config in
    let empty := replicate (waterfall_height config) (replicate (length X0) NaN) in
    Ok {| db_data := empty;
          freq_data := empty;
          freq_bins := X0;
          scan_times := scan_times state;
          scan_config_history := scan_config_history state;
          previous_scan_config := previous_scan_config state;
          counter := counter state |}.

(** [WaterfallState.__init__]. *)
Definition WaterfallState_init : WaterfallState K C :=
  {| db_data := [];
     freq_data := [];
     freq_bins := [];
     scan_times := [];
     scan_config_history := ∅;
     previous_scan_config := None;
     counter := 0 |}.

(** The bookkeeping of retained scan times and their configs:
    [scan_times.append(scan_time)], then, past [waterfall_height]
    entries, [scan_times.pop(0)] and (with a save path)
    [scan_config_history.pop(remove_time)], which raises on a missing
    key. *)
Definition evict_oldest (config : WaterfallConfig) (save_path : string)
    (times : list K) (history : gmap K C) : result (list K * gmap K C) :=
  if (waterfall_height config <? length times)%nat then
    match times with
    | [] => Raise IndexError
    | remove_time :: rest =>
        if String.eqb save_path "" then Ok (rest, history)
        else match history !! remove_time with
             | Some _ => Ok (rest, delete remove_time history)
             | None => Raise KeyError
             end
    end
  else Ok (times, history).

(** One iteration of [for scan_configs, scan_df in results], up to
    [state.counter += 1]; the histogram and the drawing calls in between
    do not write the fields modelled here.  The result carries the
    diagnostics logged by the iteration. *)
Definition process_batch (config : WaterfallConfig) (save_path : string)
    (state : WaterfallState K C) (scan_configs : C) (scan_df : list (sample K))
  : result (WaterfallState K C * list log_msg) :=
  let scan_df := filter (fun s => in_range config s = true) scan_df in
  match last scan_df with
  | None => Ok (state, [OutsideRange (min_freq config) (max_freq config)])
  | Some last_sample =>
      let idx := map (fun s => freq_idx config (freq s)) scan_df in
      rbind (ingest_row (freq_data state) idx
               (map (fun s => Fin (quantized_freq config (freq s))) scan_df))
        (fun freq_data' =>
      rbind (ingest_row (db_data state) idx (map db scan_df))
        (fun db_data' =>
      let scan_time := ts last_sample in
      rbind (evict_oldest config save_path (scan_times state ++ [scan_time])
               (scan_config_history state))
        (fun '(times, history) =>
      let history' :=
        if String.eqb save_path "" then history
        else <[scan_time := scan_configs]> history in
      Ok ({| db_data := db_data';
             freq_data := freq_data';
             freq_bins := freq_bins state;
             scan_times := times;
             scan_config_history := history';
             previous_scan_config := previous_scan_config state;
             counter := S (counter state) |}, []))))
  end.

(** The batches drained in one pass of the loop, processed in arrival
    order; the diagnostics accumulate. *)
Fixpoint process_batches (config : WaterfallConfig) (save_path : string)
    (state : WaterfallState K C) (results : list (C * list (sample K)))
  : result (WaterfallState K C * list log_msg) :=
  match results with
  | [] => Ok (state, [])
  | (scan_configs, scan_df) :: rest =>
      rbind (process_batch config save_path state scan_configs scan_df)
        (fun '(state', log) =>
      rbind (process_batches config save_path state' rest)
        (fun '(state'', log') => Ok (state'', log ++ log')))
  end.
End Loop.

(* ================================================================== *)
(** ** PSD normalisation: [data /= np.max(data)] *)

Definition Qltb (a b : Q) : bool := negb (Qle_bool b a).

(** [np.maximum] on two floats: NaN propagates. *)
Definition np_maximum (a b : npfloat) : npfloat :=
  match a, b with
  | NaN, _ | _, NaN => NaN
  | Inf false, _ | _, Inf false => Inf false
  | Inf true, x | x, Inf true => x
  | Fin p, Fin q => if Qle_bool p q then Fin q else Fin p
  end.

(** [np.max] of a flattened array; an empty array raises. *)
Definition np_max (l : list npfloat) : result npfloat :=
  match l with
  | [] => Raise ValueError
  | x :: l' => Ok (foldl np_maximum x l')
  end.

(** Float division as numpy performs it: no exception, [0/0] is NaN and
    a non-zero value over zero is an infinity. *)
Definition np_div (x y : npfloat) : npfloat :=
  match x, y with
  | NaN, _ | _, NaN => NaN
  | Inf _, Inf _ => NaN
  | Inf s, Fin q => Inf (xorb s (Qltb q 0))
  | Fin _, Inf _ => Fin 0
  | Fin p, Fin q =>
      if Qeq_bool q 0 then
        if Qeq_bool p 0 then NaN else Inf (Qltb p 0)
      else Fin (p / q)
  end.

(** [data = heatmap; data /= np.max(data)] on the smoothed count grid. *)
Definition normalize (heatmap : list (list npfloat)) : result (list (list npfloat)) :=
  rbind (np_max (concat heatmap))
        (fun m => Ok (map (map (fun x => np_div x m)) heatmap)).

(** The guarded normalisation the spec describes: a zero maximum leaves
    the grid as it is. *)
Definition spec_normalize (heatmap : list (list npfloat)) : result (list (list npfloat)) :=
  rbind (np_max (concat heatmap))
        (fun m =>
           match m with
           | Fin q => if Qeq_bool q 0 then Ok heatmap
                      else Ok (map (map (fun x => np_div x m)) heatmap)
           | _ => Ok (map (map (fun x => np_div x m)) heatmap)
           end).

(* ================================================================== *)
(** ** The containment filter ([filter_peaks]) *)

(** The [properties] dict of the peak finder: arrays by name. *)
Abbreviation properties := (gmap string (list Q)).

(** [properties[k][i]]: a missing key and an index out of bounds raise. *)
Definition prop_at (props : properties) (k : string) (i : nat) : result Q :=
  match props !! k with
  | None => Raise KeyError
  | Some a => of_option IndexError (a !! i)
  end.

(** The test of the inner loop; [and] evaluates its right operand only
    when the left one holds. *)
Definition contained_in (props : properties) (i j : nat) : result bool :=
  rbind (prop_at props "left_ips" i) (fun li =>
  rbind (prop_at props "left_ips" j) (fun lj =>
  if Qltb lj li then
    rbind (prop_at props "right_ips" i) (fun ri =>
    rbind (prop_at props "right_ips" j) (fun rj =>
    Ok (Qltb ri rj)))
  else Ok false)).

(** [for j in range(len(peaks))]: does some [j <> i] contain [i]?  The
    loop stops at the first one. *)
Fixpoint find_container (props : properties) (i : nat) (js : list nat) : result bool :=
  match js with
  | [] => Ok false
  | j :: js' =>
      if (i =? j)%nat then find_container props i js'
      else rbind (contained_in props i j) (fun c =>
           if c then Ok true else find_container props i js')
  end.

(** [np.delete(a, i)]; an index out of bounds raises. *)
Definition np_delete {A} (i : nat) (a : list A) : result (list A) :=
  if (i <? length a)%nat then Ok (delete i a) else Raise IndexError.

(** [for k in properties: properties[k] = np.delete(properties[k], i)]. *)
Definition delete_from_all (i : nat) (props : properties) : result properties :=
  if bool_decide (map_Forall (fun _ (a : list Q) => i < length a) props)
  then Ok (delete i <$> props)
  else Raise IndexError.

(** The outer loop over [range(len(peaks) - 1, -1, -1)], whose bounds are
    fixed on entry; [len(peaks)] of the inner loop is read at each outer
    step. *)
Fixpoint filter_peaks_from (rng : list nat) (peaks : list Z) (props : properties)
  : result (list Z * properties) :=
  match rng with
  | [] => Ok (peaks, props)
  | i :: rng' =>
      rbind (find_container props i (seq 0 (length peaks))) (fun c =>
      if c then
        rbind (np_delete i peaks) (fun peaks' =>
        rbind (delete_from_all i props) (fun props' =>
        filter_peaks_from rng' peaks' props'))
      else filter_peaks_from rng' peaks props)
  end.

Definition filter_peaks (peaks : list Z) (props : properties)
  : result (list Z * properties) :=
  filter_peaks_from (rev (seq 0 (length peaks))) peaks props.

(** Peak [i] lies strictly inside peak [j]. *)
Definition nested (left right : list Q) (i j : nat) : Prop :=
  exists li lj ri rj,
    left !! i = Some li /\ left !! j = Some lj /\
    right !! i = Some ri /\ right !! j = Some rj /\
    (lj < li)%Q /\ (ri < rj)%Q.

Definition nestedb (a b : Q * Q) : bool :=
  Qltb (fst b) (fst a) && Qltb (snd a) (snd b).

(** The filter as the spec's design note puts it: first the full
    containment relation on the candidates, then the candidates that no
    other one contains, as a mask over the input. *)
Definition spec_keep_mask (left right : list Q) : list bool :=
  let bounds := zip left right in
  map (fun a => negb (existsb (nestedb a) bounds)) bounds.

(** The elements of an array kept by a mask. *)
Fixpoint select {A} (mask : list bool) (a : list A) : list A :=
  match mask, a with
  | b :: mask', x :: a' => if b then x :: select mask' a' else select mask' a'
  | _, _ => []
  end.

(* ================================================================== *)
(** ** Files *)

(** A path is a directory and a base name: [Path(dir, name)],
    [os.path.join(dir, name)]; [os.path.dirname] and [os.path.basename]
    are the projections. *)
Abbreviation path := (string * string)%type.

Section Persistence.
Context {K C : Type} `{Countable K} `{EqDecision C}.

(** How a scan time prints inside a file name (an f-string). *)
Variable str_of_time : K -> string.

(** What the code writes to files, one constructor per written item. *)
Inductive item : Type :=
  | CsvHeader
  | CsvRow (timestamp : K) (start_freq end_freq dB : Q) (type : string)
  | JsonScanConfig (timestamp : K) (min_f max_f : Q) (scan_configs : C)
  | Image (figure : string).

Record filesystem : Type := {
  dirs : gset string;
  files : gmap path (list item)
}.

(** The primitive operations, as a reader of the directory sees them. *)
Inductive fs_op : Type :=
  | Makedirs (dir : string)
  | OpenWrite (p : path)                 (* open(p, "w"): create or truncate *)
  | OpenAppend (p : path)                (* open(p, "a"): create if missing *)
  | Write (p : path) (data : list item)  (* data reaching the file *)
  | Rename (src dst : path).

Definition apply_op (fs : filesystem) (op : fs_op) : filesystem :=
  match op with
  | Makedirs d => {| dirs := {[d]} ∪ dirs fs; files := files fs |}
  | OpenWrite p => {| dirs := dirs fs; files := <[p := []]> (files fs) |}
  | OpenAppend p =>
      match files fs !! p with
      | Some _ => fs
      | None => {| dirs := dirs fs; files := <[p := []]> (files fs) |}
      end
  | Write p data =>
      match files fs !! p with
      | Some old => {| dirs := dirs fs; files := <[p := old ++ data]> (files fs) |}
      | None => fs
      end
  | Rename src dst =>
      match files fs !! src with
      | Some content =>
          {| dirs := dirs fs; files := <[dst := content]> (delete src (files fs)) |}
      | None => fs
      end
  end.

(** Code that touches files: the file system and the trace of the
    operations performed so far are threaded through, and survive an
    exception. *)
Record io_state : Type := {
  io_fs : filesystem;
  io_trace : list fs_op
}.

Definition io (A : Type) : Type := io_state -> result A * io_state.

Definition io_ret {A} (a : A) : io A := fun s => (Ok a, s).

Definition io_bind {A B} (m : io A) (k : A -> io B) : io B :=
  fun s =>
    match m s with
    | (Ok a, s') => k a s'
    | (Raise e, s') => (Raise e, s')
    end.

Definition io_lift {A} (r : result A) : io A := fun s => (r, s).

Definition do_op (op : fs_op) : io unit :=
  fun s => (Ok tt, {| io_fs := apply_op (io_fs s) op; io_trace := io_trace s ++ [op] |}).

Definition dir_exists (d : string) : io bool :=
  fun s => (Ok (bool_decide (d ∈ dirs (io_fs s))), s).

Definition file_exists (p : path) : io bool :=
  fun s => (Ok (bool_decide (is_Some (files (io_fs s) !! p))), s).

Definition io_when (b : bool) (m : io unit) : io unit :=
  if b then m else io_ret tt.

Fixpoint io_for {A} (l : list A) (body : A -> io unit) : io unit :=
  match l with
  | [] => io_ret tt
  | x :: l' => io_bind (body x) (fun _ => io_for l' body)
  end.

(** [safe_savefig(path)]: the figure goes to a dot-file next to [path],
    which is then renamed onto [path]. *)
Definition safe_savefig (figure : string) (p : path) : io unit :=
  let basename := snd p in
  let dirname := fst p in
  let tmp_path := (dirname, String.append "." basename) in
  io_bind (do_op (OpenWrite tmp_path)) (fun _ =>
  io_bind (do_op (Write tmp_path [Image figure])) (fun _ =>
  do_op (Rename tmp_path p))).

(** [psd_x_edges[x.astype(int)]]: the float index is truncated, then
    used as an array index. *)
Definition edge_at (edges : list Q) (x : Q) : result Q :=
  match np_index (length edges) (py_int x) with
  | Some k => of_option IndexError (edges !! k)
  | None => Raise IndexError
  end.

(** Linear interpolation of a fractional index against the edges, the
    translation the spec describes. *)
Definition spec_interp_edge (edges : list Q) (x : Q) : option Q :=
  let k := Qfloor x in
  if (k <? 0)%Z then None
  else
    match edges !! Z.to_nat k, edges !! S (Z.to_nat k) with
    | Some lo, Some hi => Some (lo + (x - inject_Z k) * (hi - lo))%Q
    | Some lo, None => if Qeq_bool x (inject_Z k) then Some lo else None
    | None, _ => None
    end.

(** The row of the detection file for peak [i]. *)
Definition detection_row (scan_time : K) (props : properties) (edges : list Q)
    (detection_type : string) (i : nat) : result item :=
  rbind (prop_at props "left_ips" i) (fun l =>
  rbind (edge_at edges l) (fun start_freq =>
  rbind (prop_at props "right_ips" i) (fun r =>
  rbind (edge_at edges r) (fun end_freq =>
  rbind (prop_at props "peak_heights" i) (fun dB =>
  Ok (CsvRow scan_time start_freq end_freq dB detection_type)))))).

Definition detection_save_dir (save_path : string) : string :=
  String.append save_path "/detections".

Definition detection_config_save_path (save_path : string) (scan_time : K) : path :=
  (detection_save_dir save_path,
   String.append "detections_scan_config_" (String.append (str_of_time scan_time) ".json")).

Definition detection_save_path (save_path : string) (scan_time : K) : path :=
  (detection_save_dir save_path,
   String.append "detections_" (String.append (str_of_time scan_time) ".csv")).

(** Does this call write the scan-config file?
    [state.previous_scan_config is None or
     state.previous_scan_config != scan_configs]. *)
Definition config_changed (previous : option C) (scan_configs : C) : bool :=
  match previous with
  | None => true
  | Some c => negb (bool_decide (c = scan_configs))
  end.

(** [save_detections]; it returns the state with
    [previous_scan_config] updated. *)
Definition save_detections (config : WaterfallConfig) (state : WaterfallState K C)
    (save_path : string) (scan_time : K) (scan_configs : C)
    (peaks : list Z) (props : properties) (edges : list Q)
    (detection_type : string) : io (WaterfallState K C) :=
  let cfg_path := detection_config_save_path save_path scan_time in
  let csv_path := detection_save_path save_path scan_time in
  io_bind (dir_exists (detection_save_dir save_path)) (fun e =>
  io_bind (io_when (negb e) (do_op (Makedirs (detection_save_dir save_path)))) (fun _ =>
  let write_config := config_changed (previous_scan_config state) scan_configs in
  let state' :=
    if write_config then
      {| db_data := db_data state;
         freq_data := freq_data state;
         freq_bins := freq_bins state;
         scan_times := scan_times state;
         scan_config_history := scan_config_history state;
         previous_scan_config := Some scan_configs;
         counter := counter state |}
    else state in
  io_bind (io_when write_config
             (io_bind (do_op (OpenWrite cfg_path)) (fun _ =>
              do_op (Write cfg_path
                       [JsonScanConfig scan_time (min_freq config) (max_freq config)
                          scan_configs])))) (fun _ =>
  io_bind (file_exists csv_path) (fun e' =>
  io_bind (io_when (negb e')
             (io_bind (do_op (OpenWrite csv_path)) (fun _ =>
              do_op (Write csv_path [CsvHeader])))) (fun _ =>
  io_bind (do_op (OpenAppend csv_path)) (fun _ =>
  io_bind (io_for (seq 0 (length peaks)) (fun i =>
             io_bind (io_lift (detection_row scan_time props edges detection_type i))
               (fun row => do_op (Write csv_path [row])))) (fun _ =>
  io_ret state'))))))).

(** The head of [draw_peaks]: find the peaks of the newest row, filter
    them, and persist them when a save path is set.  The peak finder is
    a collaborator: [find_peaks] stands for its method. *)
Definition draw_peaks (find_peaks : list npfloat -> list Z * properties)
    (config : WaterfallConfig) (state : WaterfallState K C)
    (detection_type : string) (save_path : string) (scan_time : K)
    (scan_configs : C) (edges : list Q) : io (WaterfallState K C) :=
  io_bind (io_lift (of_option IndexError (last (db_data state)))) (fun row =>
  let '(peaks, props) := find_peaks row in
  io_bind (io_lift (filter_peaks peaks props)) (fun '(peaks', props') =>
  if String.eqb save_path "" then io_ret state
  else save_detections config state save_path scan_time scan_configs
         peaks' props' edges detection_type)).

(** The file systems a concurrent reader may see while [ops] run from
    [fs]: one after each prefix of the operations. *)
Definition observable (fs : filesystem) (ops : list fs_op) : list filesystem :=
  map (fun n => foldl apply_op fs (take n ops)) (seq 0 (S (length ops))).

(** [p] is published atomically by [ops]: at every moment a reader finds
    at [p] what was there before or what is there in the end. *)
Definition atomic_at (fs : filesystem) (ops : list fs_op) (p : path) : Prop :=
  Forall (fun fs' => files fs' !! p = files fs !! p \/
                     files fs' !! p = files (foldl apply_op fs ops) !! p)
         (observable fs ops).

(** The discipline itself: [p] is never opened or written, it only ever
    is the target of a rename. *)
Definition touches (p : path) (op : fs_op) : bool :=
  match op with
  | OpenWrite q | OpenAppend q | Write q _ => bool_decide (q = p)
  | Rename src _ => bool_decide (src = p)
  | Makedirs _ => false
  end.

Definition written_in_place (ops : list fs_op) (p : path) : Prop :=
  Exists (fun op => touches p op = true) ops.

(** The calls of [save_detections] over a run, one per drawn cycle, each
    with its scan time, scan config and filtered peaks; the state is
    handed on from call to call. *)
Fixpoint save_detections_seq (config : WaterfallConfig) (state : WaterfallState K C)
    (save_path : string) (edges : list Q) (detection_type : string)
    (calls : list (K * C * (list Z * properties))) : io (WaterfallState K C) :=
  match calls with
  | [] => io_ret state
  | (scan_time, scan_configs, (peaks, props)) :: rest =>
      io_bind (save_detections config state save_path scan_time scan_configs
                 peaks props edges detection_type) (fun state' =>
      save_detections_seq config state' save_path edges detection_type rest)
  end.

(** A write of the scan-config snapshot. *)
Definition is_config_write (op : fs_op) : bool :=
  match op with
  | Write _ [JsonScanConfig _ _ _ _] => true
  | _ => false
  end.

Definition config_writes (ops : list fs_op) : nat :=
  length (filter (fun op => is_config_write op = true) ops).

(** The number of writes the spec asks for: one for each config that
    differs from the last one written, and one for the first. *)
Fixpoint spec_config_writes (last_written : option C) (configs : list C) : nat :=
  match configs with
  | [] => 0
  | c :: rest =>
      if decide (last_written = Some c) then spec_config_writes last_written rest
      else S (spec_config_writes (Some c) rest)
  end.
End Persistence.

(* ================================================================== *)
(** ** Notions used to state the properties of the loop *)

Section LoopNotions.
Context {K C : Type} `{Countable K}.

(** The samples of a batch that survive the range filter. *)
Definition kept (config : WaterfallConfig) (scan_df : list (sample K)) : list (sample K) :=
  filter (fun s => in_range config s = true) scan_df.

(** Their bins. *)
Definition batch_idx (config : WaterfallConfig) (scan_df : list (sample K)) : list Z :=
  map (fun s => freq_idx config (freq s)) (kept config scan_df).

(** The row a batch leaves in the power matrix: an all-NaN row of the
    given width with the kept samples written into it. *)
Definition db_row_of (config : WaterfallConfig) (width : nat) (scan_df : list (sample K))
  : result (list npfloat) :=
  scatter (replicate width NaN) (batch_idx config scan_df) (map db (kept config scan_df)).

(** The row it leaves in the frequency matrix. *)
Definition freq_row_of (config : WaterfallConfig) (width : nat) (scan_df : list (sample K))
  : result (list npfloat) :=
  scatter (replicate width NaN) (batch_idx config scan_df)
    (map (fun s => Fin (quantized_freq config (freq s))) (kept config scan_df)).

(** A batch with at least one sample in range is ingested, the others
    are skipped. *)
Definition is_ingested (config : WaterfallConfig) (r : C * list (sample K)) : bool :=
  match kept config (snd r) with
  | [] => false
  | _ => true
  end.

(** The scan-config history tracks the retained scan times: the times
    are pairwise distinct and are exactly the keys of the history. *)
Definition history_tracks (state : WaterfallState K C) : Prop :=
  NoDup (scan_times state) /\
  dom (scan_config_history state) = list_to_set (scan_times state).
End LoopNotions.

Section PersistenceNotions.
Context {K C : Type} `{Countable K} `{EqDecision C}.

(** The scan time of a batch: the [ts] of its last kept sample. *)
Definition batch_time (config : WaterfallConfig) (scan_df : list (sample K)) : option K :=
  ts <$> last (kept config scan_df).

(** [m] extends the trace by [n] scan-config writes, whatever its
    outcome. *)
Definition adds {A} (m : io (K:=K) (C:=C) A) (n : nat) : Prop :=
  forall s, config_writes (io_trace (snd (m s))) = config_writes (io_trace s) + n.

(** [m] never raises. *)
Definition total {A} (m : io (K:=K) (C:=C) A) : Prop :=
  forall s, exists a s', m s = (Ok a, s').

(** The operations a call performed: what it appended to the trace. *)
Definition performed {A} (m : io (K:=K) (C:=C) A) (s : io_state (K:=K) (C:=C))
  : list (fs_op (K:=K) (C:=C)) :=
  drop (length (io_trace s)) (io_trace (snd (m s))).

(** An operation of [save_detections] made in place: creating the
    directory, or opening or writing one of the two final paths. *)
Definition in_place_op (dir : string) (cfg_path csv_path : path)
    (op : fs_op (K:=K) (C:=C)) : Prop :=
  match op with
  | Makedirs d => d = dir
  | OpenWrite p | OpenAppend p | Write p _ => p = cfg_path \/ p = csv_path
  | Rename _ _ => False
  end.
End PersistenceNotions.

(** The empty file system and trace. *)
Definition io_empty {K C : Type} `{Countable K} : io_state (K:=K) (C:=C) :=
  {| io_fs := {| dirs := ∅; files := ∅ |}; io_trace := [] |}.

Section TraceNotions.
Context {K C : Type} `{Countable K} `{EqDecision C}.

(** Every operation [m] performs satisfies [P], whatever its outcome. *)
Definition emits {A} (P : fs_op (K:=K) (C:=C) -> Prop) (m : io (K:=K) (C:=C) A) : Prop :=
  forall s, exists ops, io_trace (snd (m s)) = io_trace s ++ ops /\ Forall P ops.
End TraceNotions.

(** A cell of the smoothed count grid: a finite, non-negative value. *)
Definition count_cell (x : npfloat) : Prop := exists q, x = Fin q /\ (0 <= q)%Q.

(* ================================================================== *)
(** ** Notions used to follow the containment filter *)

(** An array while the outer loop stands before index [k]: the first [k]
    elements are untouched, of the others those that the mask keeps are
    left. *)
Definition live_view {A} (k : nat) (mask : list bool) (a : list A) : list A :=
  take k a ++ select mask (drop k a).

(** The mask the loop builds, on the pairs of bounds: [rpre] holds the
    candidates still to be visited, nearest first, [suf] those already
    visited and [mask] which of them are left.  A candidate goes when a
    candidate still there contains it. *)
Fixpoint loop_mask (rpre suf : list (Q * Q)) (mask : list bool) : list bool :=
  match rpre with
  | [] => mask
  | x :: rpre' =>
      loop_mask rpre' (x :: suf)
        (negb (existsb (nestedb x) (rev rpre' ++ select mask suf)) :: mask)
  end.

(** Whether a candidate stays: no candidate of [all] contains it. *)
Definition stays (all : list (Q * Q)) (a : Q * Q) : bool :=
  negb (existsb (nestedb a) all).

(** What the loop maintains: the mask of the visited candidates is
    already the final one, and whatever is contained in some candidate is
    contained in one that is still there. *)
Definition mask_inv (all rpre suf : list (Q * Q)) (mask : list bool) : Prop :=
  all = rev rpre ++ suf /\
  mask = map (stays all) suf /\
  forall y, existsb (nestedb y) all = true ->
            existsb (nestedb y) (rev rpre ++ select mask suf) = true.

(* ================================================================== *)
(** ** More of the loop: rotation, ticks, saving, colour range *)

(** The rotation bucket of the main loop:
    [int(time.time() / rotate_secs) * rotate_secs]. *)
Definition rotation_bucket (now : Q) (rotate_secs : Z) : Z :=
  (py_int (now / inject_Z rotate_secs) * rotate_secs)%Z.

(** [self.base = 20] of [WaterfallConfig.__init__]. *)
Definition config_base : Z := 20.

(** [min(x, 20)] on a float and an int. *)
Definition py_min_20 (x : Q) : Q := if Qltb 20 x then 20 else x.

(** [state.major_tick_separator] as [init_fig] computes it; a span of
    zero makes [n_ticks] zero, and the float division by it raises
    ZeroDivisionError ([None]). *)
Definition major_tick_separator (config : WaterfallConfig) : option Z :=
  let span := (max_freq config / scale config - min_freq config / scale config)%Q in
  let n_ticks := py_min_20 (span / 100 * 5) in
  if Qeq_bool n_ticks 0 then None
  else Some (config_base * np_round (span / n_ticks / inject_Z config_base))%Z.

Section MoreLoopNotions.
Context {K C : Type} `{Countable K}.

(** The last kept sample of a batch that falls in bin [k]. *)
Definition last_sample_in_bin (config : WaterfallConfig) (k : nat)
    (scan_df : list (sample K)) : option (sample K) :=
  last (filter (fun s => freq_idx config (freq s) = Z.of_nat k) (kept config scan_df)).

(** The last [n] elements of a list (all of it when it is shorter). *)
Definition retained {A} (n : nat) (l : list A) : list A :=
  drop (length l - n) l.

(** The scan times of the ingested batches of a run, in arrival order. *)
Definition new_times (config : WaterfallConfig) (results : list (C * list (sample K)))
  : list K :=
  omap (fun r => batch_time config (snd r)) results.
End MoreLoopNotions.



(* ================================================================== *)
(** ** The tick marks of the waterfall's time axis *)

(** [for j in range(len(state.y_ticks) - 2, -1, -1)]: every tick but the
    one just appended moves down by one, and a tick that leaves the axis
    is popped together with the label at the same index. *)
Fixpoint shift_ticks (js : list nat) (y_ticks : list Z) (y_labels : list string)
  : result (list Z * list string) :=
  match js with
  | [] => Ok (y_ticks, y_labels)
  | j :: js' =>
      match y_ticks !! j with
      | None => Raise IndexError
      | Some y =>
          let y_ticks' := <[j := (y - 1)%Z]> y_ticks in
          if (y - 1 <? 1)%Z then
            if (j <? length y_labels)%nat
            then shift_ticks js' (delete j y_ticks') (delete j y_labels)
            else Raise IndexError
          else shift_ticks js' y_ticks' y_labels
      end
  end.

(** The tick bookkeeping of one ingested row: append the label and a
    tick at [waterfall_height], then shift the older ticks.  The label
    is the row's time on the rows where
    [state.counter % config.y_label_skip == 0] and the empty string on
    the others; it is an argument here. *)
Definition advance_ticks (config : WaterfallConfig) (label : string)
    (y_ticks : list Z) (y_labels : list string) : result (list Z * list string) :=
  let y_labels' := y_labels ++ [label] in
  let y_ticks' := y_ticks ++ [Z.of_nat (waterfall_height config)] in
  shift_ticks (rev (seq 0 (length y_ticks' - 1))) y_ticks' y_labels'.

(** The ticks of the [n] newest rows of a waterfall of height [h]: the
    positions [h - n + 1, ..., h]. *)
Definition tick_positions (h n : nat) : list Z :=
  seqZ (Z.of_nat h - Z.of_nat n + 1) (Z.of_nat n).

(* ================================================================== *)
(** ** [save_waterfall]: when a snapshot is due, and what it records *)

(** The clock of [save_waterfall], in seconds: [state.last_save_time]
    is [None] until the first call, which sets it to its own time; a
    call saves when more than [save_time] minutes have passed since, and
    then restarts the clock.  The result is whether the call saves and
    the new [last_save_time]; what a saving call writes (the figure
    through [safe_savefig], the scan configs below in place) is not part
    of this function. *)
Definition save_waterfall_due (last_save_time : option Q) (now : Q) (save_time : Q)
  : bool * option Q :=
  let last := match last_save_time with
              | None => now
              | Some t => t
              end in
  if Qltb (save_time * 60) (now - last) then (true, Some now) else (false, Some last).

(** The calls of [save_waterfall] over a run, at the times [nows]: the
    times of the calls that save. *)
Fixpoint save_waterfall_times (last_save_time : option Q) (save_time : Q) (nows : list Q)
  : list Q :=
  match nows with
  | [] => []
  | now :: rest =>
      let '(due, last') := save_waterfall_due last_save_time now save_time in
      if due then now :: save_waterfall_times last' save_time rest
      else save_waterfall_times last' save_time rest
  end.

(** Every element exceeds its predecessor by more than [gap], starting
    from [start]. *)
Fixpoint spaced (gap start : Q) (l : list Q) : Prop :=
  match l with
  | [] => True
  | t :: rest => (gap < t - start)%Q /\ spaced gap t rest
  end.

(** The [save_scan_configs] dict of a snapshot: the oldest and the newest
    retained scan time, each with its scan config.  The entries are
    evaluated in order; [scan_times[0]] and [scan_times[-1]] raise on an
    empty list, the history lookups on a missing key. *)
Definition save_scan_configs {K C : Type} `{Countable K} (state : WaterfallState K C)
  : result (K * C * K * C) :=
  rbind (of_option IndexError (head (scan_times state))) (fun start_scan_timestamp =>
  rbind (of_option KeyError (scan_config_history state !! start_scan_timestamp))
    (fun start_scan_config =>
  rbind (of_option IndexError (last (scan_times state))) (fun end_scan_timestamp =>
  rbind (of_option KeyError (scan_config_history state !! end_scan_timestamp))
    (fun end_scan_config =>
  Ok (start_scan_timestamp, start_scan_config, end_scan_timestamp, end_scan_config))))).

(* ================================================================== *)
(** ** The colour scale of the waterfall ([db_norm]) *)

(** Float subtraction: NaN propagates, and the difference of two equal
    infinities is NaN. *)
Definition np_sub (x y : npfloat) : npfloat :=
  match x, y with
  | NaN, _ | _, NaN => NaN
  | Inf a, Inf b => if Bool.eqb a b then NaN else Inf a
  | Inf a, Fin _ => Inf a
  | Fin _, Inf b => Inf (negb b)
  | Fin p, Fin q => Fin (p - q)
  end.

(** [np.fmin] and [np.fmax] on two floats: a NaN operand is ignored. *)
Definition np_fmin (a b : npfloat) : npfloat :=
  match a, b with
  | NaN, x | x, NaN => x
  | Inf true, _ | _, Inf true => Inf true
  | Inf false, x | x, Inf false => x
  | Fin p, Fin q => if Qle_bool p q then Fin p else Fin q
  end.

Definition np_fmax (a b : npfloat) : npfloat :=
  match a, b with
  | NaN, x | x, NaN => x
  | Inf false, _ | _, Inf false => Inf false
  | Inf true, x | x, Inf true => x
  | Fin p, Fin q => if Qle_bool p q then Fin q else Fin p
  end.

(** [np.nanmin] and [np.nanmax] of a flattened array: NaN cells are
    skipped, an array of NaN cells alone gives NaN, an empty array
    raises. *)
Definition np_nanmin (l : list npfloat) : result npfloat :=
  match l with
  | [] => Raise ValueError
  | x :: l' => Ok (foldl np_fmin x l')
  end.

Definition np_nanmax (l : list npfloat) : result npfloat :=
  match l with
  | [] => Raise ValueError
  | x :: l' => Ok (foldl np_fmax x l')
  end.

(** [np.nanmin(a, axis=0)]: the minimum of every column; an array
    without rows raises. *)
Definition np_nanmin_axis0 (a : list (list npfloat)) : result (list npfloat) :=
  match a with
  | [] => Raise ValueError
  | r :: a' => Ok (foldl (zip_with np_fmin) r a')
  end.

(** The matrix handed to the colour map in a drawn cycle:
    [(db_data - db_min) / (db_max - db_min)] with the extremes of the
    whole buffer, or with [plot_snr] the excess over the column minimum
    on the scale from [snr_min] to [snr_max]. *)
Definition db_norm (config : WaterfallConfig) (db_data : list (list npfloat))
  : result (list (list npfloat)) :=
  rbind (np_nanmin (concat db_data)) (fun db_min =>
  rbind (np_nanmax (concat db_data)) (fun db_max =>
  if plot_snr config then
    rbind (np_nanmin_axis0 db_data) (fun col_min =>
    Ok (map (fun row =>
               zip_with (fun x m =>
                           np_div (np_sub (np_sub x m) (Fin (snr_min config)))
                                  (Fin (snr_max config - snr_min config)))
                        row col_min)
            db_data))
  else
    Ok (map (map (fun x => np_div (np_sub x db_min) (np_sub db_max db_min))) db_data))).

(** A cell as the loop writes it: a measured power or NaN. *)
Definition finite_or_nan (x : npfloat) : Prop :=
  match x with
  | Inf _ => False
  | _ => True
  end.

(** What [db_norm] makes of a cell when the buffer holds two different
    powers: NaN stays NaN, a power lands between 0 and 1. *)
Definition scaled_cell (x y : npfloat) : Prop :=
  match x with
  | Fin _ => exists v, y = Fin v /\ (0 <= v <= 1)%Q
  | _ => y = NaN
  end.

(* ================================================================== *)
(** ** Concrete configurations and inputs used in the examples *)

(** The configuration of the spec's examples: 100 to 110 MHz in steps of
    0.1 MHz. *)
Definition example_config : WaterfallConfig :=
  {| plot_snr := false;
     snr_min := 0;
     snr_max := 50;
     waterfall_height := 100;
     scale := 1000000;
     freq_resolution := 1 # 10;
     psd_db_resolution := 90;
     y_label_skip := 3;
     min_freq := 100;
     max_freq := 110 |}.

(** 1 to 10 MHz in steps of 1 MHz, through the constructor: a sampling
    rate of 256 MHz with an FFT length of 256. *)
Definition unit_step_config : WaterfallConfig :=
  WaterfallConfig_init false 256000000 256 1000000 10000000.

(** One peak whose width crossings fall half-way between bins, over
    three frequency edges. *)
Definition halfway_props : properties :=
  {[ "left_ips" := [1 # 2]; "right_ips" := [3 # 2]; "peak_heights" := [-50 # 1] ]}%Q.

Definition three_edges : list Q := [100; 101; 102]%Q.

(** A first call of [save_detections] on an empty directory tree, with
    scan times printed in decimal. *)
Definition first_save : io (K:=Z) (C:=string) (WaterfallState Z string) :=
  save_detections (fun t : Z => pretty t) example_config WaterfallState_init
    "out" 17%Z "cfgA" [1%Z] halfway_props three_edges "narrowband".

Definition first_save_config_path : path :=
  detection_config_save_path (fun t : Z => pretty t) "out" 17%Z.

(** Five calls without peaks, with the scan configs A, A, B, B, A. *)
Definition aabba_calls : list (Z * string * (list Z * properties)) :=
  [(1%Z, "A", ([], ∅)); (2%Z, "A", ([], ∅)); (3%Z, "B", ([], ∅));
   (4%Z, "B", ([], ∅)); (5%Z, "A", ([], ∅))].

(** The state of the files before that call: nothing there yet. *)
Definition nothing_saved : io_state (K:=Z) (C:=string) := io_empty.

(** A small waterfall: 3 rows over 100 to 102 MHz in steps of 1 MHz. *)
Definition small_config : WaterfallConfig :=
  {| plot_snr := false;
     snr_min := 0;
     snr_max := 50;
     waterfall_height := 3;
     scale := 1000000;
     freq_resolution := 1;
     psd_db_resolution := 90;
     y_label_skip := 3;
     min_freq := 100;
     max_freq := 102 |}.

(** Its state after [init_fig]. *)
Definition small_state : WaterfallState Z string :=
  match init_fig small_config WaterfallState_init with
  | Ok state => state
  | Raise _ => WaterfallState_init
  end.

(** Three batches: one in range, one wholly below the range, one with a
    sample below the range in front of a sample in range. *)
Definition small_results : list (string * list (sample Z)) :=
  [("A", [ {| freq := 100; db := Fin (-90); ts := 1%Z |};
           {| freq := 102; db := Fin (-95); ts := 1%Z |} ]);
   ("A", [ {| freq := 999 # 10; db := Fin (-70); ts := 2%Z |} ]);
   ("B", [ {| freq := 999 # 10; db := Fin (-60); ts := 3%Z |};
           {| freq := 101; db := Fin (-80); ts := 3%Z |} ])].

(** Two batches that carry the same scan time. *)
Definition same_time_results : list (string * list (sample Z)) :=
  [("A", [ {| freq := 100; db := Fin (-90); ts := 7%Z |} ]);
   ("A", [ {| freq := 101; db := Fin (-91); ts := 7%Z |} ])].

(** One peak whose width crossings fall on bins 1 and 2. *)
Definition integral_props : properties :=
  {[ "left_ips" := [1]; "right_ips" := [2]; "peak_heights" := [-50 # 1] ]}%Q.

(** The smoothed histogram of a buffer without samples inside the edges. *)
Definition zero_grid : list (list npfloat) := [[Fin 0; Fin 0]; [Fin 0; Fin 0]].

(** Three candidates: two with the same bounds, and one inside them. *)
Definition twin_peaks : list Z := [10; 11; 12]%Z.

Definition twin_props : properties :=
  {[ "left_ips" := [5; 5; 6]; "right_ips" := [9; 9; 8];
     "peak_heights" := [-50 # 1; -51 # 1; -52 # 1] ]}%Q.

(* ================================================================== *)
(** ** Further inputs on the small waterfall *)

(** A batch with two samples in bin 0, one in bin 2 and one below the
    range. *)
Definition crowded_batch : list (sample Z) :=
  [ {| freq := 100; db := Fin (-90); ts := 1%Z |};
    {| freq := 1003 # 10; db := Fin (-80); ts := 1%Z |};
    {| freq := 102; db := Fin (-95); ts := 1%Z |};
    {| freq := 99; db := Fin (-60); ts := 1%Z |} ].

(** Four batches with the scan times 1 to 4, behind one that is skipped. *)
Definition four_scans : list (string * list (sample Z)) :=
  [("A", [ {| freq := 99; db := Fin (-60); ts := 0%Z |} ]);
   ("A", [ {| freq := 100; db := Fin (-90); ts := 1%Z |} ]);
   ("A", [ {| freq := 101; db := Fin (-91); ts := 2%Z |} ]);
   ("B", [ {| freq := 102; db := Fin (-92); ts := 3%Z |} ]);
   ("B", [ {| freq := 100; db := Fin (-93); ts := 4%Z |} ])].

(** A range that is not a whole number of steps: 100 to 101.6 MHz in
    steps of 1 MHz. *)
Definition ragged_config : WaterfallConfig :=
  {| plot_snr := false;
     snr_min := 0;
     snr_max := 50;
     waterfall_height := 3;
     scale := 1000000;
     freq_resolution := 1;
     psd_db_resolution := 90;
     y_label_skip := 3;
     min_freq := 100;
     max_freq := 1016 # 10 |}.

Definition ragged_state : WaterfallState Z string :=
  match init_fig ragged_config WaterfallState_init with
  | Ok state => state
  | Raise _ => WaterfallState_init
  end.

(** Four batches of which the first two carry the same scan time. *)
Definition repeated_time_results : list (string * list (sample Z)) :=
  [("A", [ {| freq := 100; db := Fin (-90); ts := 7%Z |} ]);
   ("A", [ {| freq := 101; db := Fin (-91); ts := 7%Z |} ]);
   ("A", [ {| freq := 102; db := Fin (-92); ts := 8%Z |} ]);
   ("A", [ {| freq := 100; db := Fin (-93); ts := 9%Z |} ])].

(** The small waterfall after these four batches, with a save path. *)
Definition stale_state : WaterfallState Z string :=
  match process_batches small_config "out" small_state repeated_time_results with
  | Ok (state, _) => state
  | Raise _ => small_state
  end.

(** Two candidates over three edges, the second strictly inside the
    first. *)
Definition nested_peaks : list Z := [10; 11]%Z.

Definition nested_props : properties :=
  {[ "left_ips" := [0; 1]; "right_ips" := [2; 3 # 2];
     "peak_heights" := [-50 # 1; -60 # 1] ]}%Q.

(** A drawn cycle on the small waterfall whose peak finder reports these
    two candidates, with a save path. *)
Definition nested_draw : io (K:=Z) (C:=string) (WaterfallState Z string) :=
  draw_peaks (fun t : Z => pretty t) (fun _ => (nested_peaks, nested_props))
    small_config small_state "narrowband" "out" 17%Z "cfgA" three_edges.

(** A buffer of two rows with three powers and one empty cell. *)
Definition two_rows : list (list npfloat) :=
  [[Fin (-90); NaN]; [Fin (-70); Fin (-80)]].

(* ================================================================== *)
(** * Properties *)

(** ** Rounding and truncation *)

Lemma Qfloor_unique (x : Q) (z : Z) :
  (inject_Z z <= x)%Q -> (x < inject_Z (z + 1))%Q -> Qfloor x = z.
Proof.
  intros Hlo Hhi.
  pose proof (Qfloor_le x) as H1. pose proof (Qlt_floor x) as H2.
  assert (Hz1 : (inject_Z z < inject_Z (Qfloor x + 1))%Q) by lra.
  assert (Hz2 : (inject_Z (Qfloor x) < inject_Z (z + 1))%Q) by lra.
  rewrite <- Zlt_Qlt in Hz1, Hz2. lia.
Qed.

Lemma Qfloor_add_Z (x : Q) (m : Z) : Qfloor (x + inject_Z m) = (Qfloor x + m)%Z.
Proof.
  apply Qfloor_unique.
  - rewrite inject_Z_plus. pose proof (Qfloor_le x). lra.
  - replace (Qfloor x + m + 1)%Z with ((Qfloor x + 1) + m)%Z by lia.
    rewrite inject_Z_plus. pose proof (Qlt_floor x). lra.
Qed.

Lemma py_int_nonneg (x : Q) : (0 <= x)%Q -> py_int x = Qfloor x.
Proof.
  destruct x as [n d]. unfold Qle, py_int, Qfloor. simpl. intros Hn.
  apply Z.quot_div_nonneg; lia.
Qed.

Lemma np_round_bounds (x : Q) :
  (Qfloor x <= np_round x <= Qfloor x + 1)%Z.
Proof.
  unfold np_round. destruct (Qcompare _ _); [destruct (Z.even _)|..]; lia.
Qed.

Lemma np_round_mono (x y : Q) : (x <= y)%Q -> (np_round x <= np_round y)%Z.
Proof.
  intros Hxy. pose proof (Qfloor_resp_le _ _ Hxy) as Hf.
  destruct (Z.eq_dec (Qfloor x) (Qfloor y)) as [E|NE].
  - unfold np_round. rewrite E.
    destruct (Qcompare_spec (x - inject_Z (Qfloor y)) (1 # 2));
      destruct (Qcompare_spec (y - inject_Z (Qfloor y)) (1 # 2));
      try destruct (Z.even _); try lia; lra.
  - pose proof (np_round_bounds x). pose proof (np_round_bounds y). lia.
Qed.

Lemma np_round_comp (x y : Q) : x == y -> np_round x = np_round y.
Proof.
  intros E. unfold np_round. rewrite (Qfloor_comp _ _ E).
  assert (E' : x - inject_Z (Qfloor y) == y - inject_Z (Qfloor y))
    by (rewrite E; reflexivity).
  rewrite (Qcompare_comp _ _ E' _ _ (Qeq_refl _)). reflexivity.
Qed.

Lemma np_round_Z (z : Z) : np_round (inject_Z z) = z.
Proof.
  unfold np_round. rewrite Qfloor_Z.
  destruct (Qcompare_spec (inject_Z z - inject_Z z) (1 # 2)); try lra; reflexivity.
Qed.

(** Rounding commutes with an integer shift, except that a tie may round
    the other way when the shift is odd. *)
Lemma np_round_sub_Z (x : Q) (m : Z) :
  Z.even m = true \/ ~ (x - inject_Z (Qfloor x) == 1 # 2) ->
  np_round (x - inject_Z m) = (np_round x - m)%Z.
Proof.
  intros Hm. unfold np_round.
  assert (Ef : Qfloor (x - inject_Z m) = (Qfloor x - m)%Z).
  { replace (x - inject_Z m)%Q with (x + inject_Z (- m))%Q.
    - rewrite Qfloor_add_Z. lia.
    - rewrite inject_Z_opp. reflexivity. }
  rewrite Ef.
  assert (E' : x - inject_Z m - inject_Z (Qfloor x - m) == x - inject_Z (Qfloor x)).
  { unfold Zminus. rewrite inject_Z_plus, inject_Z_opp. ring. }
  rewrite (Qcompare_comp _ _ E' _ _ (Qeq_refl _)).
  destruct (Qcompare_spec (x - inject_Z (Qfloor x)) (1 # 2)) as [E|L|G]; try lia.
  destruct Hm as [Hm|Hm]; [|contradiction].
  replace (Qfloor x - m)%Z with (Qfloor x + - m)%Z by lia.
  rewrite Z.even_add, Z.even_opp, Hm.
  destruct (Z.even (Qfloor x)); simpl; lia.
Qed.

Lemma length_linspace (a b : Q) (n : nat) : length (linspace a b n) = n.
Proof. unfold linspace. rewrite length_map, length_seq. reflexivity. Qed.

Lemma Qdiv_nonneg (a b : Q) : (0 <= a)%Q -> (0 < b)%Q -> (0 <= a / b)%Q.
Proof. intros Ha Hb. apply Qle_shift_div_l; [assumption|]. lra. Qed.

(** ** The number of bins *)

(** C7. For a configuration with [min_freq < max_freq] and a positive
    resolution, the number of bins the code computes is
    [floor((max_freq - min_freq) / resolution) + 1]; the PSD frequency
    edges have that many points, and [init_fig] (for a waterfall of at
    least one row) succeeds and gives both matrices and [freq_bins] that
    many columns. *)
Theorem num_bins_formula {K C : Type} `{Countable K} (config : WaterfallConfig) :
  (min_freq config < max_freq config)%Q ->
  (0 < freq_resolution config)%Q ->
  num_bins config
    = spec_num_bins (min_freq config) (max_freq config) (freq_resolution config) /\
  length (psd_x_edges config) = Z.to_nat (num_bins config) /\
  forall state : WaterfallState K C,
    (0 < waterfall_height config)%nat ->
    exists state',
      init_fig config state = Ok state' /\
      length (freq_bins state') = Z.to_nat (num_bins config) /\
      Forall (fun row => length row = Z.to_nat (num_bins config)) (db_data state') /\
      Forall (fun row => length row = Z.to_nat (num_bins config)) (freq_data state').
Proof.
  intros Hlt Hres.
  assert (Hq : (0 <= (max_freq config - min_freq config) / freq_resolution config)%Q)
    by (apply Qdiv_nonneg; lra).
  assert (Hn : num_bins config
    = spec_num_bins (min_freq config) (max_freq config) (freq_resolution config)).
  { unfold num_bins, spec_num_bins. rewrite py_int_nonneg by lra.
    apply (Qfloor_add_Z _ 1). }
  split; [exact Hn|]. split.
  { unfold psd_x_edges. apply length_linspace. }
  intros state Hheight. unfold init_fig.
  assert (Hpos : (0 <= num_bins config)%Z).
  { rewrite Hn. unfold spec_num_bins.
    pose proof (Qfloor_resp_le _ _ Hq) as Hf. change (Qfloor 0) with 0%Z in Hf. lia. }
  destruct (num_bins config <? 0)%Z eqn:E; [apply Z.ltb_lt in E; lia|].
  destruct (waterfall_height config =? 0)%nat eqn:E0; [apply Nat.eqb_eq in E0; lia|].
  eexists. split; [reflexivity|]. simpl.
  unfold psd_x_edges. rewrite length_linspace.
  repeat split; apply Forall_replicate, length_replicate.
Qed.

(** [init_fig] leaves [waterfall_height] rows in both matrices. *)
Lemma init_fig_rows {K C : Type} `{Countable K} (config : WaterfallConfig)
    (state state' : WaterfallState K C) :
  init_fig config state = Ok state' ->
  length (db_data state') = waterfall_height config /\
  length (freq_data state') = waterfall_height config.
Proof.
  unfold init_fig.
  destruct (num_bins config <? 0)%Z; [discriminate|].
  destruct (waterfall_height config =? 0)%nat; [discriminate|].
  intros E. injection E as <-. cbn [db_data freq_data].
  split; apply length_replicate.
Qed.

(** The spec's example: 100 to 110 in steps of 0.1 gives 101 bins, and
    a matrix of 100 rows of 101 columns. *)
Lemma num_bins_formula_witness :
  (min_freq example_config < max_freq example_config)%Q /\
  (0 < freq_resolution example_config)%Q /\
  num_bins example_config = 101%Z /\
  length (psd_x_edges example_config) = 101%nat /\
  exists state',
    init_fig example_config (WaterfallState_init (K:=Z) (C:=string)) = Ok state' /\
    length (db_data state') = 100%nat /\
    Forall (fun row => length row = 101%nat) (db_data state').
Proof.
  assert (H1 : (min_freq example_config < max_freq example_config)%Q) by reflexivity.
  assert (H2 : (0 < freq_resolution example_config)%Q) by reflexivity.
  destruct (num_bins_formula (K := Z) (C := string) example_config H1 H2)
    as (E1 & E2 & Hinit).
  assert (E101 : num_bins example_config = 101%Z) by (rewrite E1; reflexivity).
  split; [exact H1|]. split; [exact H2|]. split; [exact E101|].
  split; [rewrite E2, E101; reflexivity|].
  destruct (Hinit WaterfallState_init) as (state' & Einit & _ & Hcols & _).
  { simpl. lia. }
  exists state'. split; [exact Einit|]. rewrite E101 in Hcols.
  split; [|exact Hcols].
  exact (proj1 (init_fig_rows example_config WaterfallState_init state' Einit)).
Defined.

(** ** The frequency-to-bin mapping *)

Lemma freq_idx_mono (config : WaterfallConfig) (f1 f2 : Q) :
  (0 < freq_resolution config)%Q -> (f1 <= f2)%Q ->
  (freq_idx config f1 <= freq_idx config f2)%Z.
Proof.
  intros Hres Hf. unfold freq_idx. apply np_round_mono.
  unfold Qdiv. apply Qmult_le_compat_r; [lra|].
  apply Qlt_le_weak, Qinv_lt_0_compat, Hres.
Qed.

Lemma freq_idx_requantize (config : WaterfallConfig) (m : Z) (f : Q) :
  (0 < freq_resolution config)%Q ->
  min_freq config == inject_Z m * freq_resolution config ->
  Z.even m = true \/
    ~ (f / freq_resolution config
         - inject_Z (Qfloor (f / freq_resolution config)) == 1 # 2) ->
  freq_idx config f = freq_idx config (quantized_freq config f).
Proof.
  intros Hres Hmin Hm. unfold freq_idx, quantized_freq.
  set (r := freq_resolution config) in *.
  assert (Hr : ~ r == 0) by lra.
  rewrite (np_round_comp ((f - min_freq config) / r) (f / r - inject_Z m)).
  2:{ rewrite Hmin. field. exact Hr. }
  rewrite np_round_sub_Z by exact Hm.
  rewrite (np_round_comp ((inject_Z (np_round (f / r)) * r - min_freq config) / r)
             (inject_Z (np_round (f / r) - m))).
  2:{ rewrite Hmin. unfold Zminus. rewrite inject_Z_plus, inject_Z_opp. field. exact Hr. }
  rewrite np_round_Z. reflexivity.
Qed.

(** C10, as stated, fails: with 1 to 10 MHz in steps of 1 MHz the
    in-range frequency 2.5 falls in bin 2, while its quantized frequency
    2 falls in bin 1. *)
Lemma freq_idx_requantize_counterexample :
  (min_freq unit_step_config <= 5 # 2)%Q /\
  (5 # 2 <= max_freq unit_step_config)%Q /\
  freq_idx unit_step_config (5 # 2) = 2%Z /\
  freq_idx unit_step_config (quantized_freq unit_step_config (5 # 2)) = 1%Z /\
  freq_idx unit_step_config (5 # 2)
    <> freq_idx unit_step_config (quantized_freq unit_step_config (5 # 2)).
Proof.
  repeat split; try (vm_compute; congruence).
Qed.

(** C10, amended.  With a positive resolution the mapping is monotonic
    non-decreasing; and when [min_freq] is an integer multiple [m] of the
    resolution, a frequency and its quantized frequency fall in the same
    bin provided [m] is even or [f / resolution] is not exactly half-way
    between two integers. *)
Theorem freq_idx_monotonic_requantize (config : WaterfallConfig) :
  (0 < freq_resolution config)%Q ->
  (forall f1 f2 : Q,
      (f1 <= f2)%Q -> (freq_idx config f1 <= freq_idx config f2)%Z) /\
  (forall (m : Z) (f : Q),
      min_freq config == inject_Z m * freq_resolution config ->
      Z.even m = true \/
        ~ (f / freq_resolution config
             - inject_Z (Qfloor (f / freq_resolution config)) == 1 # 2) ->
      freq_idx config f = freq_idx config (quantized_freq config f)).
Proof.
  intros Hres. split.
  - intros f1 f2. apply freq_idx_mono, Hres.
  - intros m f. apply freq_idx_requantize, Hres.
Qed.

(** In the spec's configuration, where [min_freq] is 1000 resolution
    steps: 105 and 105.1 are mapped in order, and 105.04 keeps its bin
    when quantized. *)
Lemma freq_idx_monotonic_requantize_witness :
  (0 < freq_resolution example_config)%Q /\
  (freq_idx example_config 105 <= freq_idx example_config (1051 # 10))%Z /\
  freq_idx example_config (10504 # 100)
    = freq_idx example_config (quantized_freq example_config (10504 # 100)).
Proof.
  assert (Hres : (0 < freq_resolution example_config)%Q) by reflexivity.
  destruct (freq_idx_monotonic_requantize example_config Hres) as [Hmono Hq].
  split; [exact Hres|]. split.
  - apply Hmono. vm_compute. congruence.
  - apply (Hq 1000%Z).
    + reflexivity.
    + left. reflexivity.
Defined.

(** ** PSD normalisation *)

Lemma foldl_np_maximum_upper (l : list npfloat) (a m : Q) :
  Forall count_cell l ->
  foldl np_maximum (Fin a) l = Fin m ->
  (a <= m)%Q /\ Forall (fun x => exists q, x = Fin q /\ (q <= m)%Q) l.
Proof.
  revert a. induction l as [|x l IH]; intros a Hall Hm; simpl in Hm.
  - injection Hm as <-. split; [lra|constructor].
  - apply Forall_cons in Hall as [(q & -> & Hq) Hall]. simpl in Hm.
    destruct (Qle_bool a q) eqn:E.
    + apply Qle_bool_iff in E. destruct (IH _ Hall Hm) as [Hqm Hrest].
      split; [lra|]. constructor; [exists q; split; [reflexivity|lra]|exact Hrest].
    + destruct (IH _ Hall Hm) as [Ham Hrest].
      assert (Hqa : (q <= a)%Q).
      { destruct (Qlt_le_dec a q) as [Hlt|Hle]; [|exact Hle].
        apply Qlt_le_weak, Qle_bool_iff in Hlt. congruence. }
      split; [exact Ham|]. constructor; [exists q; split; [reflexivity|lra]|exact Hrest].
Qed.

Lemma np_max_upper (l : list npfloat) (m : Q) :
  Forall count_cell l -> np_max l = Ok (Fin m) ->
  Forall (fun x => exists q, x = Fin q /\ (0 <= q <= m)%Q) l.
Proof.
  intros Hall Hm. destruct l as [|x l]; [constructor|].
  simpl in Hm. injection Hm as Hm.
  apply Forall_cons in Hall as Hall'. destruct Hall' as [(a & -> & Ha) Hrest].
  destruct (foldl_np_maximum_upper l a m Hrest Hm) as [Ham Hup].
  constructor; [exists a; split; [reflexivity|lra]|].
  rewrite Forall_forall in Hup, Hrest |- *. intros x Hx.
  destruct (Hup x Hx) as (q & -> & Hq). destruct (Hrest _ Hx) as (q' & Eq & Hq').
  injection Eq as <-. exists q. split; [reflexivity|lra].
Qed.

Lemma Forall_concat {A} (P : A -> Prop) (ls : list (list A)) :
  Forall (Forall P) ls -> Forall P (concat ls).
Proof.
  induction 1 as [|l ls Hl _ IH]; simpl; [constructor|].
  apply Forall_app. auto.
Qed.

Lemma map_map_ext_Forall {A B} (f g : A -> B) (P : A -> Prop) (ls : list (list A)) :
  (forall x, P x -> f x = g x) ->
  Forall P (concat ls) ->
  map (map f) ls = map (map g) ls.
Proof.
  intros Hfg. induction ls as [|l ls IH]; intros Hall; [reflexivity|].
  simpl in Hall. apply Forall_app in Hall as [Hl Hls]. simpl.
  f_equal; [|apply IH, Hls].
  induction Hl as [|x l Hx _ IHl]; [reflexivity|]. simpl. rewrite Hfg by exact Hx.
  f_equal. exact IHl.
Qed.

(** C2, amended.  The smoothed count grid is divided by its global
    maximum with no guard.  When that maximum is 0 the result is the
    all-NaN grid of the same shape (each cell is 0/0), and nothing fails;
    when it is not 0 each cell is divided by it. *)
Theorem normalize_zero_max_is_nan (heatmap : list (list npfloat)) (m : Q) :
  Forall (Forall count_cell) heatmap ->
  np_max (concat heatmap) = Ok (Fin m) ->
  (m == 0 -> normalize heatmap = Ok (map (map (fun _ => NaN)) heatmap)) /\
  (~ m == 0 ->
   normalize heatmap
   = Ok (map (map (fun x => match x with Fin q => Fin (q / m) | _ => x end)) heatmap)).
Proof.
  intros Hall Hmax.
  pose proof (np_max_upper _ _ (Forall_concat _ _ Hall) Hmax) as Hup.
  unfold normalize. rewrite Hmax. simpl. split; intros Hm; f_equal;
    (eapply map_map_ext_Forall; [|exact Hup]); intros x (q & -> & Hq); simpl.
  - assert (E1 : Qeq_bool m 0 = true) by (apply Qeq_bool_iff, Hm).
    assert (E2 : Qeq_bool q 0 = true) by (apply Qeq_bool_iff; lra).
    rewrite E1, E2. reflexivity.
  - destruct (Qeq_bool m 0) eqn:E; [apply Qeq_bool_iff in E; contradiction|reflexivity].
Qed.

(** C2, as stated, fails: the all-zero grid has maximum 0 and normalises
    to the all-NaN grid, not to the zero grid a guard would leave. *)
Lemma normalize_zero_grid_counterexample :
  np_max (concat zero_grid) = Ok (Fin 0) /\
  normalize zero_grid = Ok [[NaN; NaN]; [NaN; NaN]] /\
  spec_normalize zero_grid = Ok zero_grid /\
  normalize zero_grid <> Ok zero_grid.
Proof. repeat split; discriminate. Qed.

(** The all-zero grid normalises to the all-NaN grid. *)
Lemma normalize_zero_max_is_nan_witness :
  Forall (Forall count_cell) zero_grid /\
  np_max (concat zero_grid) = Ok (Fin 0) /\
  normalize zero_grid = Ok (map (map (fun _ => NaN)) zero_grid).
Proof.
  assert (H1 : Forall (Forall count_cell) zero_grid).
  { repeat constructor; exists 0%Q; split; (reflexivity || discriminate). }
  assert (H2 : np_max (concat zero_grid) = Ok (Fin 0)) by reflexivity.
  split; [exact H1|]. split; [exact H2|].
  apply (normalize_zero_max_is_nan zero_grid 0 H1 H2). reflexivity.
Defined.

(** ** The rolling matrices *)

Lemma update_last_row_snoc {A} (f : A -> result A) (a : list A) (r : A) :
  update_last_row f (a ++ [r]) = rbind (f r) (fun r' => Ok (a ++ [r'])).
Proof.
  unfold update_last_row. rewrite last_snoc, removelast_last. reflexivity.
Qed.

(** Rolling, clearing and writing amounts to dropping the first row and
    appending the new one. *)
Lemma ingest_row_cons (r0 : list npfloat) (rest : list (list npfloat))
    (idx : list Z) (vals : list npfloat) :
  ingest_row (r0 :: rest) idx vals
  = rbind (scatter (replicate (length r0) NaN) idx vals)
          (fun row => Ok (rest ++ [row])).
Proof.
  unfold ingest_row. simpl np_roll_up.
  rewrite update_last_row_snoc. simpl. rewrite update_last_row_snoc. reflexivity.
Qed.

Lemma np_index_Some (n : nat) (i : Z) (k : nat) : np_index n i = Some k -> (k < n)%nat.
Proof.
  unfold np_index. intros Hk.
  destruct ((0 <=? i) && (i <? Z.of_nat n))%Z eqn:E1.
  - apply andb_true_iff in E1 as [H1 H2]. injection Hk as <-. lia.
  - destruct ((- Z.of_nat n <=? i) && (i <? 0))%Z eqn:E2; [|discriminate].
    apply andb_true_iff in E2 as [H1 H2]. injection Hk as <-. lia.
Qed.

Lemma np_index_in_range (n : nat) (i : Z) :
  (0 <= i < Z.of_nat n)%Z -> np_index n i = Some (Z.to_nat i).
Proof.
  intros Hi. unfold np_index.
  destruct ((0 <=? i) && (i <? Z.of_nat n))%Z eqn:E1; [reflexivity|].
  apply andb_false_iff in E1 as [E|E]; lia.
Qed.

Lemma scatter_length (row : list npfloat) idx vals row' :
  scatter row idx vals = Ok row' -> length row' = length row.
Proof.
  revert row vals. induction idx as [|i idx IH]; intros row vals Hs.
  - simpl in Hs. destruct vals; injection Hs as <-; reflexivity.
  - destruct vals as [|v vals]; simpl in Hs; [injection Hs as <-; reflexivity|].
    destruct (np_index (length row) i); [|discriminate].
    apply IH in Hs. rewrite Hs. apply length_insert.
Qed.

(** Writing succeeds when every index is a bin of the row. *)
Lemma scatter_in_range (row : list npfloat) idx vals :
  Forall (fun i => (0 <= i < Z.of_nat (length row))%Z) idx ->
  exists row', scatter row idx vals = Ok row'.
Proof.
  revert row vals. induction idx as [|i idx IH]; intros row vals Hf.
  - exists row. destruct vals; reflexivity.
  - destruct vals as [|v vals]; [exists row; reflexivity|].
    inversion Hf as [|? ? Hi Hrest]; subst. simpl.
    rewrite (np_index_in_range _ _ Hi).
    apply IH. rewrite length_insert. exact Hrest.
Qed.

Section LoopFacts.
Context {K C : Type} `{Countable K}.
Implicit Types (state : WaterfallState K C) (scan_df : list (sample K)).

Lemma is_ingested_kept config (r : C * list (sample K)) :
  is_ingested config r = true <-> kept config (snd r) <> [].
Proof. unfold is_ingested. destruct (kept config (snd r)); split; congruence. Qed.

Lemma process_batch_skipped config save_path state scan_configs scan_df :
  kept config scan_df = [] ->
  process_batch config save_path state scan_configs scan_df
  = Ok (state, [OutsideRange (min_freq config) (max_freq config)]).
Proof.
  intros Hk. unfold process_batch. fold (kept config scan_df). rewrite Hk. reflexivity.
Qed.

Lemma process_batch_ingested config save_path state scan_configs scan_df state' log :
  kept config scan_df <> [] ->
  process_batch config save_path state scan_configs scan_df = Ok (state', log) ->
  exists r0 rest q0 qrest db_row freq_row,
    db_data state = r0 :: rest /\
    freq_data state = q0 :: qrest /\
    db_row_of config (length r0) scan_df = Ok db_row /\
    freq_row_of config (length q0) scan_df = Ok freq_row /\
    db_data state' = rest ++ [db_row] /\
    freq_data state' = qrest ++ [freq_row] /\
    log = [].
Proof.
  intros Hk. unfold process_batch. fold (kept config scan_df).
  destruct (last (kept config scan_df)) as [s|] eqn:El.
  2:{ apply last_None in El. contradiction. }
  fold (batch_idx config scan_df).
  destruct (freq_data state) as [|q0 qrest]; [discriminate|].
  rewrite ingest_row_cons. fold (freq_row_of config (length q0) scan_df).
  destruct (freq_row_of config (length q0) scan_df) as [freq_row|] eqn:Ef; [|discriminate].
  simpl rbind at 1.
  destruct (db_data state) as [|r0 rest]; [discriminate|].
  rewrite ingest_row_cons. fold (db_row_of config (length r0) scan_df).
  destruct (db_row_of config (length r0) scan_df) as [db_row|] eqn:Ed; [|discriminate].
  simpl rbind at 1.
  destruct (evict_oldest _ _ _ _) as [[times history]|]; [|discriminate].
  simpl. intros Hok. injection Hok as <- <-.
  exists r0, rest, q0, qrest, db_row, freq_row. simpl.
  repeat split; reflexivity || assumption.
Qed.

(** Over a run, the matrices hold the rows of the ingested batches in
    arrival order behind what is left of the initial rows. *)
Lemma process_batches_fifo config save_path results :
  forall state state' log width,
  Forall (fun row => length row = width) (db_data state) ->
  Forall (fun row => length row = width) (freq_data state) ->
  process_batches config save_path state results = Ok (state', log) ->
  exists db_rows freq_rows,
    Forall2 (fun r row => db_row_of config width (snd r) = Ok row)
      (filter (fun r => is_ingested config r = true) results) db_rows /\
    Forall2 (fun r row => freq_row_of config width (snd r) = Ok row)
      (filter (fun r => is_ingested config r = true) results) freq_rows /\
    db_data state' = drop (length db_rows) (db_data state ++ db_rows) /\
    freq_data state' = drop (length freq_rows) (freq_data state ++ freq_rows) /\
    length (db_data state') = length (db_data state) /\
    length (freq_data state') = length (freq_data state).
Proof.
  induction results as [|[scan_configs scan_df] results IH];
    intros state state' log width Hdb Hfreq Hrun.
  - injection Hrun as <- <-. exists [], []. rewrite !app_nil_r.
    repeat split; constructor.
  - simpl in Hrun.
    destruct (process_batch config save_path state scan_configs scan_df)
      as [[state1 log1]|] eqn:Estep; [|discriminate].
    simpl in Hrun.
    destruct (process_batches config save_path state1 results)
      as [[state2 log2]|] eqn:Erest; [|discriminate].
    injection Hrun as <- <-.
    destruct (kept config scan_df) as [|s0 ks] eqn:Ek.
    + rewrite process_batch_skipped in Estep by exact Ek.
      injection Estep as <- <-.
      rewrite filter_cons_False.
      2:{ rewrite is_ingested_kept. simpl. rewrite Ek. tauto. }
      eapply IH; eassumption.
    + assert (Hne : kept config scan_df <> []) by (rewrite Ek; discriminate).
      destruct (process_batch_ingested _ _ _ _ _ _ _ Hne Estep)
        as (r0 & rest & q0 & qrest & db_row & freq_row
            & Edb & Efreq & Hdrow & Hfrow & Edb1 & Efreq1 & _).
      rewrite Edb in Hdb. rewrite Efreq in Hfreq.
      apply Forall_cons in Hdb as [Hr0 Hrest].
      apply Forall_cons in Hfreq as [Hq0 Hqrest].
      rewrite Hr0 in Hdrow. rewrite Hq0 in Hfrow.
      assert (Hw1 : Forall (fun row => length row = width) (db_data state1)).
      { rewrite Edb1. apply Forall_app. split; [exact Hrest|].
        constructor; [|constructor].
        rewrite (scatter_length _ _ _ _ Hdrow). apply length_replicate. }
      assert (Hw2 : Forall (fun row => length row = width) (freq_data state1)).
      { rewrite Efreq1. apply Forall_app. split; [exact Hqrest|].
        constructor; [|constructor].
        rewrite (scatter_length _ _ _ _ Hfrow). apply length_replicate. }
      destruct (IH _ _ _ _ Hw1 Hw2 Erest)
        as (db_rows & freq_rows & F1 & F2 & E1 & E2 & L1 & L2).
      exists (db_row :: db_rows), (freq_row :: freq_rows).
      rewrite filter_cons_True.
      2:{ rewrite is_ingested_kept. simpl. exact Hne. }
      split; [constructor; assumption|].
      split; [constructor; assumption|].
      rewrite Edb, Efreq. simpl.
      split; [rewrite E1, Edb1, <- app_assoc; reflexivity|].
      split; [rewrite E2, Efreq1, <- app_assoc; reflexivity|].
      rewrite L1, L2, Edb1, Efreq1, !length_app. simpl. lia.
Qed.

(** C5. From matrices of [waterfall_height] rows of one width, any run
    of batches that completes leaves both matrices with exactly
    [waterfall_height] rows: each ingested batch has dropped the row at
    index 0 and appended its own row (an all-NaN row with its in-range
    samples written into it), so the rows are what is left of the
    initial rows followed by the rows of the ingested batches in arrival
    order. *)
Theorem waterfall_rows_fifo config save_path results state state' log width :
  length (db_data state) = waterfall_height config ->
  length (freq_data state) = waterfall_height config ->
  Forall (fun row => length row = width) (db_data state) ->
  Forall (fun row => length row = width) (freq_data state) ->
  process_batches config save_path state results = Ok (state', log) ->
  exists db_rows freq_rows,
    Forall2 (fun r row => db_row_of config width (snd r) = Ok row)
      (filter (fun r => is_ingested config r = true) results) db_rows /\
    Forall2 (fun r row => freq_row_of config width (snd r) = Ok row)
      (filter (fun r => is_ingested config r = true) results) freq_rows /\
    db_data state' = drop (length db_rows) (db_data state ++ db_rows) /\
    freq_data state' = drop (length freq_rows) (freq_data state ++ freq_rows) /\
    length (db_data state') = waterfall_height config /\
    length (freq_data state') = waterfall_height config.
Proof.
  intros Hh1 Hh2 Hw1 Hw2 Hrun.
  destruct (process_batches_fifo _ _ _ _ _ _ _ Hw1 Hw2 Hrun)
    as (db_rows & freq_rows & F1 & F2 & E1 & E2 & L1 & L2).
  exists db_rows, freq_rows. rewrite <- Hh1 at 1. rewrite <- Hh2. auto 10.
Qed.

(** One ingested batch, step by step: the first row goes, the others
    move toward index 0 in order, and the batch's row is the new last
    row; this succeeds whenever the matrix has a row and the bins of the
    batch exist. *)
Lemma ingest_row_evicts_oldest (r0 : list npfloat) (rest : list (list npfloat))
    (idx : list Z) (vals : list npfloat) :
  Forall (fun i => (0 <= i < Z.of_nat (length r0))%Z) idx ->
  exists row,
    scatter (replicate (length r0) NaN) idx vals = Ok row /\
    ingest_row (r0 :: rest) idx vals = Ok (rest ++ [row]).
Proof.
  intros Hidx.
  destruct (scatter_in_range (replicate (length r0) NaN) idx vals) as [row Hrow].
  { rewrite length_replicate. exact Hidx. }
  exists row. split; [exact Hrow|].
  rewrite ingest_row_cons, Hrow. reflexivity.
Qed.

(** C8. A batch whose samples are all out of range is skipped: the state
    is returned unchanged with one diagnostic, and nothing fails.  A
    sample out of range is dropped before the bins are computed:
    wherever it stands in a batch, the batch is processed as if it were
    not there.  Out of range means below [min_freq] or above
    [max_freq]. *)
Theorem out_of_range_dropped config save_path state scan_configs :
  (forall scan_df,
      Forall (fun s => (freq s < min_freq config)%Q \/ (max_freq config < freq s)%Q) scan_df ->
      process_batch config save_path state scan_configs scan_df
      = Ok (state, [OutsideRange (min_freq config) (max_freq config)])) /\
  (forall before s after,
      (freq s < min_freq config)%Q \/ (max_freq config < freq s)%Q ->
      process_batch config save_path state scan_configs (before ++ s :: after)
      = process_batch config save_path state scan_configs (before ++ after)).
Proof.
  assert (Hout : forall s : sample K,
             (freq s < min_freq config)%Q \/ (max_freq config < freq s)%Q ->
             in_range config s <> true).
  { intros s Hs Hin. unfold in_range in Hin.
    apply andb_true_iff in Hin as [H1 H2].
    apply Qle_bool_iff in H1, H2. lra. }
  split.
  - intros scan_df Hall. apply process_batch_skipped.
    unfold kept. induction Hall as [|s l Hs _ IH]; [reflexivity|].
    rewrite filter_cons_False by (apply Hout, Hs). exact IH.
  - intros before s after Hs. unfold process_batch.
    rewrite !filter_app, filter_cons_False by (apply Hout, Hs). reflexivity.
Qed.
End LoopFacts.

(** ** The containment filter *)

Lemma Qltb_lt (a b : Q) : Qltb a b = true <-> (a < b)%Q.
Proof.
  unfold Qltb. rewrite negb_true_iff. split.
  - intros E. destruct (Qlt_le_dec a b) as [Hlt|Hle]; [exact Hlt|].
    apply Qle_bool_iff in Hle. congruence.
  - intros Hlt. destruct (Qle_bool b a) eqn:E; [|reflexivity].
    apply Qle_bool_iff in E. lra.
Qed.

Lemma nestedb_spec (a b : Q * Q) :
  nestedb a b = true <-> (fst b < fst a)%Q /\ (snd a < snd b)%Q.
Proof. unfold nestedb. rewrite andb_true_iff, !Qltb_lt. reflexivity. Qed.

Lemma nestedb_irrefl (a : Q * Q) : nestedb a a = false.
Proof.
  destruct (nestedb a a) eqn:E; [|reflexivity].
  apply nestedb_spec in E as [E _]. lra.
Qed.

Lemma nestedb_trans (a b c : Q * Q) :
  nestedb a b = true -> nestedb b c = true -> nestedb a c = true.
Proof. rewrite !nestedb_spec. intros [? ?] [? ?]. split; lra. Qed.

Lemma existsb_nested_True (a : Q * Q) (l : list (Q * Q)) :
  existsb (nestedb a) l = true <-> exists b, b ∈ l /\ nestedb a b = true.
Proof.
  rewrite existsb_exists. split; intros (b & Hb & Hn); exists b;
    (split; [apply list_elem_of_In, Hb | exact Hn]).
Qed.

Lemma select_length_le {A} (mask : list bool) (a : list A) :
  length (select mask a) <= length a.
Proof.
  revert a. induction mask as [|b mask IH]; intros [|x a]; simpl; try lia.
  destruct b; simpl; specialize (IH a); lia.
Qed.

Lemma select_elem_of {A} (mask : list bool) (a : list A) (x : A) :
  x ∈ select mask a -> x ∈ a.
Proof.
  revert a. induction mask as [|b mask IH]; intros [|y a]; simpl;
    try (intros Hx; apply elem_of_nil in Hx; contradiction).
  destruct b.
  - intros Hx. apply elem_of_cons in Hx as [->|Hx]; apply elem_of_cons; auto.
  - intros Hx. apply elem_of_cons. auto.
Qed.

Lemma select_map_filter {A} (f : A -> bool) (a : list A) :
  select (map f a) a = filter (fun x => f x = true) a.
Proof.
  induction a as [|x a IH]; [reflexivity|]. simpl.
  destruct (f x) eqn:E.
  - rewrite filter_cons_True by exact E. f_equal. exact IH.
  - rewrite filter_cons_False by congruence. exact IH.
Qed.

Section MaskFacts.
Variable all : list (Q * Q).

Lemma loop_mask_inv (rpre : list (Q * Q)) :
  forall suf mask,
    mask_inv all rpre suf mask -> loop_mask rpre suf mask = map (stays all) all.
Proof.
  induction rpre as [|x rpre IH]; intros suf mask (Eall & Emask & Hdom).
  - simpl in Eall. simpl. rewrite Emask. f_equal. symmetry. exact Eall.
  - simpl. apply IH. clear IH.
    simpl in Eall. rewrite <- app_assoc in Eall. simpl in Eall.
    split; [exact Eall|].
    destruct (existsb (nestedb x) (rev rpre ++ select mask suf)) eqn:Ec; simpl.
    + (* x goes: something still there contains it *)
      apply existsb_nested_True in Ec as (c & Hc & Hxc).
      assert (Hstay : stays all x = false).
      { unfold stays. apply negb_false_iff, existsb_nested_True. exists c.
        split; [|exact Hxc]. rewrite Eall.
        apply elem_of_app in Hc as [Hc|Hc]; apply elem_of_app; [left; exact Hc|].
        right. apply elem_of_cons. right. eapply select_elem_of, Hc. }
      split; [rewrite Hstay, Emask; reflexivity|].
      intros y Hy. specialize (Hdom y Hy).
      apply existsb_nested_True in Hdom as (b & Hb & Hyb).
      apply existsb_nested_True.
      simpl in Hb. rewrite <- app_assoc in Hb. simpl in Hb.
      apply elem_of_app in Hb as [Hb|Hb].
      * exists b. split; [apply elem_of_app; left; exact Hb|exact Hyb].
      * apply elem_of_cons in Hb as [->|Hb].
        -- exists c. split; [exact Hc|]. eapply nestedb_trans; eassumption.
        -- exists b. split; [apply elem_of_app; right; exact Hb|exact Hyb].
    + (* x stays: nothing at all contains it *)
      assert (Hstay : stays all x = true).
      { unfold stays. apply negb_true_iff.
        destruct (existsb (nestedb x) all) eqn:Ex; [|reflexivity].
        specialize (Hdom x Ex).
        apply existsb_nested_True in Hdom as (b & Hb & Hxb).
        simpl in Hb. rewrite <- app_assoc in Hb. simpl in Hb.
        assert (Hb' : b ∈ rev rpre ++ select mask suf).
        { apply elem_of_app in Hb as [Hb|Hb]; [apply elem_of_app; left; exact Hb|].
          apply elem_of_cons in Hb as [->|Hb];
            [rewrite nestedb_irrefl in Hxb; discriminate|].
          apply elem_of_app. right. exact Hb. }
        assert (Et : existsb (nestedb x) (rev rpre ++ select mask suf) = true).
        { apply existsb_nested_True. exists b. auto. }
        congruence. }
      split; [rewrite Hstay, Emask; reflexivity|].
      intros y Hy. specialize (Hdom y Hy).
      simpl in Hdom. rewrite <- app_assoc in Hdom. exact Hdom.
Qed.
End MaskFacts.

Lemma loop_mask_spec (left right : list Q) :
  loop_mask (rev (zip left right)) [] [] = spec_keep_mask left right.
Proof.
  unfold spec_keep_mask.
  apply (loop_mask_inv (zip left right)). split; [|split].
  - rewrite rev_involutive, app_nil_r. reflexivity.
  - reflexivity.
  - intros y Hy. simpl. rewrite rev_involutive, app_nil_r. exact Hy.
Qed.

Lemma live_view_all {A} (a : list A) : live_view (length a) [] a = a.
Proof. unfold live_view. rewrite take_ge, drop_ge by lia. apply app_nil_r. Qed.

Lemma live_view_0 {A} (mask : list bool) (a : list A) : live_view 0 mask a = select mask a.
Proof. reflexivity. Qed.

Lemma live_view_keep {A} (i : nat) (mask : list bool) (a : list A) :
  i < length a -> live_view (S i) mask a = live_view i (true :: mask) a.
Proof.
  intros Hi. unfold live_view.
  destruct (lookup_lt_is_Some_2 a i Hi) as [x Hx].
  rewrite (take_S_r _ _ _ Hx), (drop_S _ _ _ Hx), <- app_assoc. reflexivity.
Qed.

Lemma live_view_drop {A} (i : nat) (mask : list bool) (a : list A) :
  i < length a -> delete i (live_view (S i) mask a) = live_view i (false :: mask) a.
Proof.
  intros Hi. unfold live_view.
  destruct (lookup_lt_is_Some_2 a i Hi) as [x Hx].
  rewrite (take_S_r _ _ _ Hx), (drop_S _ _ _ Hx), <- app_assoc. simpl.
  assert (Hl : length (take i a) = i) by (rewrite length_take; lia).
  rewrite <- Hl at 1. rewrite delete_middle. reflexivity.
Qed.

Lemma live_view_length_ge {A} (k : nat) (mask : list bool) (a : list A) :
  k <= length a -> k <= length (live_view k mask a).
Proof. intros Hk. unfold live_view. rewrite length_app, length_take. lia. Qed.

Lemma select_zip {A B} (mask : list bool) (a : list A) (b : list B) :
  zip (select mask a) (select mask b) = select mask (zip a b).
Proof.
  revert a b. induction mask as [|m mask IH]; intros [|x a] [|y b]; simpl;
    try reflexivity.
  - apply zip_with_nil_r.
  - destruct m; simpl; [f_equal|]; apply IH.
Qed.

Lemma live_view_zip {A B} (k : nat) (mask : list bool) (a : list A) (b : list B) :
  length a = length b ->
  zip (live_view k mask a) (live_view k mask b) = live_view k mask (zip a b).
Proof.
  intros Hlen. unfold live_view.
  rewrite zip_with_app by (rewrite !length_take; lia).
  rewrite zip_with_take, zip_with_drop, select_zip. reflexivity.
Qed.

Lemma contained_in_zip (props : properties) (left right : list Q) (i j : nat)
    (a b : Q * Q) :
  props !! "left_ips" = Some left ->
  props !! "right_ips" = Some right ->
  zip left right !! i = Some a ->
  zip left right !! j = Some b ->
  contained_in props i j = Ok (nestedb a b).
Proof.
  intros Hl Hr Ha Hb.
  apply lookup_zip_with_Some in Ha as (li & ri & -> & Hli & Hri).
  apply lookup_zip_with_Some in Hb as (lj & rj & -> & Hlj & Hrj).
  unfold contained_in, prop_at. rewrite Hl, Hr, Hli, Hlj. simpl.
  unfold nestedb. simpl. destruct (Qltb lj li); [|reflexivity].
  rewrite Hri, Hrj. reflexivity.
Qed.

Lemma find_container_app (props : properties) (i : nat) (js1 js2 : list nat) :
  find_container props i (js1 ++ js2)
  = rbind (find_container props i js1)
      (fun c => if c then Ok true else find_container props i js2).
Proof.
  induction js1 as [|j js1 IH]; simpl; [reflexivity|].
  destruct (i =? j)%nat; [exact IH|].
  destruct (contained_in props i j) as [[|]|]; simpl; [reflexivity|exact IH|reflexivity].
Qed.

(** Over a stretch of indices away from [i], the inner loop is [existsb]
    on the bounds found there. *)
Lemma find_container_segment (props : properties) (left right : list Q) (i : nat)
    (x : Q * Q) (seg : list (Q * Q)) :
  props !! "left_ips" = Some left ->
  props !! "right_ips" = Some right ->
  zip left right !! i = Some x ->
  forall s,
    (forall t, t < length seg -> zip left right !! (s + t) = seg !! t) ->
    (i < s \/ s + length seg <= i) ->
    find_container props i (seq s (length seg)) = Ok (existsb (nestedb x) seg).
Proof.
  intros Hl Hr Hx. induction seg as [|b seg IH]; intros s Hseg Hi; [reflexivity|].
  simpl. destruct (i =? s)%nat eqn:E; [apply Nat.eqb_eq in E; simpl in Hi; lia|].
  assert (Hb : zip left right !! s = Some b).
  { specialize (Hseg 0). simpl in Hseg. rewrite Nat.add_0_r in Hseg. apply Hseg. lia. }
  rewrite (contained_in_zip _ _ _ _ _ _ _ Hl Hr Hx Hb). simpl.
  destruct (nestedb x b); [reflexivity|]. simpl. apply IH.
  - intros t Ht. specialize (Hseg (S t)). simpl in Hseg.
    rewrite <- Hseg by lia. f_equal. lia.
  - simpl in Hi. lia.
Qed.

Lemma find_container_split (props : properties) (left right : list Q)
    (pre post : list (Q * Q)) (x : Q * Q) :
  props !! "left_ips" = Some left ->
  props !! "right_ips" = Some right ->
  zip left right = pre ++ x :: post ->
  find_container props (length pre) (seq 0 (length (pre ++ x :: post)))
  = Ok (existsb (nestedb x) (pre ++ post)).
Proof.
  intros Hl Hr Hz.
  assert (Hx : zip left right !! length pre = Some x).
  { rewrite Hz. apply list_lookup_middle. reflexivity. }
  rewrite length_app. simpl length.
  rewrite seq_app. simpl seq. rewrite find_container_app.
  rewrite (find_container_segment props left right (length pre) x pre Hl Hr Hx 0).
  2:{ intros t Ht. simpl. rewrite Hz. apply lookup_app_l. exact Ht. }
  2:{ right. lia. }
  simpl. rewrite existsb_app.
  destruct (existsb (nestedb x) pre); [reflexivity|]. simpl.
  rewrite Nat.eqb_refl.
  apply (find_container_segment props left right (length pre) x post Hl Hr Hx).
  - intros t Ht. rewrite Hz.
    replace (S (length pre) + t) with (length pre + S t) by lia.
    rewrite lookup_app_r by lia. replace (length pre + S t - length pre) with (S t) by lia.
    reflexivity.
  - left. lia.
Qed.

Lemma select_length_eq {A B} (mask : list bool) (a : list A) (b : list B) :
  length a = length b -> length (select mask a) = length (select mask b).
Proof.
  revert a b. induction mask as [|m mask IH]; intros [|x a] [|y b] Hlen;
    simpl in *; try reflexivity; try discriminate.
  destruct m; simpl; [f_equal|]; apply IH; lia.
Qed.

Lemma live_view_length_eq {A B} (k : nat) (mask : list bool) (a : list A) (b : list B) :
  length a = length b -> length (live_view k mask a) = length (live_view k mask b).
Proof.
  intros Hlen. unfold live_view. rewrite !length_app, !length_take, Hlen.
  f_equal. apply select_length_eq. rewrite !length_drop. lia.
Qed.

Section Simulation.
Variables (peaks : list Z) (props : properties) (left right : list Q).
Hypothesis Hleft : props !! "left_ips" = Some left.
Hypothesis Hright : props !! "right_ips" = Some right.
Hypothesis Hshape : map_Forall (fun _ (a : list Q) => length a = length peaks) props.

Lemma left_length : length left = length peaks.
Proof. exact (Hshape _ _ Hleft). Qed.

Lemma right_length : length right = length peaks.
Proof. exact (Hshape _ _ Hright). Qed.

Lemma bounds_length : length (zip left right) = length peaks.
Proof. rewrite length_zip_with, left_length, right_length. lia. Qed.

Lemma delete_from_all_live (i : nat) (mask : list bool) :
  i < length peaks ->
  delete_from_all i (live_view (S i) mask <$> props)
  = Ok (live_view i (false :: mask) <$> props).
Proof.
  intros Hi. unfold delete_from_all.
  rewrite bool_decide_eq_true_2.
  - f_equal. rewrite <- map_fmap_compose. apply map_fmap_ext.
    intros k a Ha. simpl. apply live_view_drop. rewrite (Hshape _ _ Ha). exact Hi.
  - intros k a Ha. apply lookup_fmap_Some in Ha as (a0 & <- & Ha0).
    pose proof (live_view_length_ge (S i) mask a0) as Hge.
    rewrite (Hshape _ _ Ha0) in Hge. specialize (Hge Hi). lia.
Qed.

Lemma keep_all_live (i : nat) (mask : list bool) :
  i < length peaks ->
  live_view (S i) mask <$> props = live_view i (true :: mask) <$> props.
Proof.
  intros Hi. apply map_fmap_ext. intros k a Ha.
  apply live_view_keep. rewrite (Hshape _ _ Ha). exact Hi.
Qed.

Lemma find_container_live (i : nat) (mask : list bool) (x : Q * Q) :
  zip left right !! i = Some x ->
  find_container (live_view (S i) mask <$> props) i
    (seq 0 (length (live_view (S i) mask peaks)))
  = Ok (existsb (nestedb x)
          (take i (zip left right) ++ select mask (drop (S i) (zip left right)))).
Proof.
  intros Hx.
  assert (Hi : i < length peaks).
  { rewrite <- bounds_length. eapply lookup_lt_Some, Hx. }
  assert (Hz : zip (live_view (S i) mask left) (live_view (S i) mask right)
               = take i (zip left right) ++ x :: select mask (drop (S i) (zip left right))).
  { rewrite live_view_zip by (rewrite left_length, right_length; reflexivity).
    unfold live_view. rewrite (take_S_r _ _ _ Hx), <- app_assoc. reflexivity. }
  assert (Hlen : length (live_view (S i) mask peaks)
                 = length (take i (zip left right)
                           ++ x :: select mask (drop (S i) (zip left right)))).
  { rewrite <- Hz, live_view_zip by (rewrite left_length, right_length; reflexivity).
    apply live_view_length_eq. symmetry. apply bounds_length. }
  rewrite Hlen.
  assert (Hpre : length (take i (zip left right)) = i).
  { rewrite length_take, bounds_length. lia. }
  pose proof (find_container_split (live_view (S i) mask <$> props)
                (live_view (S i) mask left) (live_view (S i) mask right)
                (take i (zip left right)) (select mask (drop (S i) (zip left right))) x)
    as Hs.
  rewrite Hpre in Hs. apply Hs.
  - rewrite lookup_fmap, Hleft. reflexivity.
  - rewrite lookup_fmap, Hright. reflexivity.
  - exact Hz.
Qed.

Lemma filter_peaks_from_live (k : nat) :
  k <= length peaks ->
  forall mask,
    filter_peaks_from (rev (seq 0 k)) (live_view k mask peaks) (live_view k mask <$> props)
    = Ok (select (loop_mask (rev (take k (zip left right)))
                    (drop k (zip left right)) mask) peaks,
          select (loop_mask (rev (take k (zip left right)))
                    (drop k (zip left right)) mask) <$> props).
Proof.
  induction k as [|i IH]; intros Hk mask.
  - reflexivity.
  - assert (Hi : i < length peaks) by lia.
    destruct (lookup_lt_is_Some_2 (zip left right) i) as [x Hx];
      [rewrite bounds_length; exact Hi|].
    rewrite seq_S, rev_unit. simpl filter_peaks_from. simpl "+".
    rewrite (find_container_live i mask x Hx). simpl rbind.
    rewrite (take_S_r _ _ _ Hx), rev_unit. simpl loop_mask.
    rewrite rev_involutive, <- (drop_S _ _ _ Hx).
    destruct (existsb (nestedb x) _) eqn:Ec; simpl negb.
    + unfold np_delete.
      destruct (i <? length (live_view (S i) mask peaks))%nat eqn:El.
      2:{ apply Nat.ltb_ge in El.
          pose proof (live_view_length_ge (S i) mask peaks Hk). lia. }
      simpl rbind. rewrite (delete_from_all_live i mask Hi). simpl rbind.
      rewrite (live_view_drop i mask peaks Hi). apply IH. lia.
    + rewrite (keep_all_live i mask Hi), (live_view_keep i mask peaks Hi).
      apply IH. lia.
Qed.

Lemma filter_peaks_mask :
  filter_peaks peaks props
  = Ok (select (spec_keep_mask left right) peaks,
        select (spec_keep_mask left right) <$> props).
Proof.
  unfold filter_peaks.
  pose proof (filter_peaks_from_live (length peaks) (Nat.le_refl _) []) as Hsim.
  rewrite live_view_all in Hsim.
  assert (Eprops : live_view (length peaks) [] <$> props = props).
  { rewrite <- (map_fmap_id props) at 2. apply map_fmap_ext. intros k a Ha. simpl.
    rewrite <- (Hshape _ _ Ha). apply live_view_all. }
  rewrite Eprops in Hsim. rewrite Hsim.
  rewrite take_ge, drop_ge by (rewrite bounds_length; lia).
  rewrite loop_mask_spec. reflexivity.
Qed.
End Simulation.

Lemma nested_zip (left right : list Q) (i j : nat) :
  nested left right i j <->
  exists a b, zip left right !! i = Some a /\ zip left right !! j = Some b /\
              nestedb a b = true.
Proof.
  unfold nested. split.
  - intros (li & lj & ri & rj & Hli & Hlj & Hri & Hrj & H1 & H2).
    exists (li, ri), (lj, rj). repeat split.
    + apply lookup_zip_with_Some. eauto 10.
    + apply lookup_zip_with_Some. eauto 10.
    + apply nestedb_spec. simpl. auto.
  - intros (a & b & Ha & Hb & Hn).
    apply lookup_zip_with_Some in Ha as (li & ri & -> & Hli & Hri).
    apply lookup_zip_with_Some in Hb as (lj & rj & -> & Hlj & Hrj).
    apply nestedb_spec in Hn as [H1 H2]. simpl in *.
    exists li, lj, ri, rj. auto 10.
Qed.

Lemma spec_keep_mask_lookup (left right : list Q) (i : nat) (a : Q * Q) :
  zip left right !! i = Some a ->
  spec_keep_mask left right !! i = Some (negb (existsb (nestedb a) (zip left right))).
Proof.
  intros Ha. unfold spec_keep_mask. rewrite list_lookup_fmap, Ha. reflexivity.
Qed.

Lemma kept_iff_not_nested (left right : list Q) (i : nat) :
  i < length (zip left right) ->
  spec_keep_mask left right !! i = Some true <-> forall j, ~ nested left right i j.
Proof.
  intros Hi. destruct (lookup_lt_is_Some_2 _ _ Hi) as [a Ha].
  rewrite (spec_keep_mask_lookup _ _ _ _ Ha). split.
  - intros E j Hn. injection E as E. apply negb_true_iff in E.
    apply nested_zip in Hn as (a' & b & Ha' & Hb & Hn).
    rewrite Ha in Ha'. injection Ha' as <-.
    assert (Et : existsb (nestedb a) (zip left right) = true).
    { apply existsb_nested_True. exists b. split; [|exact Hn].
      eapply list_elem_of_lookup_2, Hb. }
    congruence.
  - intros Hnone. f_equal. apply negb_true_iff.
    destruct (existsb (nestedb a) (zip left right)) eqn:E; [|reflexivity].
    apply existsb_nested_True in E as (b & Hb & Hn).
    apply list_elem_of_lookup in Hb as [j Hj].
    exfalso. apply (Hnone j). apply nested_zip. eauto.
Qed.

Lemma nestedb_Qeq (a a' b : Q * Q) :
  fst a == fst a' -> snd a == snd a' -> nestedb a b = nestedb a' b.
Proof.
  intros H1 H2.
  destruct (nestedb a b) eqn:E, (nestedb a' b) eqn:E'; try reflexivity.
  - apply nestedb_spec in E as [E1 E2].
    assert (Et : nestedb a' b = true) by (apply nestedb_spec; split; lra). congruence.
  - apply nestedb_spec in E' as [E1 E2].
    assert (Et : nestedb a b = true) by (apply nestedb_spec; split; lra). congruence.
Qed.

Lemma same_bounds_same_fate (left right : list Q) (i j : nat) (li lj ri rj : Q) :
  left !! i = Some li -> left !! j = Some lj ->
  right !! i = Some ri -> right !! j = Some rj ->
  li == lj -> ri == rj ->
  spec_keep_mask left right !! i = spec_keep_mask left right !! j.
Proof.
  intros Hli Hlj Hri Hrj El Er.
  assert (Hi : zip left right !! i = Some (li, ri))
    by (apply lookup_zip_with_Some; eauto 10).
  assert (Hj : zip left right !! j = Some (lj, rj))
    by (apply lookup_zip_with_Some; eauto 10).
  rewrite (spec_keep_mask_lookup _ _ _ _ Hi), (spec_keep_mask_lookup _ _ _ _ Hj).
  do 2 f_equal. clear Hi Hj.
  induction (zip left right) as [|b l IH]; [reflexivity|]. simpl.
  rewrite IH. f_equal. apply nestedb_Qeq; assumption.
Qed.

Lemma select_keep_no_nesting (left right : list Q) :
  length left = length right ->
  forall i j,
    ~ nested (select (spec_keep_mask left right) left)
             (select (spec_keep_mask left right) right) i j.
Proof.
  intros Hlen i j Hn. apply nested_zip in Hn as (a & b & Ha & Hb & Hn).
  rewrite select_zip in Ha, Hb. unfold spec_keep_mask in Ha, Hb.
  rewrite select_map_filter in Ha, Hb.
  apply list_elem_of_lookup_2 in Ha, Hb.
  apply list_elem_of_filter in Ha as [Hstay _].
  apply list_elem_of_filter in Hb as [_ Hb].
  apply negb_true_iff in Hstay.
  assert (Et : existsb (nestedb a) (zip left right) = true).
  { apply existsb_nested_True. eauto. }
  congruence.
Qed.

(** C4. For candidates whose property arrays all have the length of
    [peaks], [filter_peaks] returns, and in what it returns no candidate
    lies strictly inside another.  What it keeps, in every array, are the
    candidates that no candidate of the input strictly contains; two
    candidates with identical bounds therefore share their fate, neither
    removes the other: both are kept unless a third one contains them. *)
Theorem filter_peaks_no_nesting (peaks : list Z) (props : properties) (left right : list Q) :
  props !! "left_ips" = Some left ->
  props !! "right_ips" = Some right ->
  map_Forall (fun _ (a : list Q) => length a = length peaks) props ->
  exists peaks' props' left' right',
    filter_peaks peaks props = Ok (peaks', props') /\
    props' !! "left_ips" = Some left' /\
    props' !! "right_ips" = Some right' /\
    (forall i j, ~ nested left' right' i j) /\
    peaks' = select (spec_keep_mask left right) peaks /\
    left' = select (spec_keep_mask left right) left /\
    right' = select (spec_keep_mask left right) right /\
    (forall i, i < length peaks ->
       (spec_keep_mask left right !! i = Some true <-> forall j, ~ nested left right i j)) /\
    (forall i j li lj ri rj,
       left !! i = Some li -> left !! j = Some lj ->
       right !! i = Some ri -> right !! j = Some rj ->
       li == lj -> ri == rj ->
       spec_keep_mask left right !! i = spec_keep_mask left right !! j).
Proof.
  intros Hleft Hright Hshape.
  pose proof (Hshape _ _ Hleft) as Hll. pose proof (Hshape _ _ Hright) as Hlr.
  simpl in Hll, Hlr.
  exists (select (spec_keep_mask left right) peaks),
         (select (spec_keep_mask left right) <$> props),
         (select (spec_keep_mask left right) left),
         (select (spec_keep_mask left right) right).
  split; [apply filter_peaks_mask; assumption|].
  split; [rewrite lookup_fmap, Hleft; reflexivity|].
  split; [rewrite lookup_fmap, Hright; reflexivity|].
  split; [apply select_keep_no_nesting; congruence|].
  do 3 (split; [reflexivity|]).
  split.
  - intros i Hi. apply kept_iff_not_nested.
    rewrite length_zip_with, Hll, Hlr. lia.
  - apply same_bounds_same_fate.
Qed.

(** Two candidates from 5 to 9 and one from 6 to 8: the two with the
    same bounds are both kept, the one inside them goes. *)
Lemma filter_peaks_no_nesting_witness :
  twin_props !! "left_ips" = Some [5; 5; 6]%Q /\
  twin_props !! "right_ips" = Some [9; 9; 8]%Q /\
  map_Forall (fun _ (a : list Q) => length a = length twin_peaks) twin_props /\
  exists peaks' props',
    filter_peaks twin_peaks twin_props = Ok (peaks', props') /\
    peaks' = [10; 11]%Z /\
    props' !! "left_ips" = Some [5; 5]%Q /\
    props' !! "right_ips" = Some [9; 9]%Q.
Proof.
  assert (H1 : twin_props !! "left_ips" = Some [5; 5; 6]%Q) by reflexivity.
  assert (H2 : twin_props !! "right_ips" = Some [9; 9; 8]%Q) by reflexivity.
  assert (H3 : map_Forall (fun _ (a : list Q) => length a = length twin_peaks) twin_props).
  { apply (bool_decide_eq_true_1 _). vm_compute. reflexivity. }
  split; [exact H1|]. split; [exact H2|]. split; [exact H3|].
  destruct (filter_peaks_no_nesting twin_peaks twin_props _ _ H1 H2 H3)
    as (peaks' & props' & left' & right' & Hf & Hl & Hr & _ & Ep & El & Er & _).
  exists peaks', props'. split; [exact Hf|].
  rewrite Hl, Hr, Ep, El, Er. repeat split.
Defined.

(** ** Persistence *)

Section PersistenceFacts.
Context {K C : Type} `{Countable K} `{EqDecision C}.
Variable str_of_time : K -> string.
Implicit Types (s : io_state (K:=K) (C:=C)) (op : fs_op (K:=K) (C:=C)).
Implicit Types (P : fs_op (K:=K) (C:=C) -> Prop).

Lemma config_writes_app (l1 l2 : list (fs_op (K:=K) (C:=C))) :
  config_writes (l1 ++ l2) = config_writes l1 + config_writes l2.
Proof. unfold config_writes. rewrite filter_app, length_app. reflexivity. Qed.

Lemma config_writes_snoc (l : list (fs_op (K:=K) (C:=C))) op :
  config_writes (l ++ [op]) = config_writes l + (if is_config_write op then 1 else 0).
Proof.
  rewrite config_writes_app. f_equal. unfold config_writes.
  destruct (is_config_write op) eqn:E.
  - rewrite filter_cons_True by exact E. reflexivity.
  - rewrite filter_cons_False by congruence. reflexivity.
Qed.

Lemma detection_row_is_row scan_time props edges detection_type i (row : item (K:=K) (C:=C)) :
  detection_row scan_time props edges detection_type i = Ok row ->
  exists a b d, row = CsvRow scan_time a b d detection_type.
Proof.
  unfold detection_row.
  destruct (prop_at props "left_ips" i) as [li|]; [|discriminate]. simpl.
  destruct (edge_at edges li) as [lo|]; [|discriminate]. simpl.
  destruct (prop_at props "right_ips" i) as [ri|]; [|discriminate]. simpl.
  destruct (edge_at edges ri) as [hi|]; [|discriminate]. simpl.
  destruct (prop_at props "peak_heights" i) as [d|]; [|discriminate]. simpl.
  intros Hr. injection Hr as <-. eauto.
Qed.

(** The loop over the peaks writes rows only. *)
Lemma rows_loop_config_writes scan_time props edges detection_type csv_path
    (l : list nat) s :
  config_writes
    (io_trace
       (snd (io_for l (fun i =>
               io_bind (io_lift (detection_row scan_time props edges detection_type i))
                 (fun row => do_op (Write csv_path [row]))) s)))
  = config_writes (io_trace s).
Proof.
  revert s. induction l as [|i l IH]; intros s; [reflexivity|].
  simpl. unfold io_bind at 1. unfold io_bind at 1. unfold io_lift.
  destruct (detection_row scan_time props edges detection_type i) as [row|] eqn:Er.
  - destruct (detection_row_is_row _ _ _ _ _ _ Er) as (a & b & d & ->).
    simpl. rewrite IH. simpl. rewrite config_writes_snoc. simpl. lia.
  - reflexivity.
Qed.

Lemma config_changed_spec (previous : option C) (scan_configs : C) :
  config_changed previous scan_configs
  = if decide (previous = Some scan_configs) then false else true.
Proof.
  unfold config_changed. destruct previous as [c|].
  - destruct (decide (Some c = Some scan_configs)) as [E|NE].
    + injection E as ->. rewrite bool_decide_eq_true_2; reflexivity.
    + rewrite bool_decide_eq_false_2; [reflexivity|congruence].
  - destruct (decide _); [discriminate|reflexivity].
Qed.

Lemma adds_bind_total {A B} (m : io (K:=K) (C:=C) A) (k : A -> io (K:=K) (C:=C) B) n p :
  total m -> adds m n -> (forall a, adds (k a) p) -> adds (io_bind m k) (n + p).
Proof.
  intros Ht Hm Hk s. unfold io_bind. specialize (Hm s).
  destruct (Ht s) as (a & s' & E). rewrite E in *. simpl in Hm.
  rewrite Hk, Hm. lia.
Qed.

Lemma adds_bind_neutral {A B} (m : io (K:=K) (C:=C) A) (k : A -> io (K:=K) (C:=C) B) :
  adds m 0 -> (forall a, adds (k a) 0) -> adds (io_bind m k) 0.
Proof.
  intros Hm Hk s. unfold io_bind. specialize (Hm s).
  destruct (m s) as [[a|e] s']; simpl in *; [rewrite Hk|]; lia.
Qed.

Lemma adds_ret {A} (a : A) : adds (K:=K) (C:=C) (io_ret a) 0.
Proof. intros s. simpl. lia. Qed.

Lemma adds_lift {A} (r : result A) : adds (K:=K) (C:=C) (io_lift r) 0.
Proof. intros s. simpl. lia. Qed.

Lemma adds_do_op op : adds (do_op op) (if is_config_write op then 1 else 0).
Proof. intros s. simpl. apply config_writes_snoc. Qed.

Lemma total_ret {A} (a : A) : total (K:=K) (C:=C) (io_ret a).
Proof. intros s. eexists _, _. reflexivity. Qed.

Lemma total_do_op op : total (do_op op).
Proof. intros s. eexists _, _. reflexivity. Qed.

Lemma total_when b (m : io (K:=K) (C:=C) unit) : total m -> total (io_when b m).
Proof. intros Hm. destruct b; [exact Hm | apply total_ret]. Qed.

Lemma total_bind {A B} (m : io (K:=K) (C:=C) A) (k : A -> io (K:=K) (C:=C) B) :
  total m -> (forall a, total (k a)) -> total (io_bind m k).
Proof.
  intros Hm Hk s. unfold io_bind. destruct (Hm s) as (a & s' & ->). apply Hk.
Qed.

Lemma total_dir_exists d : total (K:=K) (C:=C) (dir_exists d).
Proof. intros s. eexists _, _. reflexivity. Qed.

Lemma total_file_exists p : total (K:=K) (C:=C) (file_exists p).
Proof. intros s. eexists _, _. reflexivity. Qed.

Lemma adds_dir_exists d : adds (K:=K) (C:=C) (dir_exists d) 0.
Proof. intros s. simpl. lia. Qed.

Lemma adds_file_exists p : adds (K:=K) (C:=C) (file_exists p) 0.
Proof. intros s. simpl. lia. Qed.

Lemma adds_rows scan_time props edges detection_type csv_path (l : list nat) :
  adds (K:=K) (C:=C) (io_for l (fun i =>
          io_bind (io_lift (detection_row scan_time props edges detection_type i))
            (fun row => do_op (Write csv_path [row])))) 0.
Proof.
  intros s. rewrite rows_loop_config_writes. lia.
Qed.

Lemma save_detections_config_writes config (state : WaterfallState K C) save_path
    scan_time scan_configs peaks props edges detection_type s :
  config_writes
    (io_trace (snd (save_detections str_of_time config state save_path scan_time
                      scan_configs peaks props edges detection_type s)))
  = config_writes (io_trace s)
    + (if decide (previous_scan_config state = Some scan_configs) then 0 else 1).
Proof.
  revert s.
  change (adds (save_detections str_of_time config state save_path scan_time
                  scan_configs peaks props edges detection_type)
            (if decide (previous_scan_config state = Some scan_configs) then 0 else 1)).
  replace (if decide (previous_scan_config state = Some scan_configs) then 0 else 1)
    with (0 + (0 + ((if decide (previous_scan_config state = Some scan_configs)
                     then 0 else 1) + (0 + (0 + (0 + 0)))))) by lia.
  unfold save_detections. rewrite config_changed_spec.
  apply adds_bind_total; [apply total_dir_exists | apply adds_dir_exists | intros e].
  apply adds_bind_total; [apply total_when, total_do_op | | intros _].
  { destruct (negb e); [apply (adds_do_op (Makedirs _)) | apply adds_ret]. }
  apply adds_bind_total; [| | intros _].
  { apply total_when, total_bind; [apply total_do_op | intros _; apply total_do_op]. }
  { destruct (decide _); simpl; [apply adds_ret|].
    apply (adds_bind_total _ _ 0 1);
      [apply total_do_op | apply (adds_do_op (OpenWrite _)) | intros _].
    apply (adds_do_op (Write _ [JsonScanConfig _ _ _ _])). }
  apply adds_bind_total; [apply total_file_exists | apply adds_file_exists | intros e'].
  apply adds_bind_total; [| | intros _].
  { apply total_when, total_bind; [apply total_do_op | intros _; apply total_do_op]. }
  { destruct (negb e'); simpl; [|apply adds_ret].
    apply (adds_bind_total _ _ 0 0);
      [apply total_do_op | apply (adds_do_op (OpenWrite _)) | intros _].
    apply (adds_do_op (Write _ [CsvHeader])). }
  apply adds_bind_total;
    [apply total_do_op | apply (adds_do_op (OpenAppend _)) | intros _].
  apply adds_bind_neutral; [apply adds_rows | intros _; apply adds_ret].
Qed.

Lemma save_detections_previous config (state state' : WaterfallState K C) save_path
    scan_time scan_configs peaks props edges detection_type s s' :
  save_detections str_of_time config state save_path scan_time
    scan_configs peaks props edges detection_type s = (Ok state', s') ->
  previous_scan_config state' = Some scan_configs.
Proof.
  unfold save_detections. rewrite config_changed_spec.
  unfold io_bind, dir_exists, file_exists.
  repeat match goal with
         | |- context [match ?m ?x with _ => _ end] =>
             lazymatch m with
             | io_when _ _ => destruct (m x) as [[[]|?] ?]; try discriminate
             | do_op _ => destruct (m x) as [[[]|?] ?]; try discriminate
             | io_for _ _ => destruct (m x) as [[[]|?] ?]; try discriminate
             end
         end.
  unfold io_ret. intros E. injection E as <- _.
  destruct (decide _) as [E|NE]; [exact E | reflexivity].
Qed.

Lemma save_detections_seq_config_writes config save_path edges detection_type
    (calls : list (K * C * (list Z * properties))) :
  forall (state state' : WaterfallState K C) s s',
  save_detections_seq str_of_time config state save_path edges detection_type calls s
    = (Ok state', s') ->
  config_writes (io_trace s')
  = config_writes (io_trace s)
    + spec_config_writes (previous_scan_config state) (map (fun c => snd (fst c)) calls).
Proof.
  induction calls as [|[[scan_time scan_configs] [peaks props]] calls IH];
    intros state state' s s' Hrun.
  - injection Hrun as <- <-. simpl. lia.
  - simpl in Hrun. unfold io_bind in Hrun.
    pose proof (save_detections_config_writes config state save_path
                  scan_time scan_configs peaks props edges detection_type s) as Hw.
    destruct (save_detections str_of_time config state save_path scan_time scan_configs
                peaks props edges detection_type s) as [[state1|e] s1] eqn:Ecall;
      [|discriminate].
    apply save_detections_previous in Ecall.
    apply IH in Hrun. rewrite Hrun. simpl in Hw |- *. rewrite Hw, Ecall.
    destruct (decide (previous_scan_config state = Some scan_configs)) as [E|NE].
    + rewrite E. lia.
    + lia.
Qed.

Lemma spec_config_writes_AABBA (a b : C) :
  a <> b -> spec_config_writes None [a; a; b; b; a] = 3.
Proof.
  intros Hab. simpl.
  repeat (case_decide; simplify_eq); reflexivity.
Qed.

Lemma emits_ret {A} P (a : A) : emits (K:=K) (C:=C) P (io_ret a).
Proof. intros s. exists []. rewrite app_nil_r. split; [reflexivity|constructor]. Qed.

Lemma emits_lift {A} P (r : result A) : emits (K:=K) (C:=C) P (io_lift r).
Proof. intros s. exists []. rewrite app_nil_r. split; [reflexivity|constructor]. Qed.

Lemma emits_do_op P op : P op -> emits P (do_op op).
Proof. intros Hop s. exists [op]. split; [reflexivity|]. constructor; [exact Hop|constructor]. Qed.

Lemma emits_dir_exists P d : emits (K:=K) (C:=C) P (dir_exists d).
Proof. intros s. exists []. rewrite app_nil_r. split; [reflexivity|constructor]. Qed.

Lemma emits_file_exists P p : emits (K:=K) (C:=C) P (file_exists p).
Proof. intros s. exists []. rewrite app_nil_r. split; [reflexivity|constructor]. Qed.

Lemma emits_bind {A B} P (m : io (K:=K) (C:=C) A) (k : A -> io (K:=K) (C:=C) B) :
  emits P m -> (forall a, emits P (k a)) -> emits P (io_bind m k).
Proof.
  intros Hm Hk s. unfold io_bind. destruct (Hm s) as (ops & E & F).
  destruct (m s) as [[a|e] s1]; simpl in E.
  - destruct (Hk a s1) as (ops' & E' & F'). exists (ops ++ ops').
    rewrite E', E, app_assoc. split; [reflexivity|]. apply Forall_app. auto.
  - exists ops. auto.
Qed.

Lemma emits_when P b (m : io (K:=K) (C:=C) unit) : emits P m -> emits P (io_when b m).
Proof. intros Hm. destruct b; [exact Hm | apply emits_ret]. Qed.

Lemma emits_for {A} P (l : list A) (body : A -> io (K:=K) (C:=C) unit) :
  (forall x, emits P (body x)) -> emits P (io_for l body).
Proof.
  intros Hb. induction l as [|x l IH]; simpl; [apply emits_ret|].
  apply emits_bind; [apply Hb | intros _; exact IH].
Qed.

Lemma emits_performed {A} P (m : io (K:=K) (C:=C) A) s :
  emits P m ->
  io_trace (snd (m s)) = io_trace s ++ performed m s /\ Forall P (performed m s).
Proof.
  intros Hm. destruct (Hm s) as (ops & E & F). unfold performed.
  rewrite E, drop_app_length. auto.
Qed.

Lemma save_detections_in_place config (state : WaterfallState K C) save_path
    scan_time scan_configs peaks props edges detection_type :
  emits (in_place_op (detection_save_dir save_path)
           (detection_config_save_path str_of_time save_path scan_time)
           (detection_save_path str_of_time save_path scan_time))
    (save_detections str_of_time config state save_path scan_time scan_configs
       peaks props edges detection_type).
Proof.
  unfold save_detections.
  apply emits_bind; [apply emits_dir_exists | intros e].
  apply emits_bind; [apply emits_when, emits_do_op; reflexivity | intros _].
  apply emits_bind; [| intros _].
  { apply emits_when, emits_bind; [|intros _]; apply emits_do_op; simpl; auto. }
  apply emits_bind; [apply emits_file_exists | intros e'].
  apply emits_bind; [| intros _].
  { apply emits_when, emits_bind; [|intros _]; apply emits_do_op; simpl; auto. }
  apply emits_bind; [apply emits_do_op; simpl; auto | intros _].
  apply emits_bind; [| intros _; apply emits_ret].
  apply emits_for. intros i.
  apply emits_bind; [apply emits_lift | intros row].
  apply emits_do_op. simpl. auto.
Qed.

Lemma dot_name_ne (b : string) : String.append "." b <> b.
Proof.
  intros E. cbv beta iota fix delta [String.append] in E.
  apply (f_equal String.length) in E. simpl in E. lia.
Qed.

Lemma safe_savefig_atomic (figure : string) (p : path) s :
  let tmp := (fst p, String.append "." (snd p)) in
  performed (safe_savefig figure p) s
    = [OpenWrite tmp; Write tmp [Image figure]; Rename tmp p] /\
  fst (safe_savefig figure p s) = Ok tt /\
  atomic_at (io_fs s) (performed (safe_savefig figure p) s) p /\
  files (io_fs (snd (safe_savefig figure p s))) !! p = Some [Image figure].
Proof.
  intros tmp.
  assert (Hne : tmp <> p).
  { destruct p as [d b]. unfold tmp. simpl. intros E. injection E as E.
    exact (dot_name_ne b E). }
  assert (Eops : performed (safe_savefig figure p) s
                 = [OpenWrite tmp; Write tmp [Image figure]; Rename tmp p]).
  { unfold performed, safe_savefig, io_bind, do_op. simpl.
    rewrite <- !app_assoc. simpl. rewrite drop_app_length. reflexivity. }
  split; [exact Eops|]. split; [reflexivity|].
  assert (Efin : files (foldl apply_op (io_fs s)
                          [OpenWrite tmp; Write tmp [Image figure]; Rename tmp p]) !! p
                 = Some [Image figure]).
  { simpl. rewrite lookup_insert_eq. simpl. rewrite lookup_insert_eq. simpl.
    apply lookup_insert_eq. }
  split.
  - rewrite Eops. unfold atomic_at, observable. simpl length. simpl seq. simpl map.
    repeat apply Forall_cons_2; [| | | |apply Forall_nil_2].
    + left. reflexivity.
    + left. simpl. apply lookup_insert_ne. exact Hne.
    + left. simpl. rewrite lookup_insert_eq. simpl.
      rewrite !lookup_insert_ne by exact Hne. reflexivity.
    + right. reflexivity.
  - unfold safe_savefig, io_bind, do_op. simpl.
    fold tmp. rewrite lookup_insert_eq. simpl. rewrite lookup_insert_eq. simpl.
    apply lookup_insert_eq.
Qed.
Lemma save_detections_total_nopeaks config (state : WaterfallState K C) save_path
    scan_time scan_configs props edges detection_type :
  total (save_detections str_of_time config state save_path scan_time scan_configs
           [] props edges detection_type).
Proof.
  unfold save_detections.
  apply total_bind; [apply total_dir_exists | intros e].
  apply total_bind; [apply total_when, total_do_op | intros _].
  apply total_bind; [| intros _].
  { apply total_when, total_bind; [apply total_do_op | intros _; apply total_do_op]. }
  apply total_bind; [apply total_file_exists | intros e'].
  apply total_bind; [| intros _].
  { apply total_when, total_bind; [apply total_do_op | intros _; apply total_do_op]. }
  apply total_bind; [apply total_do_op | intros _].
  apply total_bind; [apply total_ret | intros _; apply total_ret].
Qed.


(** C9. A call of [save_detections] writes the scan-config file exactly
    when the state holds no previously written config or holds one that
    differs from the current scan config, and not otherwise.  Over a run
    of calls that completes, the number of writes is the number of
    configs that differ from the last one written (counting the first).
    For the configs A, A, B, B, A from a fresh state that is 3. *)
Theorem scan_config_written_on_change config save_path edges detection_type :
  (forall (state : WaterfallState K C) scan_time scan_configs peaks props s,
      config_writes
        (performed (save_detections str_of_time config state save_path scan_time
                      scan_configs peaks props edges detection_type) s)
      = if decide (previous_scan_config state = Some scan_configs) then 0 else 1) /\
  (forall calls (state state' : WaterfallState K C) s s',
      save_detections_seq str_of_time config state save_path edges detection_type calls s
        = (Ok state', s') ->
      config_writes (io_trace s')
      = config_writes (io_trace s)
        + spec_config_writes (previous_scan_config state)
            (map (fun c => snd (fst c)) calls)) /\
  (forall (a b : C) (t1 t2 t3 t4 t5 : K) s,
      a <> b ->
      exists state' s',
        save_detections_seq str_of_time config WaterfallState_init save_path edges
          detection_type
          [(t1, a, ([], ∅)); (t2, a, ([], ∅)); (t3, b, ([], ∅));
           (t4, b, ([], ∅)); (t5, a, ([], ∅))] s
        = (Ok state', s') /\
        config_writes (io_trace s') = config_writes (io_trace s) + 3).
Proof.
  split; [|split].
  - intros state scan_time scan_configs peaks props s.
    pose proof (save_detections_config_writes config state save_path
                  scan_time scan_configs peaks props edges detection_type s) as Hw.
    destruct (emits_performed _ _ s
                (save_detections_in_place config state save_path
                   scan_time scan_configs peaks props edges detection_type))
      as [E _].
    rewrite E, config_writes_app in Hw. lia.
  - intros calls state state' s s'.
    apply save_detections_seq_config_writes.
  - intros a b t1 t2 t3 t4 t5 s Hab.
    assert (Htot : forall calls (state : WaterfallState K C),
               Forall (fun c => fst (snd c) = []) calls ->
               total (save_detections_seq str_of_time config state save_path edges
                        detection_type calls)).
    { induction calls as [|[[t c] [peaks props]] calls IH]; intros state Hall.
      - apply total_ret.
      - apply Forall_cons in Hall as [Hp Hall]. simpl in Hp. subst peaks. simpl.
        apply total_bind; [apply save_detections_total_nopeaks | intros st; apply IH, Hall]. }
    destruct (Htot [(t1, a, ([], ∅)); (t2, a, ([], ∅)); (t3, b, ([], ∅));
                    (t4, b, ([], ∅)); (t5, a, ([], ∅))] WaterfallState_init) with (s := s)
      as (state' & s' & Erun).
    { repeat constructor. }
    exists state', s'. split; [exact Erun|].
    rewrite (save_detections_seq_config_writes _ _ _ _ _ _ _ _ _ Erun).
    simpl map. change (previous_scan_config WaterfallState_init) with (@None C).
    rewrite (spec_config_writes_AABBA a b Hab). reflexivity.
Qed.

(** C1, amended.  The figure written by [safe_savefig] is published
    atomically: it is written to a dot-file in the same directory, which
    is then renamed onto the path, so a reader finds at the path what was
    there before or the whole figure.  The writes of [save_detections]
    are made in place: every operation creates the directory, or opens or
    writes the scan-config file or the detection file at its final path,
    and none is a rename. *)
Theorem figure_atomic_detections_in_place :
  (forall (figure : string) (p : path) (s : io_state (K:=K) (C:=C)),
      let tmp := (fst p, String.append "." (snd p)) in
      performed (safe_savefig figure p) s
        = [OpenWrite tmp; Write tmp [Image figure]; Rename tmp p] /\
      fst (safe_savefig figure p s) = Ok tt /\
      atomic_at (io_fs s) (performed (safe_savefig figure p) s) p /\
      files (io_fs (snd (safe_savefig figure p s))) !! p = Some [Image figure]) /\
  (forall config (state : WaterfallState K C) save_path scan_time scan_configs
          peaks props edges detection_type s,
      Forall (in_place_op (detection_save_dir save_path)
                (detection_config_save_path str_of_time save_path scan_time)
                (detection_save_path str_of_time save_path scan_time))
        (performed (save_detections str_of_time config state save_path scan_time
                      scan_configs peaks props edges detection_type) s)).
Proof.
  split.
  - intros figure p s. apply safe_savefig_atomic.
  - intros. eapply emits_performed, save_detections_in_place.
Qed.
End PersistenceFacts.


Lemma edge_at_nonneg (edges : list Q) (x e : Q) :
  (0 <= x)%Q -> edges !! Z.to_nat (Qfloor x) = Some e -> edge_at edges x = Ok e.
Proof.
  intros Hx He. unfold edge_at. rewrite py_int_nonneg by exact Hx.
  assert (H0 : (0 <= Qfloor x)%Z).
  { pose proof (Qfloor_resp_le _ _ Hx) as Hf. exact Hf. }
  apply lookup_lt_Some in He as Hlt.
  rewrite np_index_in_range by lia. rewrite He. reflexivity.
Qed.

Lemma spec_interp_edge_integral (edges : list Q) (x e : Q) :
  (0 <= x)%Q -> x == inject_Z (Qfloor x) ->
  edges !! Z.to_nat (Qfloor x) = Some e ->
  exists v, spec_interp_edge edges x = Some v /\ v == e.
Proof.
  intros Hx Hint He. unfold spec_interp_edge.
  assert (H0 : (0 <= Qfloor x)%Z) by exact (Qfloor_resp_le _ _ Hx).
  destruct (Qfloor x <? 0)%Z eqn:E; [apply Z.ltb_lt in E; lia|].
  rewrite He. destruct (edges !! S (Z.to_nat (Qfloor x))) as [hi|].
  - eexists. split; [reflexivity|]. rewrite <- Hint. ring.
  - apply Qeq_bool_iff in Hint. rewrite Hint. exists e. split; reflexivity.
Qed.


Section RowFacts.
Context {K C : Type} `{Countable K} `{EqDecision C}.

(** C3, amended.  The boundaries in the detection row of peak [i] are
    the frequency edges at the integer parts of its fractional indices
    [left_ips[i]] and [right_ips[i]]: the index is truncated, then used
    to index the edge array.  This is the interpolated frequency when the
    fractional index is an integer. *)
Theorem detection_bounds_truncated (scan_time : K) (props : properties) (edges : list Q)
    (detection_type : string) (i : nat) (l r d lo hi : Q) :
  prop_at props "left_ips" i = Ok l ->
  prop_at props "right_ips" i = Ok r ->
  prop_at props "peak_heights" i = Ok d ->
  (0 <= l)%Q -> (0 <= r)%Q ->
  edges !! Z.to_nat (Qfloor l) = Some lo ->
  edges !! Z.to_nat (Qfloor r) = Some hi ->
  detection_row (K:=K) (C:=C) scan_time props edges detection_type i
    = Ok (CsvRow scan_time lo hi d detection_type) /\
  (l == inject_Z (Qfloor l) -> exists v, spec_interp_edge edges l = Some v /\ v == lo) /\
  (r == inject_Z (Qfloor r) -> exists v, spec_interp_edge edges r = Some v /\ v == hi).
Proof.
  intros Hl Hr Hd Hl0 Hr0 Elo Ehi. split; [|split].
  - unfold detection_row. rewrite Hl. simpl.
    rewrite (edge_at_nonneg _ _ _ Hl0 Elo). simpl. rewrite Hr. simpl.
    rewrite (edge_at_nonneg _ _ _ Hr0 Ehi). simpl. rewrite Hd. reflexivity.
  - intros Hint. apply spec_interp_edge_integral; assumption.
  - intros Hint. apply spec_interp_edge_integral; assumption.
Qed.
End RowFacts.

(** C3, as stated, fails: over the edges 100, 101, 102 a peak from index
    0.5 to 1.5 is recorded from 100 to 101, while interpolation gives
    100.5 and 101.5. *)
Lemma detection_bounds_interpolated_counterexample :
  detection_row (K:=Z) (C:=string) 17%Z halfway_props three_edges "narrowband" 0
    = Ok (CsvRow 17%Z 100 101 (-50) "narrowband") /\
  spec_interp_edge three_edges (1 # 2) = Some (100 + ((1 # 2) - 0) * (101 - 100))%Q /\
  Qeq_bool 100 (100 + ((1 # 2) - 0) * (101 - 100)) = false /\
  spec_interp_edge three_edges (3 # 2) = Some (101 + ((3 # 2) - 1) * (102 - 101))%Q /\
  Qeq_bool 101 (101 + ((3 # 2) - 1) * (102 - 101)) = false.
Proof. repeat split. Qed.

(** What the first call does, operation by operation. *)
Lemma first_save_trace :
  performed first_save nothing_saved
  = [Makedirs "out/detections";
     OpenWrite first_save_config_path;
     Write first_save_config_path [JsonScanConfig 17%Z 100 110 "cfgA"];
     OpenWrite ("out/detections", "detections_17.csv");
     Write ("out/detections", "detections_17.csv") [CsvHeader];
     OpenAppend ("out/detections", "detections_17.csv");
     Write ("out/detections", "detections_17.csv")
       [CsvRow 17%Z 100 101 (-50) "narrowband"]].
Proof. vm_compute. reflexivity. Qed.

(** C1, as stated, fails: a first call of [save_detections] opens the
    scan-config file at its final path and writes it there; no operation
    is a rename, and between the two operations a reader finds the file
    empty, which is neither its previous state (absent) nor its final
    content. *)
Lemma detection_writes_atomic_counterexample :
  written_in_place (performed first_save nothing_saved) first_save_config_path /\
  Forall (fun op : fs_op (K:=Z) (C:=string) =>
            match op with Rename _ _ => False | _ => True end)
    (performed first_save nothing_saved) /\
  (exists fs' : filesystem (K:=Z) (C:=string),
      fs' ∈ observable (io_fs nothing_saved) (performed first_save nothing_saved) /\
      files fs' !! first_save_config_path = Some [] /\
      files (io_fs nothing_saved) !! first_save_config_path = None /\
      files (foldl apply_op (io_fs nothing_saved) (performed first_save nothing_saved))
        !! first_save_config_path
      = Some [JsonScanConfig 17%Z 100 110 "cfgA"]) /\
  ~ atomic_at (io_fs nothing_saved) (performed first_save nothing_saved) first_save_config_path.
Proof.
  rewrite first_save_trace.
  assert (Hobs :
    foldl apply_op (io_fs nothing_saved)
      [Makedirs "out/detections"; OpenWrite first_save_config_path]
    ∈ observable (io_fs nothing_saved)
        [Makedirs "out/detections";
         OpenWrite first_save_config_path;
         Write first_save_config_path [JsonScanConfig 17%Z 100 110 "cfgA"];
         OpenWrite ("out/detections", "detections_17.csv");
         Write ("out/detections", "detections_17.csv") [CsvHeader];
         OpenAppend ("out/detections", "detections_17.csv");
         Write ("out/detections", "detections_17.csv")
           [CsvRow 17%Z 100 101 (-50) "narrowband"]]).
  { unfold observable. apply list_elem_of_fmap. exists 2. split; [reflexivity|].
    apply list_elem_of_In, in_seq. simpl. lia. }
  split; [|split; [|split]].
  - apply Exists_cons_tl, Exists_cons_hd. vm_compute. reflexivity.
  - repeat constructor.
  - eexists. split; [exact Hobs|]. repeat split; vm_compute; reflexivity.
  - intros Hat. unfold atomic_at in Hat. rewrite Forall_forall in Hat.
    destruct (Hat _ Hobs) as [E|E]; vm_compute in E; discriminate.
Qed.

(** A peak from index 1 to 2 over the edges 100, 101, 102 is recorded
    from 101 to 102. *)
Lemma detection_bounds_truncated_witness :
  prop_at integral_props "left_ips" 0 = Ok 1%Q /\
  prop_at integral_props "right_ips" 0 = Ok 2%Q /\
  prop_at integral_props "peak_heights" 0 = Ok (-50 # 1)%Q /\
  (0 <= 1)%Q /\ (0 <= 2)%Q /\
  three_edges !! Z.to_nat (Qfloor 1) = Some 101%Q /\
  three_edges !! Z.to_nat (Qfloor 2) = Some 102%Q /\
  detection_row (K:=Z) (C:=string) 17%Z integral_props three_edges "narrowband" 0
    = Ok (CsvRow 17%Z 101 102 (-50 # 1) "narrowband").
Proof.
  assert (H1 : prop_at integral_props "left_ips" 0 = Ok 1%Q) by reflexivity.
  assert (H2 : prop_at integral_props "right_ips" 0 = Ok 2%Q) by reflexivity.
  assert (H3 : prop_at integral_props "peak_heights" 0 = Ok (-50 # 1)%Q) by reflexivity.
  assert (H4 : (0 <= 1)%Q) by discriminate.
  assert (H5 : (0 <= 2)%Q) by discriminate.
  assert (H6 : three_edges !! Z.to_nat (Qfloor 1) = Some 101%Q) by reflexivity.
  assert (H7 : three_edges !! Z.to_nat (Qfloor 2) = Some 102%Q) by reflexivity.
  repeat (split; [assumption|]).
  exact (proj1 (detection_bounds_truncated (K:=Z) (C:=string) 17%Z integral_props
                  three_edges "narrowband" 0 1 2 (-50 # 1) 101 102
                  H1 H2 H3 H4 H5 H6 H7)).
Defined.

(** The configs A, A, B, B, A on an empty directory tree: three writes. *)
Lemma scan_config_written_on_change_witness :
  exists state' s',
    save_detections_seq (fun t : Z => pretty t) example_config WaterfallState_init
      "out" three_edges "narrowband" aabba_calls nothing_saved = (Ok state', s') /\
    config_writes (io_trace s') = 3 /\
    previous_scan_config state' = Some "A".
Proof.
  destruct (scan_config_written_on_change (K:=Z) (C:=string) (fun t : Z => pretty t)
              example_config "out" three_edges "narrowband") as (_ & _ & Hrun).
  destruct (Hrun "A" "B" 1%Z 2%Z 3%Z 4%Z 5%Z nothing_saved) as (state' & s' & Erun & Hn).
  { discriminate. }
  exists state', s'. split; [exact Erun|]. split; [exact Hn|].
  assert (Ecomp : exists st0 s0,
             save_detections_seq (fun t : Z => pretty t) example_config WaterfallState_init
               "out" three_edges "narrowband" aabba_calls nothing_saved = (Ok st0, s0) /\
             previous_scan_config st0 = Some "A").
  { eexists _, _. split; [vm_compute; reflexivity|reflexivity]. }
  destruct Ecomp as (st0 & s0 & E0 & Hp).
  change aabba_calls
    with [(1%Z, "A", (@nil Z, (∅ : properties))); (2%Z, "A", ([], ∅));
          (3%Z, "B", ([], ∅)); (4%Z, "B", ([], ∅)); (5%Z, "A", ([], ∅))] in E0.
  rewrite Erun in E0. injection E0 as -> _. exact Hp.
Defined.

(** ** The scan-config history *)

Section HistoryFacts.
Context {K C : Type} `{Countable K}.
Implicit Types (state : WaterfallState K C) (scan_df : list (sample K)).
#[local] Set Warnings "-clear-no-such-hyp".

Lemma history_tracks_size state :
  history_tracks state -> size (scan_config_history state) = length (scan_times state).
Proof.
  intros [Hnd Hdom]. rewrite <- size_dom, Hdom. apply size_list_to_set, Hnd.
Qed.

Lemma String_eqb_false_ne (s : string) : s <> "" -> String.eqb s "" = false.
Proof. intros Hs. apply String.eqb_neq, Hs. Qed.

(** What the bookkeeping does to the times and the history. *)
Lemma evict_then_insert config save_path (times : list K) (history : gmap K C)
    (t : K) (c : C) :
  save_path <> "" ->
  NoDup times -> dom history = list_to_set times -> t ∉ times ->
  (length times < waterfall_height config /\
   evict_oldest config save_path (times ++ [t]) history = Ok (times ++ [t], history))
  \/
  (waterfall_height config <= length times /\
   exists old rest,
     times = old :: rest /\
     evict_oldest config save_path (times ++ [t]) history
     = Ok (rest ++ [t], delete old history))
  \/
  (times = [] /\ waterfall_height config = 0 /\
   evict_oldest config save_path (times ++ [t]) history = Raise KeyError).
Proof.
  intros Hsave Hnd Hdom Ht. unfold evict_oldest.
  rewrite length_app. simpl length.
  destruct (waterfall_height config <? length times + 1)%nat eqn:E.
  - apply Nat.ltb_lt in E. right.
    rewrite (String_eqb_false_ne _ Hsave).
    destruct times as [|old rest].
    + right. simpl in *. split; [reflexivity|]. split; [lia|].
      assert (Hn : history !! t = None).
      { apply not_elem_of_dom. rewrite Hdom. set_solver. }
      rewrite Hn. reflexivity.
    + left. split; [simpl in *; lia|]. exists old, rest. split; [reflexivity|].
      simpl. assert (Hin : old ∈ dom history).
      { rewrite Hdom. set_solver. }
      apply elem_of_dom in Hin as [v Hv]. rewrite Hv. reflexivity.
  - apply Nat.ltb_ge in E. left. split; [lia|reflexivity].
Qed.

(** C6, amended.  With a save path set, let the history track the
    retained scan times (the times are pairwise distinct and are the keys
    of the history) and let the scan time of the batch differ from every
    retained one.  Then after the batch the history tracks the retained
    scan times again, and its size equals their number.  An ingested
    batch adds its entry, and past [waterfall_height] retained times the
    oldest time and its entry are removed together; a skipped batch
    changes neither. *)
Theorem history_size_tracks_rows config save_path state scan_configs scan_df state' log :
  save_path <> "" ->
  history_tracks state ->
  (forall t, batch_time config scan_df = Some t -> t ∉ scan_times state) ->
  process_batch config save_path state scan_configs scan_df = Ok (state', log) ->
  history_tracks state' /\
  size (scan_config_history state') = length (scan_times state') /\
  match batch_time config scan_df with
  | None =>
      scan_times state' = scan_times state /\
      scan_config_history state' = scan_config_history state
  | Some t =>
      (length (scan_times state) < waterfall_height config /\
       scan_times state' = scan_times state ++ [t] /\
       scan_config_history state' = <[t := scan_configs]> (scan_config_history state))
      \/
      (waterfall_height config <= length (scan_times state) /\
       exists old rest,
         scan_times state = old :: rest /\
         scan_times state' = rest ++ [t] /\
         scan_config_history state'
         = <[t := scan_configs]> (delete old (scan_config_history state)))
  end.
Proof.
  intros Hsave Hinv Hfresh Hstep.
  assert (Hgoal : forall st : WaterfallState K C,
             history_tracks st ->
             history_tracks st /\ size (scan_config_history st) = length (scan_times st)).
  { intros st Hst. split; [exact Hst | apply history_tracks_size, Hst]. }
  unfold batch_time in *.
  destruct (last (kept config scan_df)) as [s|] eqn:El; simpl in *.
  - revert Hstep. unfold process_batch. fold (kept config scan_df). rewrite El.
    destruct (ingest_row (freq_data state) _ _) as [fd|]; [|discriminate].
    destruct (ingest_row (db_data state) _ _) as [dd|]; [|discriminate].
    simpl rbind at 1. simpl rbind at 1.
    destruct Hinv as [Hnd Hdom].
    specialize (Hfresh _ eq_refl).
    destruct (evict_then_insert config save_path (scan_times state)
                (scan_config_history state) (ts s) scan_configs Hsave Hnd Hdom Hfresh)
      as [[Hlt Hev]|[[Hge (old & rest & Etimes & Hev)]|(_ & _ & Hev)]];
      rewrite Hev; [| |discriminate]; simpl;
      rewrite (String_eqb_false_ne _ Hsave); intros Hok; injection Hok as <- <-.
    + assert (Hst : history_tracks
                      {| db_data := dd; freq_data := fd; freq_bins := freq_bins state;
                         scan_times := scan_times state ++ [ts s];
                         scan_config_history :=
                           <[ts s := scan_configs]> (scan_config_history state);
                         previous_scan_config := previous_scan_config state;
                         counter := S (counter state) |}).
      { split; simpl.
        - apply NoDup_app. repeat split; [exact Hnd | | apply NoDup_singleton].
          intros x Hx Hx'. apply list_elem_of_singleton in Hx'. subst. contradiction.
        - rewrite dom_insert_L, list_to_set_app_L, Hdom. set_solver. }
      destruct (Hgoal _ Hst) as [G1 G2]. split; [exact G1|]. split; [exact G2|].
      left. simpl. auto.
    + rewrite Etimes in Hnd, Hdom, Hfresh.
      apply NoDup_cons in Hnd as [Hold Hnd].
      assert (Hst : history_tracks
                      {| db_data := dd; freq_data := fd; freq_bins := freq_bins state;
                         scan_times := rest ++ [ts s];
                         scan_config_history :=
                           <[ts s := scan_configs]> (delete old (scan_config_history state));
                         previous_scan_config := previous_scan_config state;
                         counter := S (counter state) |}).
      { split; simpl.
        - apply NoDup_app. repeat split; [exact Hnd | | apply NoDup_singleton].
          intros x Hx Hx'. apply list_elem_of_singleton in Hx'. subst.
          apply Hfresh. right. exact Hx.
        - rewrite dom_insert_L, dom_delete_L, list_to_set_app_L, Hdom. set_solver. }
      destruct (Hgoal _ Hst) as [G1 G2]. split; [exact G1|]. split; [exact G2|].
      right. simpl. split; [exact Hge|]. exists old, rest. rewrite Etimes. auto.
  - apply last_None in El. rewrite process_batch_skipped in Hstep by exact El.
    injection Hstep as <- <-.
    destruct (Hgoal _ Hinv) as [G1 G2]. auto.
Qed.
End HistoryFacts.

(** ** The loop on a small waterfall *)

Lemma waterfall_rows_fifo_witness :
  length (db_data small_state) = waterfall_height small_config /\
  length (freq_data small_state) = waterfall_height small_config /\
  Forall (fun row => length row = 3) (db_data small_state) /\
  Forall (fun row => length row = 3) (freq_data small_state) /\
  exists state' log,
    process_batches small_config "" small_state small_results = Ok (state', log) /\
    length (db_data state') = 3 /\
    db_data state'
    = [ [NaN; NaN; NaN];
        [Fin (-90); NaN; Fin (-95)];
        [NaN; Fin (-80); NaN] ].
Proof.
  assert (H1 : length (db_data small_state) = waterfall_height small_config) by reflexivity.
  assert (H2 : length (freq_data small_state) = waterfall_height small_config) by reflexivity.
  assert (H3 : Forall (fun row => length row = 3) (db_data small_state))
    by (repeat constructor).
  assert (H4 : Forall (fun row => length row = 3) (freq_data small_state))
    by (repeat constructor).
  repeat (split; [assumption|]).
  eexists _, _. split; [vm_compute; reflexivity|].
  match goal with |- length (db_data ?st) = _ /\ _ =>
    destruct (waterfall_rows_fifo small_config "" small_results small_state st _ 3
                H1 H2 H3 H4 eq_refl) as (db_rows & freq_rows & _ & _ & _ & _ & L & _)
  end.
  split; [exact L | reflexivity].
Defined.

(** A batch of one sample at 99.9 under [min_freq = 100] is skipped, and
    a sample at 99.9 in front of one at 101 changes nothing. *)
Lemma out_of_range_dropped_witness :
  process_batch example_config "" (WaterfallState_init (K:=Z) (C:=string)) "A"
    [ {| freq := 999 # 10; db := Fin (-70); ts := 2%Z |} ]
  = Ok (WaterfallState_init, [OutsideRange 100 110]) /\
  process_batch small_config "" small_state "B"
    ([] ++ {| freq := 999 # 10; db := Fin (-60); ts := 3%Z |}
        :: [ {| freq := 101; db := Fin (-80); ts := 3%Z |} ])
  = process_batch small_config "" small_state "B"
      ([] ++ [ {| freq := 101; db := Fin (-80); ts := 3%Z |} ]).
Proof.
  split.
  - apply (out_of_range_dropped example_config "" WaterfallState_init "A").
    repeat constructor.
  - apply (out_of_range_dropped small_config "" small_state "B").
    left. reflexivity.
Defined.

(** The first batch on the small waterfall with a save path: one
    retained scan time, one entry. *)
Lemma history_size_tracks_rows_witness :
  "out" <> "" /\
  history_tracks small_state /\
  exists state' log,
    process_batch small_config "out" small_state "A"
      [ {| freq := 100; db := Fin (-90); ts := 1%Z |} ] = Ok (state', log) /\
    size (scan_config_history state') = length (scan_times state') /\
    scan_times state' = [1%Z].
Proof.
  assert (H1 : "out" <> "") by discriminate.
  assert (H2 : history_tracks small_state).
  { split; [apply NoDup_nil_2 | reflexivity]. }
  split; [exact H1|]. split; [exact H2|].
  eexists _, _. split; [vm_compute; reflexivity|].
  match goal with |- size (scan_config_history ?st) = _ /\ _ =>
    destruct (history_size_tracks_rows small_config "out" small_state "A"
                [ {| freq := 100; db := Fin (-90); ts := 1%Z |} ] st [] H1 H2)
      as (_ & Hsize & _)
  end.
  - intros t Ht. apply not_elem_of_nil.
  - reflexivity.
  - split; [exact Hsize | reflexivity].
Defined.

(** C6, as stated, fails: two batches that carry the same scan time leave
    two retained scan times and a history of one entry. *)
Lemma history_size_counterexample :
  exists state' log,
    process_batches small_config "out" small_state same_time_results = Ok (state', log) /\
    length (scan_times state') = 2 /\
    size (scan_config_history state') = 1.
Proof.
  eexists _, _. split; [vm_compute; reflexivity|]. split; reflexivity.
Qed.

(** ** When a batch is processed without failure *)

(** With a span of a whole number of resolution steps, every frequency
    in range has a bin of the matrix. *)
Lemma freq_idx_in_bins (config : WaterfallConfig) (f : Q) (n : Z) :
  (0 < freq_resolution config)%Q ->
  (min_freq config <= f)%Q -> (f <= max_freq config)%Q ->
  (max_freq config - min_freq config) / freq_resolution config == inject_Z n ->
  (0 <= freq_idx config f < num_bins config)%Z.
Proof.
  intros Hres Hlo Hhi Hn.
  assert (Hinv : (0 <= / freq_resolution config)%Q)
    by (apply Qlt_le_weak, Qinv_lt_0_compat, Hres).
  assert (Hbins : num_bins config = (n + 1)%Z).
  { unfold num_bins. rewrite py_int_nonneg.
    - rewrite (Qfloor_add_Z _ 1), (Qfloor_comp _ _ Hn), Qfloor_Z. reflexivity.
    - assert ((0 <= (max_freq config - min_freq config) / freq_resolution config)%Q)
        by (apply Qdiv_nonneg; lra). lra. }
  rewrite Hbins. unfold freq_idx. split.
  - rewrite <- (np_round_Z 0). apply np_round_mono. apply Qdiv_nonneg; [lra|exact Hres].
  - assert (Hle : (np_round ((f - min_freq config) / freq_resolution config) <= n)%Z).
    { rewrite <- (np_round_Z n), <- (np_round_comp _ _ Hn). apply np_round_mono.
      unfold Qdiv. apply Qmult_le_compat_r; [lra|exact Hinv]. }
    lia.
Qed.

Section Returns.
Context {K C : Type} `{Countable K}.
#[local] Set Warnings "-clear-no-such-hyp".


End Returns.

(** The spec's end-to-end example: under 100 to 110 MHz in steps of
    0.1 MHz the samples at 105.0 and 105.1 fall in bins 50 and 51, and a
    sample at 99.9 is out of range. *)
Lemma spec_example_bins :
  freq_idx example_config 105 = 50%Z /\
  freq_idx example_config (1051 # 10) = 51%Z /\
  in_range example_config {| freq := 999 # 10; db := Fin (-90); ts := 0%Z |} = false.
Proof. repeat split. Qed.

(* ================================================================== *)
(** * Further properties of the code *)

(** ** Rotation, quantization and the frequency axis *)

Lemma Qfloor_div_bounds (x : Q) (r : Z) :
  (0 < r)%Z ->
  (inject_Z (Qfloor (x / inject_Z r) * r) <= x)%Q /\
  (x < inject_Z (Qfloor (x / inject_Z r) * r + r))%Q.
Proof.
  intros Hr.
  assert (Hrq : (0 < inject_Z r)%Q) by (rewrite <- (Zlt_Qlt 0); exact Hr).
  pose proof (Qfloor_le (x / inject_Z r)) as Hlo.
  pose proof (Qlt_floor (x / inject_Z r)) as Hhi.
  set (k := Qfloor (x / inject_Z r)) in *.
  assert (Ex : x == x / inject_Z r * inject_Z r) by (field; lra).
  rewrite inject_Z_plus, inject_Z_mult. rewrite inject_Z_plus in Hhi.
  split.
  - apply Qle_trans with (x / inject_Z r * inject_Z r)%Q.
    + apply Qmult_le_compat_r; lra.
    + rewrite <- Ex. apply Qle_refl.
  - apply Qle_lt_trans with (x / inject_Z r * inject_Z r)%Q.
    + rewrite <- Ex. apply Qle_refl.
    + apply Qlt_le_trans with ((inject_Z k + inject_Z 1) * inject_Z r)%Q.
      * apply Qmult_lt_compat_r; lra.
      * apply Qle_lteq. right. change (inject_Z 1) with 1%Q. ring.
Qed.

(** X1. For a time at or after the epoch and a positive rotation period,
    the bucket is a multiple of the period, the time lies in the window
    of one period that starts at the bucket, the bucket of the bucket is
    the bucket itself, and a later time never has an earlier bucket. *)
Theorem rotation_bucket_window (now : Q) (rotate_secs : Z) :
  (0 <= now)%Q -> (0 < rotate_secs)%Z ->
  (inject_Z (rotation_bucket now rotate_secs) <= now)%Q /\
  (now < inject_Z (rotation_bucket now rotate_secs + rotate_secs))%Q /\
  (rotate_secs | rotation_bucket now rotate_secs)%Z /\
  rotation_bucket (inject_Z (rotation_bucket now rotate_secs)) rotate_secs
    = rotation_bucket now rotate_secs /\
  (forall later : Q,
      (now <= later)%Q ->
      (rotation_bucket now rotate_secs <= rotation_bucket later rotate_secs)%Z).
Proof.
  intros Hnow Hr.
  assert (Hrq : (0 < inject_Z rotate_secs)%Q) by (rewrite <- (Zlt_Qlt 0); exact Hr).
  assert (Hb : forall x, (0 <= x)%Q ->
             rotation_bucket x rotate_secs = (Qfloor (x / inject_Z rotate_secs) * rotate_secs)%Z).
  { intros x Hx. unfold rotation_bucket. rewrite py_int_nonneg; [reflexivity|].
    apply Qdiv_nonneg; assumption. }
  rewrite (Hb now Hnow).
  destruct (Qfloor_div_bounds now rotate_secs Hr) as [Hlo Hhi].
  assert (Hk : (0 <= Qfloor (now / inject_Z rotate_secs))%Z).
  { change 0%Z with (Qfloor 0). apply Qfloor_resp_le, Qdiv_nonneg; assumption. }
  split; [exact Hlo|]. split; [exact Hhi|].
  split; [apply Z.divide_factor_r|]. split.
  - rewrite Hb.
    + f_equal. rewrite <- (Qfloor_Z (Qfloor (now / inject_Z rotate_secs))) at 2.
      apply Qfloor_comp. rewrite inject_Z_mult. field. lra.
    + rewrite <- (Zle_Qle 0). nia.
  - intros later Hlater. rewrite Hb by lra.
    apply Z.mul_le_mono_nonneg_r; [lia|].
    apply Qfloor_resp_le. unfold Qdiv. apply Qmult_le_compat_r; [exact Hlater|].
    apply Qlt_le_weak, Qinv_lt_0_compat, Hrq.
Qed.

(** 950 s with a period of 900 s falls in bucket 900, and 1800 s is not
    before it. *)
Lemma rotation_bucket_window_witness :
  (0 <= 950)%Q /\ (0 < 900)%Z /\
  rotation_bucket 950 900 = 900%Z /\
  (rotation_bucket 950 900 <= rotation_bucket 1800 900)%Z.
Proof.
  assert (H1 : (0 <= 950)%Q) by discriminate.
  assert (H2 : (0 < 900)%Z) by reflexivity.
  destruct (rotation_bucket_window 950 900 H1 H2) as (_ & _ & _ & _ & Hmono).
  split; [exact H1|]. split; [exact H2|]. split; [reflexivity|].
  apply Hmono. discriminate.
Defined.

Lemma np_round_half (x : Q) :
  (inject_Z (np_round x) - x <= 1 # 2)%Q /\ (x - inject_Z (np_round x) <= 1 # 2)%Q.
Proof.
  unfold np_round. pose proof (Qfloor_le x) as Hlo. pose proof (Qlt_floor x) as Hhi.
  rewrite inject_Z_plus in Hhi. change (inject_Z 1) with 1%Q in Hhi.
  destruct (Qcompare_spec (x - inject_Z (Qfloor x)) (1 # 2)) as [E|L|G].
  - destruct (Z.even (Qfloor x)).
    + split; lra.
    + rewrite inject_Z_plus. change (inject_Z 1) with 1%Q. split; lra.
  - split; lra.
  - rewrite inject_Z_plus. change (inject_Z 1) with 1%Q. split; lra.
Qed.

Lemma Qmult_div_cancel (a r : Q) : ~ r == 0 -> a * r / r == a.
Proof. intros Hr. field. exact Hr. Qed.

(** X2. With a positive resolution, the frequency stored for a sample is
    within half a resolution step of the sample's frequency, and
    quantizing a stored frequency again gives the same value. *)
Theorem quantized_freq_nearest (config : WaterfallConfig) (f : Q) :
  (0 < freq_resolution config)%Q ->
  (quantized_freq config f - f <= freq_resolution config / 2)%Q /\
  (f - quantized_freq config f <= freq_resolution config / 2)%Q /\
  quantized_freq config (quantized_freq config f) = quantized_freq config f.
Proof.
  intros Hres. set (r := freq_resolution config) in *.
  assert (Hr : ~ r == 0) by lra.
  destruct (np_round_half (f / r)) as [H1 H2].
  unfold quantized_freq. fold r.
  assert (Ef : f == f / r * r) by (field; exact Hr).
  split; [|split].
  - apply Qle_trans with ((inject_Z (np_round (f / r)) - f / r) * r)%Q.
    + apply Qle_lteq. right. rewrite Ef at 2. ring.
    + apply Qle_trans with ((1 # 2) * r)%Q.
      * apply Qmult_le_compat_r; lra.
      * apply Qle_lteq. right. field.
  - apply Qle_trans with ((f / r - inject_Z (np_round (f / r))) * r)%Q.
    + apply Qle_lteq. right. rewrite Ef at 1. ring.
    + apply Qle_trans with ((1 # 2) * r)%Q.
      * apply Qmult_le_compat_r; lra.
      * apply Qle_lteq. right. field.
  - f_equal. f_equal.
    rewrite (np_round_comp _ (inject_Z (np_round (f / r)))).
    + apply np_round_Z.
    + apply Qmult_div_cancel, Hr.
Qed.

(** 105.04 MHz in steps of 0.1 MHz is stored as 105.0 MHz. *)
Lemma quantized_freq_nearest_witness :
  (0 < freq_resolution example_config)%Q /\
  quantized_freq example_config (10504 # 100) == 105 /\
  quantized_freq example_config (quantized_freq example_config (10504 # 100))
    = quantized_freq example_config (10504 # 100).
Proof.
  assert (H1 : (0 < freq_resolution example_config)%Q) by reflexivity.
  destruct (quantized_freq_nearest example_config (10504 # 100) H1) as (_ & _ & E).
  split; [exact H1|]. split; [reflexivity|exact E].
Defined.

Lemma linspace_lookup (start stop : Q) (num i : nat) :
  (i < num)%nat ->
  linspace start stop num !! i
  = Some (if (num =? 1)%nat then start
          else (start + inject_Z (Z.of_nat i)
                        * ((stop - start) / inject_Z (Z.of_nat num - 1)))%Q).
Proof.
  intros Hi. unfold linspace. rewrite list_lookup_fmap.
  rewrite lookup_seq_lt by exact Hi. reflexivity.
Qed.

Lemma num_bins_whole (config : WaterfallConfig) (n : Z) :
  (0 <= n)%Z ->
  (max_freq config - min_freq config) / freq_resolution config == inject_Z n ->
  num_bins config = (n + 1)%Z.
Proof.
  intros Hn0 Hn. unfold num_bins. rewrite py_int_nonneg.
  - rewrite (Qfloor_add_Z _ 1), (Qfloor_comp _ _ Hn), Qfloor_Z. reflexivity.
  - assert (H0 : (0 <= inject_Z n)%Q) by (rewrite <- (Zle_Qle 0); exact Hn0).
    rewrite Hn. lra.
Qed.

Lemma psd_x_edges_on_grid (config : WaterfallConfig) (n : Z) (i : nat) :
  (0 < freq_resolution config)%Q ->
  (0 <= n)%Z ->
  (max_freq config - min_freq config) / freq_resolution config == inject_Z n ->
  (Z.of_nat i <= n)%Z ->
  exists e,
    psd_x_edges config !! i = Some e /\
    e == min_freq config + inject_Z (Z.of_nat i) * freq_resolution config.
Proof.
  intros Hres Hn0 Hn Hi. unfold psd_x_edges.
  rewrite (num_bins_whole config n Hn0 Hn).
  rewrite linspace_lookup by lia.
  eexists. split; [reflexivity|].
  assert (Hspan : max_freq config - min_freq config == inject_Z n * freq_resolution config).
  { rewrite <- Hn. field. lra. }
  destruct (Z.to_nat (n + 1) =? 1)%nat eqn:E1.
  - apply Nat.eqb_eq in E1. assert (i = 0%nat) by lia. subst i. simpl. ring.
  - apply Nat.eqb_neq in E1.
    assert (Hn1 : (1 <= n)%Z) by lia.
    replace (Z.of_nat (Z.to_nat (n + 1)) - 1)%Z with n by lia.
    assert (H0 : (0 < inject_Z n)%Q) by (rewrite <- (Zlt_Qlt 0); lia).
    rewrite Hspan. field. lra.
Qed.

(** X3. When the span of the range is a whole number of resolution
    steps, the frequency edge at the bin of an in-range sample is
    [min_freq + idx * resolution], and it is within half a step of the
    sample's frequency: the columns of the matrix and the frequency axis
    agree. *)
Theorem bin_label_nearest (config : WaterfallConfig) (n : Z) (f : Q) :
  (0 < freq_resolution config)%Q ->
  (0 <= n)%Z ->
  (max_freq config - min_freq config) / freq_resolution config == inject_Z n ->
  (min_freq config <= f)%Q -> (f <= max_freq config)%Q ->
  exists e,
    psd_x_edges config !! Z.to_nat (freq_idx config f) = Some e /\
    e == min_freq config + inject_Z (freq_idx config f) * freq_resolution config /\
    (e - f <= freq_resolution config / 2)%Q /\
    (f - e <= freq_resolution config / 2)%Q.
Proof.
  intros Hres Hn0 Hn Hlo Hhi.
  destruct (freq_idx_in_bins config f n Hres Hlo Hhi Hn) as [Hi0 Hi1].
  rewrite (num_bins_whole config n Hn0 Hn) in Hi1.
  destruct (psd_x_edges_on_grid config n (Z.to_nat (freq_idx config f)) Hres Hn0 Hn)
    as (e & He & Ee); [lia|].
  rewrite Z2Nat.id in Ee by lia.
  exists e. split; [exact He|]. split; [exact Ee|].
  unfold freq_idx in *.
  set (r := freq_resolution config) in *.
  assert (Hr : ~ r == 0) by lra.
  set (x := ((f - min_freq config) / r)%Q) in *.
  destruct (np_round_half x) as [H1 H2].
  assert (Ef : f == min_freq config + x * r) by (unfold x; field; exact Hr).
  set (i := inject_Z (np_round x)) in *.
  assert (Hm1 : ((i - x) * r <= (1 # 2) * r)%Q) by (apply Qmult_le_compat_r; lra).
  assert (Hm2 : ((x - i) * r <= (1 # 2) * r)%Q) by (apply Qmult_le_compat_r; lra).
  assert (E1 : (i - x) * r == i * r - x * r) by ring.
  assert (E2 : (x - i) * r == x * r - i * r) by ring.
  assert (E3 : r / 2 == (1 # 2) * r) by field.
  split; lra.
Qed.

(** In the spec's configuration 105.04 MHz falls in bin 50, whose edge
    is 105 MHz. *)
Lemma bin_label_nearest_witness :
  (0 < freq_resolution example_config)%Q /\
  (0 <= 100)%Z /\
  (max_freq example_config - min_freq example_config) / freq_resolution example_config
    == inject_Z 100 /\
  (min_freq example_config <= 10504 # 100)%Q /\
  (10504 # 100 <= max_freq example_config)%Q /\
  exists e,
    psd_x_edges example_config !! 50%nat = Some e /\ e == 105.
Proof.
  assert (H1 : (0 < freq_resolution example_config)%Q) by reflexivity.
  assert (H2 : (0 <= 100)%Z) by discriminate.
  assert (H3 : (max_freq example_config - min_freq example_config)
               / freq_resolution example_config == inject_Z 100) by reflexivity.
  assert (H4 : (min_freq example_config <= 10504 # 100)%Q) by discriminate.
  assert (H5 : (10504 # 100 <= max_freq example_config)%Q) by discriminate.
  destruct (bin_label_nearest example_config 100 (10504 # 100) H1 H2 H3 H4 H5)
    as (e & He & Ee & _).
  repeat (split; [assumption|]).
  exists e. split; [exact He|]. rewrite Ee. reflexivity.
Defined.

(** X4. As long as [n_ticks] is not capped at 20, the major tick
    separator [init_fig] computes is 20 whatever the range: the span
    cancels out of [span / n_ticks].  A range of zero width makes
    [n_ticks] zero and the division raises. *)
Theorem major_tick_separator_is_base (config : WaterfallConfig) :
  ~ scale config == 0 ->
  ((max_freq config / scale config - min_freq config / scale config) / 100 * 5 <= 20)%Q ->
  (max_freq config == min_freq config -> major_tick_separator config = None) /\
  (~ max_freq config == min_freq config -> major_tick_separator config = Some 20%Z).
Proof.
  intros Hscale Hcap. unfold major_tick_separator.
  set (span := (max_freq config / scale config - min_freq config / scale config)%Q) in *.
  assert (Emin : py_min_20 (span / 100 * 5) = (span / 100 * 5)%Q).
  { unfold py_min_20. destruct (Qltb 20 (span / 100 * 5)) eqn:E; [|reflexivity].
    unfold Qltb in E. apply negb_true_iff in E.
    apply Qle_bool_iff in Hcap. congruence. }
  rewrite Emin.
  assert (Espan : span == (max_freq config - min_freq config) / scale config)
    by (unfold span; field; exact Hscale).
  split; intros Hm.
  - assert (E0 : span / 100 * 5 == 0).
    { rewrite Espan, Hm. field. exact Hscale. }
    apply Qeq_bool_iff in E0. rewrite E0. reflexivity.
  - assert (Hs : ~ span == 0).
    { intros E. apply Hm.
      assert (E' : (max_freq config - min_freq config == span * scale config)%Q)
        by (unfold span; field; exact Hscale).
      rewrite E in E'. lra. }
    destruct (Qeq_bool (span / 100 * 5) 0) eqn:E0.
    { apply Qeq_bool_iff in E0. exfalso. apply Hs.
      assert (E' : (span == span / 100 * 5 * 20)%Q) by field.
      rewrite E', E0. ring. }
    f_equal.
    rewrite (np_round_comp _ (inject_Z 1)).
    + rewrite np_round_Z. reflexivity.
    + unfold config_base. change (inject_Z 20) with 20%Q. change (inject_Z 1) with 1%Q.
      field. exact Hs.
Qed.

Lemma major_tick_separator_is_base_witness :
  ~ scale example_config == 0 /\
  ((max_freq example_config / scale example_config
    - min_freq example_config / scale example_config) / 100 * 5 <= 20)%Q /\
  major_tick_separator example_config = Some 20%Z.
Proof.
  assert (H1 : ~ scale example_config == 0) by discriminate.
  assert (H2 : ((max_freq example_config / scale example_config
                 - min_freq example_config / scale example_config) / 100 * 5 <= 20)%Q)
    by discriminate.
  split; [exact H1|]. split; [exact H2|].
  apply (major_tick_separator_is_base example_config H1 H2). discriminate.
Defined.

(* ================================================================== *)
(** ** One batch, cell by cell *)

Lemma scatter_lookup (idx : list Z) :
  forall (row : list npfloat) (vals : list npfloat) (row' : list npfloat) (k : nat),
  scatter row idx vals = Ok row' ->
  length idx = length vals ->
  Forall (fun i => (0 <= i)%Z) idx ->
  row' !! k
  = match last (filter (fun p => fst p = Z.of_nat k) (zip idx vals)) with
    | Some p => Some (snd p)
    | None => row !! k
    end.
Proof.
  induction idx as [|i idx IH]; intros row vals row' k Hs Hlen Hpos.
  - destruct vals; simpl in Hs; injection Hs as <-; reflexivity.
  - destruct vals as [|v vals]; [discriminate|]. simpl in Hs.
    destruct (np_index (length row) i) as [k0|] eqn:Ei; [|discriminate].
    apply Forall_cons in Hpos as [Hi Hpos].
    assert (Ek0 : k0 = Z.to_nat i /\ (k0 < length row)%nat).
    { pose proof (np_index_Some _ _ _ Ei) as Hlt. split; [|exact Hlt].
      unfold np_index in Ei.
      destruct ((0 <=? i) && (i <? Z.of_nat (length row)))%Z eqn:E1.
      - injection Ei as <-. reflexivity.
      - destruct ((- Z.of_nat (length row) <=? i) && (i <? 0))%Z eqn:E2; [|discriminate].
        apply andb_true_iff in E2 as [_ E2]. apply Z.ltb_lt in E2. lia. }
    destruct Ek0 as [-> Hlt].
    rewrite (IH _ _ _ k Hs) by (simpl in Hlen; lia || exact Hpos).
    simpl zip. destruct (decide (i = Z.of_nat k)) as [->|Hne].
    + rewrite filter_cons_True by reflexivity.
      destruct (filter _ (zip idx vals)) as [|p l] eqn:Ef.
      * simpl. rewrite Nat2Z.id. apply list_lookup_insert_eq.
        rewrite Nat2Z.id in Hlt. exact Hlt.
      * rewrite last_cons_cons.
        destruct (last (p :: l)) eqn:El; [reflexivity|].
        apply last_None in El. discriminate.
    + rewrite filter_cons_False by exact Hne.
      destruct (last _); [reflexivity|].
      apply list_lookup_insert_ne. lia.
Qed.

Lemma last_filter_zip_map {A B D} (f : A -> B) (g : A -> D) (P : B -> Prop)
    `{forall b, Decision (P b)} (l : list A) :
  last (filter (fun p => P (fst p)) (zip (map f l) (map g l)))
  = (fun s => (f s, g s)) <$> last (filter (fun s => P (f s)) l).
Proof.
  assert (E : filter (fun p => P (fst p)) (zip (map f l) (map g l))
              = map (fun s => (f s, g s)) (filter (fun s => P (f s)) l)).
  { induction l as [|s l IH]; [reflexivity|]. simpl.
    destruct (decide (P (f s))) as [Hp|Hn].
    - rewrite !filter_cons_True by exact Hp. simpl. f_equal. exact IH.
    - rewrite !filter_cons_False by exact Hn. exact IH. }
  rewrite E. apply fmap_last.
Qed.

Lemma scatter_out_of_range (idx : list Z) :
  forall (row : list npfloat) (vals : list npfloat) (i : Z),
    length idx = length vals ->
    i ∈ idx -> np_index (length row) i = None ->
    scatter row idx vals = Raise IndexError.
Proof.
  induction idx as [|j idx IH]; intros row vals i Hlen Hin Hi.
  - inversion Hin.
  - destruct vals as [|v vals]; [discriminate|]. simpl.
    destruct (np_index (length row) j) as [k|] eqn:Ej; [|reflexivity].
    apply elem_of_cons in Hin as [->|Hin]; [congruence|].
    apply (IH _ _ i); [simpl in Hlen; lia|exact Hin|].
    rewrite length_insert. exact Hi.
Qed.

Lemma np_index_at_length (n : nat) : np_index n (Z.of_nat n) = None.
Proof.
  unfold np_index.
  destruct ((0 <=? Z.of_nat n) && (Z.of_nat n <? Z.of_nat n))%Z eqn:E1.
  { apply andb_true_iff in E1 as [_ E]. apply Z.ltb_lt in E. lia. }
  destruct ((- Z.of_nat n <=? Z.of_nat n) && (Z.of_nat n <? 0))%Z eqn:E2; [|reflexivity].
  apply andb_true_iff in E2 as [_ E]. apply Z.ltb_lt in E. lia.
Qed.

Lemma retained_length {A} (n : nat) (l : list A) : (length (retained n l) <= n)%nat.
Proof. unfold retained. rewrite length_drop. lia. Qed.

Lemma retained_app {A} (n : nat) (l l' : list A) :
  retained n (retained n l ++ l') = retained n (l ++ l').
Proof.
  unfold retained.
  destruct (decide (length l <= n)%nat) as [Hle|Hgt].
  - replace (length l - n)%nat with 0%nat by lia. rewrite drop_0. reflexivity.
  - rewrite !length_app, length_drop.
    replace (length l - (length l - n) + length l' - n)%nat with (length l') by lia.
    replace (length l + length l' - n)%nat with ((length l - n) + length l')%nat by lia.
    rewrite <- drop_drop.
    rewrite (drop_app_le l) by lia. reflexivity.
Qed.

Lemma retained_all {A} (n : nat) (l : list A) : (length l <= n)%nat -> retained n l = l.
Proof.
  intros Hl. unfold retained. replace (length l - n)%nat with 0%nat by lia. apply drop_0.
Qed.

Section BatchFacts.
Context {K C : Type} `{Countable K}.
Implicit Types (state : WaterfallState K C) (scan_df : list (sample K)).
#[local] Set Warnings "-clear-no-such-hyp".

Lemma batch_idx_nonneg (config : WaterfallConfig) (scan_df : list (sample K)) :
  (0 < freq_resolution config)%Q ->
  Forall (fun i => (0 <= i)%Z) (batch_idx config scan_df).
Proof.
  intros Hres. unfold batch_idx. apply Forall_fmap, Forall_forall. intros s Hs. simpl.
  unfold kept in Hs. apply list_elem_of_filter in Hs as [Hin _].
  unfold in_range in Hin. apply andb_true_iff in Hin as [H1 _].
  apply Qle_bool_iff in H1. unfold freq_idx.
  rewrite <- (np_round_Z 0). apply np_round_mono. apply Qdiv_nonneg; [lra|exact Hres].
Qed.

Lemma scatter_batch_lookup (config : WaterfallConfig) (width : nat)
    (scan_df : list (sample K)) (g : sample K -> npfloat) (row : list npfloat) (k : nat) :
  (0 < freq_resolution config)%Q ->
  scatter (replicate width NaN) (batch_idx config scan_df) (map g (kept config scan_df))
    = Ok row ->
  (k < width)%nat ->
  row !! k = Some (match last_sample_in_bin config k scan_df with
                   | Some s => g s
                   | None => NaN
                   end).
Proof.
  intros Hres Hs Hk.
  rewrite (scatter_lookup _ _ _ _ k Hs).
  - unfold batch_idx, last_sample_in_bin.
    pose proof (last_filter_zip_map (fun s => freq_idx config (freq s)) g
                  (fun i => i = Z.of_nat k) (kept config scan_df)) as E.
    cbv beta in E. rewrite E. clear E.
    destruct (last _) as [s|]; simpl; [reflexivity|].
    apply lookup_replicate_2. exact Hk.
  - unfold batch_idx. rewrite !length_map. reflexivity.
  - apply batch_idx_nonneg, Hres.
Qed.

(** X5. With a positive resolution, the row an ingested batch leaves in
    each matrix holds, in every bin, what the last in-range sample of
    that bin carries (its power, and its frequency rounded to the
    resolution); a bin without a sample is NaN.  Earlier samples of the
    same bin are overwritten. *)
Theorem batch_row_last_sample_wins config save_path state scan_configs scan_df
    state' log :
  (0 < freq_resolution config)%Q ->
  is_ingested config (scan_configs, scan_df) = true ->
  process_batch config save_path state scan_configs scan_df = Ok (state', log) ->
  exists db_row freq_row,
    last (db_data state') = Some db_row /\
    last (freq_data state') = Some freq_row /\
    (forall k, (k < length db_row)%nat ->
       db_row !! k = Some (match last_sample_in_bin config k scan_df with
                           | Some s => db s
                           | None => NaN
                           end)) /\
    (forall k, (k < length freq_row)%nat ->
       freq_row !! k = Some (match last_sample_in_bin config k scan_df with
                             | Some s => Fin (quantized_freq config (freq s))
                             | None => NaN
                             end)).
Proof.
  intros Hres Hin Hstep. apply is_ingested_kept in Hin. simpl in Hin.
  destruct (process_batch_ingested _ _ _ _ _ _ _ Hin Hstep)
    as (r0 & rest & q0 & qrest & db_row & freq_row & _ & _ & Hdb & Hfreq & Edb & Efreq & _).
  exists db_row, freq_row.
  rewrite Edb, Efreq, !last_snoc. split; [reflexivity|]. split; [reflexivity|].
  split; intros k Hk.
  - apply (scatter_batch_lookup config (length r0) scan_df db db_row k Hres Hdb).
    unfold db_row_of in Hdb. apply scatter_length in Hdb.
    rewrite length_replicate in Hdb. lia.
  - apply (scatter_batch_lookup config (length q0) scan_df
             (fun s => Fin (quantized_freq config (freq s))) freq_row k Hres Hfreq).
    unfold freq_row_of in Hfreq. apply scatter_length in Hfreq.
    rewrite length_replicate in Hfreq. lia.
Qed.

(** X8. When the span of the range is not a whole number of steps and
    rounds up (its fractional part is a half or more, ties to even), the
    grid has one bin less than the index of [max_freq]: a batch with a
    sample at [max_freq], which the range filter lets through, raises
    [IndexError] on a matrix of [num_bins] columns. *)
Theorem top_edge_sample_raises config save_path state scan_configs scan_df (s : sample K) :
  (0 < freq_resolution config)%Q ->
  (min_freq config <= max_freq config)%Q ->
  np_round ((max_freq config - min_freq config) / freq_resolution config)
  = (Qfloor ((max_freq config - min_freq config) / freq_resolution config) + 1)%Z ->
  (exists q0 rest, freq_data state = q0 :: rest /\ length q0 = Z.to_nat (num_bins config)) ->
  s ∈ scan_df -> freq s == max_freq config ->
  process_batch config save_path state scan_configs scan_df = Raise IndexError.
Proof.
  intros Hres Hmm Hround (q0 & qrest & Efreq & Hq0) Hs Hf.
  set (x := ((max_freq config - min_freq config) / freq_resolution config)%Q) in *.
  assert (Hx : (0 <= x)%Q) by (apply Qdiv_nonneg; [lra|exact Hres]).
  assert (Hfl : (0 <= Qfloor x)%Z).
  { change 0%Z with (Qfloor 0). apply Qfloor_resp_le, Hx. }
  assert (Hnb : num_bins config = (Qfloor x + 1)%Z).
  { unfold num_bins. fold x. rewrite py_int_nonneg by lra.
    apply (Qfloor_add_Z x 1). }
  assert (Hk : s ∈ kept config scan_df).
  { unfold kept. apply list_elem_of_filter. split; [|exact Hs].
    unfold in_range. apply andb_true_iff. split; apply Qle_bool_iff; rewrite Hf; lra. }
  unfold process_batch. fold (kept config scan_df).
  destruct (last (kept config scan_df)) as [s1|] eqn:El.
  2:{ apply last_None in El. rewrite El in Hk. inversion Hk. }
  rewrite Efreq, ingest_row_cons.
  rewrite (scatter_out_of_range _ _ _ (num_bins config)); [reflexivity| | |].
  - rewrite !length_map. reflexivity.
  - apply list_elem_of_fmap. exists s. split; [|exact Hk].
    unfold freq_idx. rewrite Hnb, <- Hround. apply np_round_comp.
    unfold x. rewrite Hf. reflexivity.
  - rewrite length_replicate, Hq0.
    rewrite <- (Z2Nat.id (num_bins config)) at 2 by lia.
    apply np_index_at_length.
Qed.


(** ** The retained scan times over a run *)

Lemma evict_oldest_times config save_path (times : list K) (history : gmap K C)
    (t : K) times' history' :
  evict_oldest config save_path (times ++ [t]) history = Ok (times', history') ->
  (length times <= waterfall_height config)%nat ->
  times' = retained (waterfall_height config) (times ++ [t]) /\
  (save_path = "" -> history' = history).
Proof.
  unfold evict_oldest, retained. rewrite length_app. simpl length.
  intros Hev Hlen.
  destruct (waterfall_height config <? length times + 1)%nat eqn:E.
  - apply Nat.ltb_lt in E.
    replace (length times + 1 - waterfall_height config)%nat with 1%nat by lia.
    destruct times as [|old rest]; simpl in Hev |- *.
    + destruct (String.eqb_spec save_path "") as [->|Hne].
      * injection Hev as <- <-. auto.
      * destruct (history !! t); [|discriminate]. injection Hev as <- <-.
        split; [reflexivity|]. intros; contradiction.
    + destruct (String.eqb_spec save_path "") as [->|Hne].
      * injection Hev as <- <-. auto.
      * destruct (history !! old); [|discriminate]. injection Hev as <- <-.
        split; [reflexivity|]. intros; contradiction.
  - apply Nat.ltb_ge in E. injection Hev as <- <-.
    replace (length times + 1 - waterfall_height config)%nat with 0%nat by lia.
    auto.
Qed.

Lemma process_batch_bookkeeping config save_path state scan_configs scan_df
    state' log (t : K) :
  batch_time config scan_df = Some t ->
  process_batch config save_path state scan_configs scan_df = Ok (state', log) ->
  (length (scan_times state) <= waterfall_height config)%nat ->
  scan_times state' = retained (waterfall_height config) (scan_times state ++ [t]) /\
  counter state' = S (counter state) /\
  previous_scan_config state' = previous_scan_config state /\
  freq_bins state' = freq_bins state /\
  log = [] /\
  (save_path = "" -> scan_config_history state' = scan_config_history state).
Proof.
  unfold batch_time, process_batch. fold (kept config scan_df).
  destruct (last (kept config scan_df)) as [s|] eqn:El; [|discriminate].
  simpl. intros Et. injection Et as <-.
  destruct (ingest_row (freq_data state) _ _) as [fd|]; [|discriminate].
  destruct (ingest_row (db_data state) _ _) as [dd|]; [|discriminate].
  simpl rbind at 1. simpl rbind at 1.
  destruct (evict_oldest _ _ _ _) as [[times history]|] eqn:Ev; [|discriminate].
  simpl. intros Hok Hlen. injection Hok as <- <-. simpl.
  destruct (evict_oldest_times _ _ _ _ _ _ _ Ev Hlen) as [Etimes Ehist].
  repeat split; try reflexivity; try assumption.
  intros ->. simpl. auto.
Qed.



Lemma process_batch_skipped_time config save_path state scan_configs scan_df :
  batch_time config scan_df = None ->
  process_batch config save_path state scan_configs scan_df
  = Ok (state, [OutsideRange (min_freq config) (max_freq config)]).
Proof.
  unfold batch_time, process_batch. fold (kept config scan_df).
  destruct (last (kept config scan_df)); [discriminate|reflexivity].
Qed.


(** X6. Over a run that completes, the retained scan times are a
    sliding window: the scan times of the ingested batches are appended
    in arrival order and only the newest [waterfall_height] are kept, so
    their number never exceeds the height. *)
Theorem scan_times_sliding_window config save_path state results state' log :
  process_batches config save_path state results = Ok (state', log) ->
  (length (scan_times state) <= waterfall_height config)%nat ->
  scan_times state'
    = retained (waterfall_height config) (scan_times state ++ new_times config results) /\
  (length (scan_times state') <= waterfall_height config)%nat.
Proof.
  revert state state' log.
  induction results as [|[scan_configs scan_df] rest IH]; intros state state' log Hrun Hlen.
  - simpl in Hrun. injection Hrun as <- <-. unfold new_times. simpl.
    rewrite app_nil_r. unfold retained.
    replace (length (scan_times state) - waterfall_height config)%nat with 0%nat by lia.
    rewrite drop_0. auto.
  - simpl in Hrun.
    destruct (process_batch config save_path state scan_configs scan_df)
      as [[state1 log1]|] eqn:Estep; [|discriminate].
    simpl in Hrun.
    destruct (process_batches config save_path state1 rest)
      as [[state2 log2]|] eqn:Erest; [|discriminate].
    simpl in Hrun. injection Hrun as <- <-.
    unfold new_times. simpl omap. fold (new_times config rest).
    destruct (batch_time config scan_df) as [t|] eqn:Et.
    + destruct (process_batch_bookkeeping _ _ _ _ _ _ _ _ Et Estep Hlen) as [Etimes _].
      assert (Hlen1 : (length (scan_times state1) <= waterfall_height config)%nat)
        by (rewrite Etimes; apply retained_length).
      destruct (IH _ _ _ Erest Hlen1) as [E2 L2]. split; [|exact L2].
      rewrite E2, Etimes, retained_app, <- app_assoc. reflexivity.
    + rewrite process_batch_skipped_time in Estep by exact Et.
      injection Estep as <- <-. exact (IH _ _ _ Erest Hlen).
Qed.


(** X9. With a save path, a batch that arrives when the window is full
    and the oldest retained scan time has no entry in the history raises
    [KeyError]: the entry is popped without a default.  Two batches with
    the same scan time lead there, the first eviction removing the entry
    both share. *)
Theorem stale_time_eviction_raises config save_path state scan_configs scan_df
    (n : Z) (t0 : K) (times : list K) :
  (0 < freq_resolution config)%Q ->
  (max_freq config - min_freq config) / freq_resolution config == inject_Z n ->
  (exists r0 rest, db_data state = r0 :: rest /\ length r0 = Z.to_nat (num_bins config)) ->
  (exists q0 rest, freq_data state = q0 :: rest /\ length q0 = Z.to_nat (num_bins config)) ->
  save_path <> "" ->
  is_ingested config (scan_configs, scan_df) = true ->
  scan_times state = t0 :: times ->
  (waterfall_height config <= length (scan_times state))%nat ->
  scan_config_history state !! t0 = None ->
  process_batch config save_path state scan_configs scan_df = Raise KeyError.
Proof.
  intros Hres Hn (r0 & rest & Edb & Hr0) (q0 & qrest & Efreq & Hq0) Hsave Hin Etimes Hfull Hmiss.
  apply is_ingested_kept in Hin. simpl in Hin.
  assert (Hidx : Forall (fun i => (0 <= i < num_bins config)%Z) (batch_idx config scan_df)).
  { unfold batch_idx. apply Forall_fmap, Forall_forall. intros s Hs. simpl.
    unfold kept in Hs. apply list_elem_of_filter in Hs as [Hs _].
    unfold in_range in Hs. apply andb_true_iff in Hs as [H1 H2].
    apply Qle_bool_iff in H1, H2. eapply freq_idx_in_bins; eassumption. }
  assert (Hpos : (0 <= num_bins config)%Z).
  { destruct (kept config scan_df) as [|s0 ks] eqn:Ek; [contradiction|].
    unfold batch_idx in Hidx. rewrite Ek in Hidx.
    apply Forall_cons in Hidx as [Hi _]. lia. }
  unfold process_batch. fold (kept config scan_df).
  destruct (last (kept config scan_df)) as [s|] eqn:El.
  2:{ apply last_None in El. contradiction. }
  fold (batch_idx config scan_df). rewrite Efreq, Edb.
  destruct (ingest_row_evicts_oldest q0 qrest (batch_idx config scan_df)
              (map (fun s => Fin (quantized_freq config (freq s))) (kept config scan_df)))
    as (frow & _ & ->).
  { rewrite Hq0, Z2Nat.id by lia. exact Hidx. }
  destruct (ingest_row_evicts_oldest r0 rest (batch_idx config scan_df)
              (map db (kept config scan_df))) as (drow & _ & ->).
  { rewrite Hr0, Z2Nat.id by lia. exact Hidx. }
  simpl rbind. unfold evict_oldest. rewrite length_app. simpl length.
  destruct (waterfall_height config <? length (scan_times state) + 1)%nat eqn:E.
  2:{ apply Nat.ltb_ge in E. lia. }
  rewrite Etimes. simpl.
  rewrite (String_eqb_false_ne _ Hsave), Hmiss. reflexivity.
Qed.


(** ** Runs that complete *)





(** With a save path, an ingested batch whose scan time is new leaves a
    history that tracks the retained times, holds the batch's config
    under its scan time, and retains no time that is not the batch's or
    was not retained before. *)
Lemma process_batch_history_step config save_path state scan_configs scan_df
    state' log (t : K) :
  save_path <> "" ->
  history_tracks state ->
  batch_time config scan_df = Some t ->
  t ∉ scan_times state ->
  process_batch config save_path state scan_configs scan_df = Ok (state', log) ->
  history_tracks state' /\
  last (scan_times state') = Some t /\
  scan_config_history state' !! t = Some scan_configs /\
  (forall x, x ∈ scan_times state' -> x ∈ scan_times state \/ x = t).
Proof.
  intros Hsave [Hnd Hdom] Et Hfresh. unfold batch_time in Et.
  destruct (last (kept config scan_df)) as [s|] eqn:El; [|discriminate].
  simpl in Et. injection Et as <-.
  unfold process_batch. fold (kept config scan_df). rewrite El.
  destruct (ingest_row (freq_data state) _ _) as [fd|]; [|discriminate].
  destruct (ingest_row (db_data state) _ _) as [dd|]; [|discriminate].
  simpl rbind at 1. simpl rbind at 1.
  destruct (evict_then_insert config save_path (scan_times state)
              (scan_config_history state) (ts s) scan_configs Hsave Hnd Hdom Hfresh)
    as [[Hlt Hev]|[[Hge (old & rest & Etimes & Hev)]|(_ & _ & Hev)]];
    rewrite Hev; [| |discriminate]; simpl;
    rewrite (String_eqb_false_ne _ Hsave); intros Hok; injection Hok as <- <-; simpl.
  - split; [split; simpl|].
    + apply NoDup_app. repeat split; [exact Hnd | | apply NoDup_singleton].
      intros x Hx Hx'. apply list_elem_of_singleton in Hx'. subst. contradiction.
    + rewrite dom_insert_L, list_to_set_app_L, Hdom. set_solver.
    + split; [apply last_snoc|]. split; [apply lookup_insert_eq|].
      intros x Hx. apply elem_of_app in Hx as [Hx|Hx]; [left; exact Hx|].
      right. apply list_elem_of_singleton in Hx. exact Hx.
  - rewrite Etimes in Hnd, Hdom, Hfresh.
    apply NoDup_cons in Hnd as [Hold Hnd].
    split; [split; simpl|].
    + apply NoDup_app. repeat split; [exact Hnd | | apply NoDup_singleton].
      intros x Hx Hx'. apply list_elem_of_singleton in Hx'. subst.
      apply Hfresh. right. exact Hx.
    + rewrite dom_insert_L, dom_delete_L, list_to_set_app_L, Hdom. set_solver.
    + split; [apply last_snoc|]. split; [apply lookup_insert_eq|].
      intros x Hx. rewrite Etimes. apply elem_of_app in Hx as [Hx|Hx].
      * left. right. exact Hx.
      * right. apply list_elem_of_singleton in Hx. exact Hx.
Qed.


(** X19. With a save path, after an ingested batch whose scan time is
    new on a tracked history, the scan configs of a waterfall snapshot
    are all there: the start entry is the oldest retained scan time with
    its config, the end entry the scan time and scan config of the batch
    just ingested. *)
Theorem snapshot_after_batch config save_path state scan_configs scan_df state' log (t : K) :
  save_path <> "" ->
  history_tracks state ->
  batch_time config scan_df = Some t ->
  t ∉ scan_times state ->
  process_batch config save_path state scan_configs scan_df = Ok (state', log) ->
  exists t0 c0,
    head (scan_times state') = Some t0 /\
    scan_config_history state' !! t0 = Some c0 /\
    save_scan_configs state' = Ok (t0, c0, t, scan_configs).
Proof.
  intros Hsave Htr Et Hfresh Hstep.
  destruct (process_batch_history_step _ _ _ _ _ _ _ _ Hsave Htr Et Hfresh Hstep)
    as ([Hnd Hdom] & Hlast & Hcfg & _).
  destruct (scan_times state') as [|t0 times] eqn:Etimes; [discriminate|].
  assert (Hin : t0 ∈ dom (scan_config_history state')).
  { rewrite Hdom. set_solver. }
  apply elem_of_dom in Hin as [c0 Hc0].
  exists t0, c0. split; [reflexivity|]. split; [exact Hc0|].
  unfold save_scan_configs. rewrite Etimes. simpl head. simpl.
  rewrite Hc0. simpl. rewrite Hlast. simpl. rewrite Hcfg. reflexivity.
Qed.

End BatchFacts.


(** ** The ticks of the time axis *)

Lemma shift_ticks_app (js1 js2 : list nat) :
  forall y_ticks y_labels,
    shift_ticks (js1 ++ js2) y_ticks y_labels
    = rbind (shift_ticks js1 y_ticks y_labels)
            (fun r => shift_ticks js2 (fst r) (snd r)).
Proof.
  induction js1 as [|j js1 IH]; intros y_ticks y_labels; [reflexivity|].
  simpl. destruct (y_ticks !! j) as [y|]; [|reflexivity].
  destruct (y - 1 <? 1)%Z; [|apply IH].
  destruct (j <? length y_labels)%nat; [apply IH|reflexivity].
Qed.

(** Ticks that stay on the axis only move. *)
Lemma shift_ticks_keep (pre : list Z) :
  forall (front suf : list Z) (y_labels : list string),
    Forall (fun y => (2 <= y)%Z) pre ->
    shift_ticks (rev (seq (length front) (length pre))) (front ++ pre ++ suf) y_labels
    = Ok (front ++ map (fun y => (y - 1)%Z) pre ++ suf, y_labels).
Proof.
  induction pre as [|y pre IH] using rev_ind; intros front suf y_labels Hall.
  - reflexivity.
  - apply Forall_app in Hall as [Hpre Hy]. rewrite Forall_singleton in Hy.
    rewrite length_app. simpl length. rewrite seq_app, rev_app_distr. simpl rev.
    simpl app at 1. cbn [shift_ticks].
    assert (Es : front ++ (pre ++ [y]) ++ suf = (front ++ pre) ++ y :: suf).
    { rewrite <- !app_assoc. reflexivity. }
    rewrite Es, list_lookup_middle by (rewrite length_app; reflexivity).
    destruct (y - 1 <? 1)%Z eqn:E; [apply Z.ltb_lt in E; lia|].
    assert (Ei : <[(length front + length pre)%nat := (y - 1)%Z]> ((front ++ pre) ++ y :: suf)
                 = front ++ pre ++ ((y - 1)%Z :: suf)).
    { rewrite <- length_app, list_insert_middle || rewrite insert_app_r_alt by (rewrite length_app; lia).
      all: rewrite <- ?app_assoc; try reflexivity.
      rewrite length_app. replace (length front + length pre - (length front + length pre))%nat with 0%nat by lia.
      reflexivity. }
    rewrite Ei, (IH front ((y - 1)%Z :: suf) y_labels Hpre).
    rewrite map_app, <- !app_assoc. reflexivity.
Qed.

Lemma pred_seqZ (m n : Z) : map (fun y => (y - 1)%Z) (seqZ m n) = seqZ (m - 1) n.
Proof.
  replace (m - 1)%Z with (-1 + m)%Z by lia.
  rewrite <- fmap_add_seqZ. apply list_fmap_ext. intros i x _. lia.
Qed.

(** X11. The ticks follow the rows: when the ticks are the positions of
    the [n] newest rows, with one label each, the bookkeeping of a new
    row returns the positions of the newest [min (n + 1) height] rows and
    the labels of exactly these rows, the new one last; at full height
    the tick that leaves the axis and its label go together. *)
Theorem ticks_follow_rows (config : WaterfallConfig) (label : string) (n : nat)
    (y_labels : list string) :
  (0 < waterfall_height config)%nat ->
  (n <= waterfall_height config)%nat ->
  length y_labels = n ->
  advance_ticks config label (tick_positions (waterfall_height config) n) y_labels
  = Ok (tick_positions (waterfall_height config) (Nat.min (S n) (waterfall_height config)),
        retained (waterfall_height config) (y_labels ++ [label])).
Proof.
  unfold advance_ticks. generalize (waterfall_height config). intros h Hh Hn Hlen.
  assert (Hlt : length (tick_positions h n) = n).
  { unfold tick_positions. rewrite length_seqZ. lia. }
  rewrite length_app, Hlt. simpl length.
  replace (n + 1 - 1)%nat with n by lia.
  destruct (decide (n < h)%nat) as [Hlt_h|Hfull].
  - pose proof (shift_ticks_keep (tick_positions h n) [] [Z.of_nat h]
                  (y_labels ++ [label])) as Hk.
    simpl length in Hk. rewrite Hlt in Hk. simpl app in Hk. rewrite Hk.
    2:{ unfold tick_positions. apply Forall_seqZ. intros y Hy. lia. }
    f_equal. f_equal.
    + replace (Nat.min (S n) h) with (S n) by lia.
      unfold tick_positions. rewrite pred_seqZ.
      replace (Z.of_nat (S n)) with (Z.of_nat n + 1)%Z by lia.
      rewrite seqZ_app by lia.
      replace (Z.of_nat h - Z.of_nat n + 1 - 1)%Z with (Z.of_nat h - (Z.of_nat n + 1) + 1)%Z
        by lia.
      f_equal. replace (Z.of_nat h - (Z.of_nat n + 1) + 1 + Z.of_nat n)%Z with (Z.of_nat h)
        by lia.
      reflexivity.
    + symmetry. apply retained_all. rewrite length_app. simpl. lia.
  - destruct n as [|k]; [lia|]. assert (En : h = S k) by lia. subst h.
    assert (Et : tick_positions (S k) (S k) = 1%Z :: seqZ 2 (Z.of_nat k)).
    { unfold tick_positions. rewrite seqZ_cons by lia. f_equal; [lia|]. f_equal; lia. }
    replace (Nat.min (S (S k)) (S k)) with (S k) by lia.
    rewrite Et at 1. change (seq 0 (S k)) with (0%nat :: seq 1 k). simpl rev.
    rewrite shift_ticks_app.
    pose proof (shift_ticks_keep (seqZ 2 (Z.of_nat k)) [1%Z] [Z.of_nat (S k)]
                  (y_labels ++ [label])) as Hk.
    rewrite length_seqZ, Nat2Z.id in Hk. simpl length in Hk.
    change ([1%Z] ++ seqZ 2 (Z.of_nat k) ++ [Z.of_nat (S k)])
      with ((1%Z :: seqZ 2 (Z.of_nat k)) ++ [Z.of_nat (S k)]) in Hk.
    rewrite Hk.
    2:{ apply Forall_seqZ. intros y Hy. lia. }
    simpl rbind. cbn [shift_ticks fst snd]. simpl lookup.
    change (1 - 1 <? 1)%Z with true. cbv iota.
    destruct (0 <? length (y_labels ++ [label]))%nat eqn:El.
    2:{ apply Nat.ltb_ge in El. rewrite length_app in El. simpl in El. lia. }
    simpl. f_equal. f_equal.
    + rewrite pred_seqZ.
      unfold tick_positions.
      replace (Z.of_nat (S k)) with (Z.of_nat k + 1)%Z by lia.
      rewrite seqZ_app by lia.
      replace (Z.of_nat k + 1 - (Z.of_nat k + 1) + 1)%Z with (2 - 1)%Z by lia.
      f_equal. replace (2 - 1 + Z.of_nat k)%Z with (Z.of_nat k + 1)%Z by lia. reflexivity.
    + unfold retained. rewrite length_app, Hlen. simpl length.
      replace (S k + 1 - S k)%nat with 1%nat by lia.
      destruct y_labels; reflexivity.
Qed.


(** ** The colour scale *)

Lemma foldl_fmin_spec (l : list npfloat) :
  forall acc, finite_or_nan acc -> Forall finite_or_nan l ->
    match foldl np_fmin acc l with
    | NaN => acc = NaN /\ Forall (fun x => x = NaN) l
    | Fin m => Fin m ∈ acc :: l /\ forall q, Fin q ∈ acc :: l -> (m <= q)%Q
    | Inf _ => False
    end.
Proof.
  induction l as [|x l IH]; intros acc Hacc Hl; simpl.
  - destruct acc as [| |m]; [auto|contradiction|].
    split; [apply list_elem_of_here|].
    intros q Hq. apply list_elem_of_singleton in Hq. injection Hq as ->. lra.
  - apply Forall_cons in Hl as [Hx Hl].
    assert (Hf : finite_or_nan (np_fmin acc x)).
    { destruct acc as [| |p], x as [| |q]; simpl in *; try contradiction; try exact I.
      destruct (Qle_bool p q); exact I. }
    specialize (IH _ Hf Hl).
    destruct (foldl np_fmin (np_fmin acc x) l) as [| |m]; [|contradiction|].
    + destruct IH as [E Hall].
      destruct acc as [| |p], x as [| |q]; simpl in *; try contradiction; try discriminate.
      * auto.
      * destruct (Qle_bool p q); discriminate.
    + destruct IH as [Hin Hmin]. split.
      * apply elem_of_cons in Hin as [E|Hin].
        -- destruct acc as [| |p], x as [| |q]; simpl in *; try contradiction;
             try discriminate.
           ++ rewrite E. apply list_elem_of_further, list_elem_of_here.
           ++ rewrite E. apply list_elem_of_here.
           ++ destruct (Qle_bool p q); rewrite E;
                [apply list_elem_of_here|apply list_elem_of_further, list_elem_of_here].
        -- do 2 apply list_elem_of_further. exact Hin.
      * intros q0 Hq.
        assert (Hm : forall r, np_fmin acc x = Fin r -> (m <= r)%Q).
        { intros r Er. apply Hmin. rewrite Er. apply list_elem_of_here. }
        apply elem_of_cons in Hq as [<-|Hq].
        -- destruct x as [| |q]; simpl in *; [apply Hm; reflexivity|contradiction|].
           destruct (Qle_bool q0 q) eqn:E; [apply Hm; reflexivity|].
           specialize (Hm _ eq_refl).
           destruct (Qlt_le_dec q q0) as [Hlt|Hle]; [lra|].
           apply Qle_bool_iff in Hle. congruence.
        -- apply elem_of_cons in Hq as [<-|Hq].
           ++ destruct acc as [| |p]; simpl in *; [apply Hm; reflexivity|contradiction|].
              destruct (Qle_bool p q0) eqn:E.
              ** specialize (Hm _ eq_refl). apply Qle_bool_iff in E. lra.
              ** apply Hm. reflexivity.
           ++ apply Hmin. apply list_elem_of_further. exact Hq.
Qed.

Lemma foldl_fmax_spec (l : list npfloat) :
  forall acc, finite_or_nan acc -> Forall finite_or_nan l ->
    match foldl np_fmax acc l with
    | NaN => acc = NaN /\ Forall (fun x => x = NaN) l
    | Fin m => Fin m ∈ acc :: l /\ forall q, Fin q ∈ acc :: l -> (q <= m)%Q
    | Inf _ => False
    end.
Proof.
  induction l as [|x l IH]; intros acc Hacc Hl; simpl.
  - destruct acc as [| |m]; [auto|contradiction|].
    split; [apply list_elem_of_here|].
    intros q Hq. apply list_elem_of_singleton in Hq. injection Hq as ->. lra.
  - apply Forall_cons in Hl as [Hx Hl].
    assert (Hf : finite_or_nan (np_fmax acc x)).
    { destruct acc as [| |p], x as [| |q]; simpl in *; try contradiction; try exact I.
      destruct (Qle_bool p q); exact I. }
    specialize (IH _ Hf Hl).
    destruct (foldl np_fmax (np_fmax acc x) l) as [| |m]; [|contradiction|].
    + destruct IH as [E Hall].
      destruct acc as [| |p], x as [| |q]; simpl in *; try contradiction; try discriminate.
      * auto.
      * destruct (Qle_bool p q); discriminate.
    + destruct IH as [Hin Hmax]. split.
      * apply elem_of_cons in Hin as [E|Hin].
        -- destruct acc as [| |p], x as [| |q]; simpl in *; try contradiction;
             try discriminate.
           ++ rewrite E. apply list_elem_of_further, list_elem_of_here.
           ++ rewrite E. apply list_elem_of_here.
           ++ destruct (Qle_bool p q); rewrite E;
                [apply list_elem_of_further, list_elem_of_here|apply list_elem_of_here].
        -- do 2 apply list_elem_of_further. exact Hin.
      * intros q0 Hq.
        assert (Hm : forall r, np_fmax acc x = Fin r -> (r <= m)%Q).
        { intros r Er. apply Hmax. rewrite Er. apply list_elem_of_here. }
        apply elem_of_cons in Hq as [<-|Hq].
        -- destruct x as [| |q]; simpl in *; [apply Hm; reflexivity|contradiction|].
           destruct (Qle_bool q0 q) eqn:E; [|apply Hm; reflexivity].
           specialize (Hm _ eq_refl). apply Qle_bool_iff in E. lra.
        -- apply elem_of_cons in Hq as [<-|Hq].
           ++ destruct acc as [| |p]; simpl in *; [apply Hm; reflexivity|contradiction|].
              destruct (Qle_bool p q0) eqn:E; [apply Hm; reflexivity|].
              specialize (Hm _ eq_refl).
              destruct (Qlt_le_dec q0 p) as [Hlt|Hle]; [lra|].
              apply Qle_bool_iff in Hle. congruence.
           ++ apply Hmax. apply list_elem_of_further. exact Hq.
Qed.

Lemma Forall_concat_cells {A} (P : A -> Prop) (ls : list (list A)) :
  Forall (Forall P) ls -> Forall P (concat ls).
Proof.
  induction 1 as [|l ls Hl _ IH]; simpl; [constructor|].
  apply Forall_app. auto.
Qed.

(** X12. Without [plot_snr], on a buffer of powers and NaN cells:
    when the buffer holds two different powers, every power is scaled
    into the interval from 0 to 1 and every NaN cell stays NaN; when it
    does not (no sample yet, or one power throughout), the scale
    degenerates and every cell is NaN. *)
Theorem db_norm_scales_to_unit (config : WaterfallConfig)
    (db_data out : list (list npfloat)) :
  plot_snr config = false ->
  Forall (Forall finite_or_nan) db_data ->
  db_norm config db_data = Ok out ->
  ((exists p q, Fin p ∈ concat db_data /\ Fin q ∈ concat db_data /\ (p < q)%Q) ->
   Forall2 (Forall2 scaled_cell) db_data out) /\
  ((forall p q, Fin p ∈ concat db_data -> Fin q ∈ concat db_data -> p == q) ->
   length out = length db_data /\ Forall (Forall (fun y => y = NaN)) out).
Proof.
  intros Hsnr Hcells. unfold db_norm. rewrite Hsnr.
  pose proof (Forall_concat_cells _ _ Hcells) as Hflat.
  destruct (concat db_data) as [|x l] eqn:Ec; [discriminate|].
  apply Forall_cons in Hflat as [Hx Hl].
  simpl. intros Hok. injection Hok as <-.
  pose proof (foldl_fmin_spec l x Hx Hl) as Hmin.
  pose proof (foldl_fmax_spec l x Hx Hl) as Hmax.
  set (f := fun x0 => np_div (np_sub x0 (foldl np_fmin x l))
                        (np_sub (foldl np_fmax x l) (foldl np_fmin x l))).
  assert (Hin : forall row c, row ∈ db_data -> c ∈ row -> c ∈ x :: l).
  { intros row c Hrow Hc. rewrite <- Ec. apply list_elem_of_In, in_concat.
    exists row. split; apply list_elem_of_In; assumption. }
  assert (Hfon : forall c, c ∈ x :: l -> finite_or_nan c).
  { intros c Hc. apply elem_of_cons in Hc as [->|Hc]; [exact Hx|].
    rewrite Forall_forall in Hl. apply Hl, Hc. }
  split.
  - intros (p & q & Hp & Hq & Hpq).
    destruct (foldl np_fmin x l) as [| |m] eqn:Em; [|contradiction|].
    { destruct Hmin as [-> Hall]. rewrite Forall_forall in Hall.
      apply elem_of_cons in Hp as [Hp|Hp]; [discriminate|].
      specialize (Hall _ Hp). discriminate. }
    destruct (foldl np_fmax x l) as [| |M] eqn:EM; [|contradiction|].
    { destruct Hmax as [-> Hall]. rewrite Forall_forall in Hall.
      apply elem_of_cons in Hp as [Hp|Hp]; [discriminate|].
      specialize (Hall _ Hp). discriminate. }
    destruct Hmin as [_ Hmin]. destruct Hmax as [_ Hmax].
    assert (HmM : (m < M)%Q).
    { pose proof (Hmin _ Hp). pose proof (Hmax _ Hq). lra. }
    apply Forall2_fmap_r, Forall_Forall2_diag, Forall_forall. intros row Hrow.
    apply Forall2_fmap_r, Forall_Forall2_diag, Forall_forall. intros c Hc.
    pose proof (Hin _ _ Hrow Hc) as Hcin.
    unfold f. destruct c as [| |v]; simpl; [reflexivity|destruct (Hfon _ Hcin)|].
    destruct (Qeq_bool (M - m) 0) eqn:E0.
    { apply Qeq_bool_iff in E0. lra. }
    exists ((v - m) / (M - m))%Q. split; [reflexivity|].
    pose proof (Hmin _ Hcin). pose proof (Hmax _ Hcin).
    split.
    + apply Qle_shift_div_l; lra.
    + apply Qle_shift_div_r; lra.
  - intros Hsame. split; [apply length_map|].
    apply Forall_fmap, Forall_forall. intros row Hrow.
    apply Forall_fmap, Forall_forall. intros c Hc. simpl.
    pose proof (Hin _ _ Hrow Hc) as Hcin. fold (f c). unfold f.
    destruct (foldl np_fmin x l) as [| |m] eqn:Em; [|contradiction|].
    { destruct c; reflexivity. }
    destruct (foldl np_fmax x l) as [| |M] eqn:EM; [|contradiction|].
    { destruct c; reflexivity. }
    destruct Hmin as [Hm _]. destruct Hmax as [HM _].
    destruct c as [| |v]; simpl; [reflexivity|destruct (Hfon _ Hcin)|].
    pose proof (Hsame _ _ Hm HM) as E1. pose proof (Hsame _ _ Hcin Hm) as E2.
    assert (E0 : Qeq_bool (M - m) 0 = true) by (apply Qeq_bool_iff; lra).
    assert (E3 : Qeq_bool (v - m) 0 = true) by (apply Qeq_bool_iff; lra).
    rewrite E0, E3. reflexivity.
Qed.


(** ** Examples on the small waterfall *)

(** Two samples in bin 0: the later one, at -80 dB, is the one kept. *)
Lemma batch_row_last_sample_wins_witness :
  (0 < freq_resolution small_config)%Q /\
  is_ingested small_config ("A", crowded_batch) = true /\
  exists state' log,
    process_batch small_config "" small_state "A" crowded_batch = Ok (state', log) /\
    last (db_data state') = Some [Fin (-80); NaN; Fin (-95)] /\
    last (freq_data state') = Some [Fin 100; NaN; Fin 102].
Proof.
  assert (H1 : (0 < freq_resolution small_config)%Q) by reflexivity.
  assert (H2 : is_ingested small_config ("A", crowded_batch) = true) by reflexivity.
  split; [exact H1|]. split; [exact H2|].
  eexists _, _. split; [vm_compute; reflexivity|].
  match goal with |- last (db_data ?st) = _ /\ _ =>
    destruct (batch_row_last_sample_wins small_config "" small_state "A" crowded_batch
                st [] H1 H2 eq_refl) as (db_row & freq_row & _ & _ & _ & _)
  end.
  split; reflexivity.
Defined.

(** Four ingested batches on three rows: the scan times 2, 3 and 4 remain. *)
Lemma scan_times_sliding_window_witness :
  (length (scan_times small_state) <= waterfall_height small_config)%nat /\
  exists state' log,
    process_batches small_config "" small_state four_scans = Ok (state', log) /\
    scan_times state' = [2; 3; 4]%Z.
Proof.
  assert (H1 : (length (scan_times small_state) <= waterfall_height small_config)%nat)
    by (vm_compute; lia).
  split; [exact H1|].
  eexists _, _. split; [vm_compute; reflexivity|].
  match goal with |- scan_times ?st = _ =>
    destruct (scan_times_sliding_window small_config "" small_state four_scans st _
                eq_refl H1) as [E _]
  end.
  rewrite E. reflexivity.
Defined.


(** 100 to 101.6 MHz in steps of 1 MHz: two bins, and a sample at 101.6 MHz
    in bin 2. *)
Lemma top_edge_sample_raises_witness :
  (0 < freq_resolution ragged_config)%Q /\
  (min_freq ragged_config <= max_freq ragged_config)%Q /\
  num_bins ragged_config = 2%Z /\
  freq_idx ragged_config (max_freq ragged_config) = 2%Z /\
  process_batch ragged_config "" ragged_state "A"
    [ {| freq := 1016 # 10; db := Fin (-90); ts := 1%Z |} ] = Raise IndexError.
Proof.
  split; [reflexivity|]. split; [discriminate|]. split; [reflexivity|].
  split; [reflexivity|].
  apply (top_edge_sample_raises ragged_config "" ragged_state "A" _
           {| freq := 1016 # 10; db := Fin (-90); ts := 1%Z |}).
  - reflexivity.
  - discriminate.
  - reflexivity.
  - eexists _, _. split; reflexivity.
  - apply list_elem_of_here.
  - reflexivity.
Defined.

(** After the batches with the scan times 7, 7, 8 and 9 on three rows the
    first 7 is gone and its entry with it; the next batch fails. *)
Lemma stale_time_eviction_raises_witness :
  scan_times stale_state = [7; 8; 9]%Z /\
  scan_config_history stale_state !! 7%Z = None /\
  process_batch small_config "out" stale_state "A"
    [ {| freq := 101; db := Fin (-94); ts := 10%Z |} ] = Raise KeyError.
Proof.
  split; [reflexivity|]. split; [reflexivity|].
  apply (stale_time_eviction_raises small_config "out" stale_state "A" _ 2 7%Z [8; 9]%Z).
  - reflexivity.
  - reflexivity.
  - eexists _, _. split; reflexivity.
  - eexists _, _. split; reflexivity.
  - discriminate.
  - reflexivity.
  - reflexivity.
  - vm_compute. lia.
  - reflexivity.
Defined.


(** After the first batch both ends of the snapshot are that batch. *)
Lemma snapshot_after_batch_witness :
  exists state' log,
    process_batch small_config "out" small_state "A"
      [ {| freq := 100; db := Fin (-90); ts := 1%Z |} ] = Ok (state', log) /\
    save_scan_configs state' = Ok (1%Z, "A", 1%Z, "A").
Proof.
  eexists _, _. split; [vm_compute; reflexivity|].
  match goal with |- save_scan_configs ?st = _ =>
    destruct (snapshot_after_batch small_config "out" small_state "A"
                [ {| freq := 100; db := Fin (-90); ts := 1%Z |} ] st [] 1%Z)
      as (t0 & c0 & _ & _ & _)
  end.
  - discriminate.
  - split; [apply NoDup_nil_2 | reflexivity].
  - reflexivity.
  - apply not_elem_of_nil.
  - reflexivity.
  - reflexivity.
Defined.

(** Three ticks on three rows: the labelled tick at position 1 leaves. *)
Lemma ticks_follow_rows_witness :
  advance_ticks small_config "12:00:03" [1; 2; 3]%Z ["12:00:00"; ""; ""]
  = Ok ([1; 2; 3]%Z, [""; ""; "12:00:03"]).
Proof.
  apply (ticks_follow_rows small_config "12:00:03" 3 ["12:00:00"; ""; ""]).
  - vm_compute. lia.
  - vm_compute. lia.
  - reflexivity.
Defined.

(** Powers from -90 to -70 dB: -90 becomes 0, -70 becomes 1, -80 a half. *)
Lemma db_norm_scales_to_unit_witness :
  plot_snr small_config = false /\
  Forall (Forall finite_or_nan) two_rows /\
  exists out,
    db_norm small_config two_rows = Ok out /\
    Forall2 (Forall2 scaled_cell) two_rows out /\
    Forall2 (Forall2 (fun y z => match y, z with
                                 | Fin v, Fin w => v == w
                                 | NaN, NaN => True
                                 | _, _ => False
                                 end))
      out [[Fin 0; NaN]; [Fin 1; Fin (1 # 2)]].
Proof.
  assert (H1 : plot_snr small_config = false) by reflexivity.
  assert (H2 : Forall (Forall finite_or_nan) two_rows) by (repeat constructor).
  split; [exact H1|]. split; [exact H2|].
  eexists. split; [vm_compute; reflexivity|].
  match goal with |- Forall2 _ _ ?o /\ _ =>
    destruct (db_norm_scales_to_unit small_config two_rows o H1 H2 eq_refl) as [Hscale _]
  end.
  split.
  - apply Hscale. exists (-90)%Q, (-70)%Q. split; [|split]; [| |reflexivity].
    + apply list_elem_of_here.
    + do 2 apply list_elem_of_further. apply list_elem_of_here.
  - repeat constructor.
Defined.

(* ================================================================== *)
(** ** The containment filter, again *)

Lemma select_all {A} (mask : list bool) (a : list A) :
  Forall (fun b => b = true) mask -> length mask = length a -> select mask a = a.
Proof.
  revert a. induction mask as [|b mask IH]; intros [|x a] Hall Hlen;
    simpl in *; try reflexivity; try discriminate.
  apply Forall_cons in Hall as [-> Hall]. f_equal. apply IH; [exact Hall|lia].
Qed.

Lemma select_sublist {A} (mask : list bool) (a : list A) : sublist (select mask a) a.
Proof.
  revert a. induction mask as [|b mask IH]; intros [|x a]; simpl;
    try apply sublist_nil_l.
  destruct b; [apply sublist_skip|apply sublist_cons]; apply IH.
Qed.

(** Among the candidates that stay, none contains another: filtering them
    again keeps them all. *)
Lemma spec_keep_mask_selected (left right : list Q) :
  Forall (fun b => b = true)
    (spec_keep_mask (select (spec_keep_mask left right) left)
                    (select (spec_keep_mask left right) right)).
Proof.
  unfold spec_keep_mask at 1. rewrite select_zip.
  unfold spec_keep_mask. rewrite select_map_filter.
  apply Forall_fmap, Forall_forall. intros a Ha. simpl.
  apply list_elem_of_filter in Ha as [Hstay Ha].
  apply negb_true_iff in Hstay. apply negb_true_iff.
  destruct (existsb _ (filter _ _)) eqn:E; [|reflexivity].
  apply existsb_nested_True in E as (b & Hb & Hn).
  apply list_elem_of_filter in Hb as [_ Hb].
  assert (Et : existsb (nestedb a) (zip left right) = true).
  { apply existsb_nested_True. eauto. }
  congruence.
Qed.

(** A candidate with the least left bound lies inside no other. *)
Lemma leftmost_stays (l : list (Q * Q)) :
  l <> [] -> exists a, a ∈ l /\ stays l a = true.
Proof.
  intros Hne.
  assert (Hmin : exists a, a ∈ l /\ forall b, b ∈ l -> (fst a <= fst b)%Q).
  { induction l as [|x l IH]; [contradiction|].
    destruct l as [|y l'].
    - exists x. split; [apply list_elem_of_here|].
      intros b Hb. apply list_elem_of_singleton in Hb. subst. lra.
    - destruct IH as (a & Ha & Hmin); [discriminate|].
      destruct (Qlt_le_dec (fst x) (fst a)) as [Hlt|Hle].
      + exists x. split; [apply list_elem_of_here|].
        intros b Hb. apply elem_of_cons in Hb as [->|Hb]; [lra|].
        specialize (Hmin _ Hb). lra.
      + exists a. split; [apply list_elem_of_further, Ha|].
        intros b Hb. apply elem_of_cons in Hb as [->|Hb]; [exact Hle|].
        apply Hmin, Hb. }
  destruct Hmin as (a & Ha & Hmin). exists a. split; [exact Ha|].
  unfold stays. apply negb_true_iff.
  destruct (existsb (nestedb a) l) eqn:E; [|reflexivity].
  apply existsb_nested_True in E as (b & Hb & Hn).
  apply nestedb_spec in Hn as [Hn _]. specialize (Hmin _ Hb). lra.
Qed.

Lemma filter_peaks_shape (peaks : list Z) (props : properties) (left right : list Q) :
  map_Forall (fun _ (a : list Q) => length a = length peaks) props ->
  map_Forall (fun _ (a : list Q) =>
                length a = length (select (spec_keep_mask left right) peaks))
    (select (spec_keep_mask left right) <$> props).
Proof.
  intros Hshape k a Ha. apply lookup_fmap_Some in Ha as (a0 & <- & Ha0). simpl.
  apply select_length_eq. exact (Hshape _ _ Ha0).
Qed.

(** X13. [filter_peaks] is idempotent: on candidates whose property
    arrays all have the length of [peaks], filtering what the filter
    returned returns it unchanged. *)
Theorem filter_peaks_idempotent (peaks : list Z) (props : properties) (left right : list Q) :
  props !! "left_ips" = Some left ->
  props !! "right_ips" = Some right ->
  map_Forall (fun _ (a : list Q) => length a = length peaks) props ->
  exists peaks' props',
    filter_peaks peaks props = Ok (peaks', props') /\
    filter_peaks peaks' props' = Ok (peaks', props').
Proof.
  intros Hleft Hright Hshape.
  set (mask := spec_keep_mask left right).
  exists (select mask peaks), (select mask <$> props).
  split; [apply (filter_peaks_mask peaks props left right); assumption|].
  rewrite (filter_peaks_mask (select mask peaks) (select mask <$> props)
             (select mask left) (select mask right)).
  - assert (Hall : forall (A : Type) (a : list A),
               length a = length peaks ->
               select (spec_keep_mask (select mask left) (select mask right))
                 (select mask a) = select mask a).
    { intros A a Ha. apply select_all; [apply spec_keep_mask_selected|].
      unfold spec_keep_mask at 1. rewrite length_map, select_zip.
      apply select_length_eq.
      rewrite (bounds_length peaks props left right Hleft Hright Hshape). symmetry. exact Ha. }
    f_equal. f_equal.
    + apply Hall. reflexivity.
    + rewrite <- map_fmap_compose. apply map_fmap_ext. intros k a Ha. simpl.
      apply Hall. exact (Hshape _ _ Ha).
  - rewrite lookup_fmap, Hleft. reflexivity.
  - rewrite lookup_fmap, Hright. reflexivity.
  - apply filter_peaks_shape, Hshape.
Qed.

(** X14. On such candidates [filter_peaks] only removes: the peaks it
    returns are a sublist of the input, every property array is a
    sublist of the array it had under the same key, no key is added or
    lost, all arrays still have the length of the peaks, and a non-empty
    input never comes back empty. *)
Theorem filter_peaks_keeps_aligned_sublist (peaks : list Z) (props : properties)
    (left right : list Q) :
  props !! "left_ips" = Some left ->
  props !! "right_ips" = Some right ->
  map_Forall (fun _ (a : list Q) => length a = length peaks) props ->
  exists peaks' props',
    filter_peaks peaks props = Ok (peaks', props') /\
    sublist peaks' peaks /\
    dom props' = dom props /\
    map_Forall (fun _ (a : list Q) => length a = length peaks') props' /\
    (forall k a, props !! k = Some a ->
       exists a', props' !! k = Some a' /\ sublist a' a) /\
    (peaks <> [] -> peaks' <> []).
Proof.
  intros Hleft Hright Hshape.
  set (mask := spec_keep_mask left right).
  exists (select mask peaks), (select mask <$> props).
  split; [apply (filter_peaks_mask peaks props left right); assumption|].
  split; [apply select_sublist|].
  split; [apply dom_fmap_L|].
  split; [apply filter_peaks_shape, Hshape|].
  split.
  - intros k a Ha. exists (select mask a). rewrite lookup_fmap, Ha.
    split; [reflexivity|apply select_sublist].
  - intros Hne Hnil.
    assert (Hb : zip left right <> []).
    { intros E. apply (f_equal length) in E.
      rewrite (bounds_length peaks props left right Hleft Hright Hshape) in E.
      destruct peaks; [contradiction|discriminate]. }
    destruct (leftmost_stays _ Hb) as (a & Ha & Hstay).
    assert (Hin : a ∈ select mask (zip left right)).
    { unfold mask, spec_keep_mask. rewrite select_map_filter.
      apply list_elem_of_filter. split; [exact Hstay|exact Ha]. }
    assert (Hlen : length (select mask peaks) = length (select mask (zip left right))).
    { apply select_length_eq. symmetry.
      apply (bounds_length peaks props left right Hleft Hright Hshape). }
    rewrite Hnil in Hlen. simpl in Hlen.
    destruct (select mask (zip left right)); [inversion Hin|discriminate].
Qed.

(** X15. The keys are read only when two candidates are compared: with
    no candidate or a single one the input is returned as it is, whatever
    the properties hold; with two or more and no ["left_ips"] among the
    properties the filter raises [KeyError]. *)
Theorem filter_peaks_few_or_keyless (peaks : list Z) (props : properties) :
  (length peaks <= 1 -> filter_peaks peaks props = Ok (peaks, props)) /\
  (2 <= length peaks -> props !! "left_ips" = None ->
   filter_peaks peaks props = Raise KeyError).
Proof.
  split.
  - intros Hlen. destruct peaks as [|p [|q peaks]]; [reflexivity|reflexivity|].
    simpl in Hlen. lia.
  - intros Hlen Hnone. destruct peaks as [|p [|q peaks]]; simpl in Hlen; try lia.
    unfold filter_peaks. simpl length.
    rewrite seq_S, rev_app_distr. simpl rev. simpl app.
    cbn [filter_peaks_from].
    change (seq 0 (length (p :: q :: peaks))) with (0%nat :: seq 1 (S (length peaks))).
    cbn [find_container]. simpl Nat.eqb. cbv iota.
    unfold contained_in, prop_at. rewrite Hnone. reflexivity.
Qed.

(** The twin candidates: a second pass keeps what the first one left. *)
Lemma filter_peaks_idempotent_witness :
  exists peaks' props',
    filter_peaks twin_peaks twin_props = Ok (peaks', props') /\
    filter_peaks peaks' props' = Ok (peaks', props').
Proof.
  apply (filter_peaks_idempotent twin_peaks twin_props [5; 5; 6]%Q [9; 9; 8]%Q).
  - reflexivity.
  - reflexivity.
  - apply (bool_decide_eq_true_1 _). vm_compute. reflexivity.
Defined.

(** The twin candidates: something is left. *)
Lemma filter_peaks_keeps_aligned_sublist_witness :
  exists peaks' props',
    filter_peaks twin_peaks twin_props = Ok (peaks', props') /\
    sublist peaks' twin_peaks /\
    peaks' <> [].
Proof.
  destruct (filter_peaks_keeps_aligned_sublist twin_peaks twin_props [5; 5; 6]%Q [9; 9; 8]%Q)
    as (peaks' & props' & Hf & Hsub & _ & _ & _ & Hne).
  - reflexivity.
  - reflexivity.
  - apply (bool_decide_eq_true_1 _). vm_compute. reflexivity.
  - exists peaks', props'. split; [exact Hf|]. split; [exact Hsub|].
    apply Hne. discriminate.
Defined.

(* ================================================================== *)
(** ** The detection file, and when the waterfall is saved *)

Lemma String_length_append (a b : string) :
  String.length (String.append a b) = (String.length a + String.length b)%nat.
Proof.
  induction a as [|c a IH]; [reflexivity|].
  cbv beta iota fix delta [String.append]. fold (String.append a b).
  simpl. rewrite IH. reflexivity.
Qed.

Section CsvFacts.
Context {K C : Type} `{Countable K} `{EqDecision C}.
Variable str_of_time : K -> string.
Implicit Types (s : io_state (K:=K) (C:=C)).
#[local] Set Warnings "-clear-no-such-hyp".

Lemma detection_paths_differ save_path scan_time :
  detection_config_save_path str_of_time save_path scan_time
  <> detection_save_path str_of_time save_path scan_time.
Proof.
  unfold detection_config_save_path, detection_save_path. intros E.
  injection E as E. apply (f_equal String.length) in E.
  rewrite !String_length_append in E. simpl in E. lia.
Qed.

(** The loop over the peaks: each row is appended to the detection file
    as soon as it is computed, so a row that fails leaves the rows before
    it in the file. *)
Lemma rows_loop_files scan_time props edges detection_type (csv_path : path)
    (l : list nat) :
  forall s (base : list (item (K:=K) (C:=C))) r s',
    files (io_fs s) !! csv_path = Some base ->
    io_for l (fun i =>
      io_bind (io_lift (detection_row scan_time props edges detection_type i))
        (fun row => do_op (Write csv_path [row]))) s = (r, s') ->
    exists (done : list nat) (rows : list (item (K:=K) (C:=C))),
      Forall2 (fun i row => detection_row scan_time props edges detection_type i = Ok row)
        done rows /\
      files (io_fs s') !! csv_path = Some (base ++ rows) /\
      (forall p, p <> csv_path -> files (io_fs s') !! p = files (io_fs s) !! p) /\
      dirs (io_fs s') = dirs (io_fs s) /\
      match r with
      | Ok _ => done = l
      | Raise e => exists i rest,
          l = done ++ i :: rest /\
          detection_row (C:=C) scan_time props edges detection_type i = Raise e
      end.
Proof.
  induction l as [|i l IH]; intros s base r s' Hbase; simpl.
  - intros E. injection E as <- <-. exists [], []. rewrite app_nil_r. repeat split; auto.
  - unfold io_bind at 1. unfold io_bind at 1. unfold io_lift.
    destruct (detection_row scan_time props edges detection_type i) as [row|e] eqn:Er.
    + simpl.
      set (s1 := {| io_fs := apply_op (io_fs s) (Write csv_path [row]);
                    io_trace := io_trace s ++ [Write csv_path [row]] |}).
      assert (Hs1 : files (io_fs s1) !! csv_path = Some (base ++ [row])).
      { unfold s1. simpl. rewrite Hbase. simpl. apply lookup_insert_eq. }
      assert (Hoth : forall p, p <> csv_path ->
                files (io_fs s1) !! p = files (io_fs s) !! p).
      { intros p Hp. unfold s1. simpl. rewrite Hbase. simpl.
        apply lookup_insert_ne. congruence. }
      assert (Hdirs : dirs (io_fs s1) = dirs (io_fs s)).
      { unfold s1. simpl. rewrite Hbase. reflexivity. }
      intros Erun.
      destruct (IH s1 _ _ _ Hs1 Erun) as (done & rows & Hrows & Hcsv & Hframe & Hd & Hout).
      exists (i :: done), (row :: rows).
      split; [apply Forall2_cons; auto|].
      split; [rewrite Hcsv, <- app_assoc; reflexivity|].
      split; [intros p Hp; rewrite Hframe by exact Hp; apply Hoth, Hp|].
      split; [congruence|].
      destruct r as [u|e].
      * congruence.
      * destruct Hout as (j & rest & -> & Hj). exists j, rest. auto.
    + simpl. intros E. injection E as <- <-. exists [], []. rewrite app_nil_r.
      split; [constructor|]. split; [exact Hbase|]. split; [auto|]. split; [reflexivity|].
      exists i, l. auto.
Qed.

(** What [save_detections] has done when it enters the loop over the
    peaks: the directory is there, the detection file exists with its
    previous content or the header, and apart from the scan-config file
    nothing else has changed. *)
Lemma save_detections_before_rows config (state : WaterfallState K C) save_path
    scan_time scan_configs peaks props edges detection_type s :
  exists s4 (state'' : WaterfallState K C),
    save_detections str_of_time config state save_path scan_time scan_configs
      peaks props edges detection_type s
    = io_bind
        (io_for (seq 0 (length peaks)) (fun i =>
           io_bind (io_lift (detection_row scan_time props edges detection_type i))
             (fun row =>
                do_op (Write (detection_save_path str_of_time save_path scan_time) [row]))))
        (fun _ => io_ret state'') s4 /\
    files (io_fs s4) !! detection_save_path str_of_time save_path scan_time
    = Some (match files (io_fs s) !! detection_save_path str_of_time save_path scan_time with
            | Some old => old
            | None => [CsvHeader]
            end) /\
    (forall p, p <> detection_config_save_path str_of_time save_path scan_time ->
               p <> detection_save_path str_of_time save_path scan_time ->
       files (io_fs s4) !! p = files (io_fs s) !! p) /\
    dirs (io_fs s4) = {[detection_save_dir save_path]} ∪ dirs (io_fs s).
Proof.
  pose proof (detection_paths_differ save_path scan_time) as Hne.
  set (cfg_path := detection_config_save_path str_of_time save_path scan_time) in *.
  set (csv_path := detection_save_path str_of_time save_path scan_time) in *.
  set (body := fun i : nat =>
         io_bind (io_lift (detection_row scan_time props edges detection_type i))
           (fun row => do_op (Write csv_path [row]))).
  (* the directory *)
  set (s1 := snd (io_when (negb (bool_decide (detection_save_dir save_path ∈ dirs (io_fs s))))
                    (do_op (Makedirs (detection_save_dir save_path))) s)).
  assert (E1 : io_when (negb (bool_decide (detection_save_dir save_path ∈ dirs (io_fs s))))
                 (do_op (Makedirs (detection_save_dir save_path))) s = (Ok tt, s1)).
  { unfold s1. destruct (bool_decide _); reflexivity. }
  assert (F1 : files (io_fs s1) = files (io_fs s)).
  { unfold s1. destruct (bool_decide _); reflexivity. }
  assert (D1 : dirs (io_fs s1) = {[detection_save_dir save_path]} ∪ dirs (io_fs s)).
  { unfold s1. destruct (bool_decide_reflect (detection_save_dir save_path ∈ dirs (io_fs s)));
      simpl; [set_solver|reflexivity]. }
  clearbody s1.
  (* the scan config *)
  set (wc := io_when (config_changed (previous_scan_config state) scan_configs)
               (io_bind (do_op (OpenWrite cfg_path)) (fun _ =>
                do_op (Write cfg_path
                         [JsonScanConfig scan_time (min_freq config) (max_freq config)
                            scan_configs])))).
  set (s2 := snd (wc s1)).
  assert (E2 : wc s1 = (Ok tt, s2)).
  { unfold s2, wc. destruct (config_changed _ _); reflexivity. }
  assert (F2 : forall p, p <> cfg_path -> files (io_fs s2) !! p = files (io_fs s1) !! p).
  { intros p Hp. unfold s2, wc. destruct (config_changed _ _); [|reflexivity].
    unfold io_when, io_bind, do_op. simpl. rewrite lookup_insert_eq. simpl.
    rewrite !lookup_insert_ne by congruence. reflexivity. }
  assert (D2 : dirs (io_fs s2) = dirs (io_fs s1)).
  { unfold s2, wc. destruct (config_changed _ _); [|reflexivity].
    unfold io_when, io_bind, do_op. simpl. rewrite lookup_insert_eq. reflexivity. }
  clearbody s2.
  (* the header *)
  set (wh := io_when (K:=K) (C:=C)
               (negb (bool_decide (is_Some (files (io_fs s2) !! csv_path))))
               (io_bind (do_op (OpenWrite csv_path)) (fun _ =>
                do_op (Write csv_path [CsvHeader])))).
  set (s3 := snd (wh s2)).
  set (base := match files (io_fs s) !! csv_path with
               | Some old => old
               | None => [CsvHeader]
               end).
  assert (Hcsv2 : files (io_fs s2) !! csv_path = files (io_fs s) !! csv_path).
  { rewrite F2 by congruence. rewrite F1. reflexivity. }
  assert (E3 : wh s2 = (Ok tt, s3)).
  { unfold s3, wh. destruct (bool_decide (is_Some (files (io_fs s2) !! csv_path)));
      reflexivity. }
  assert (F3 : files (io_fs s3) !! csv_path = Some base /\
               (forall p, p <> csv_path -> files (io_fs s3) !! p = files (io_fs s2) !! p) /\
               dirs (io_fs s3) = dirs (io_fs s2)).
  { unfold s3, wh, base. rewrite <- Hcsv2.
    destruct (bool_decide_reflect (is_Some (files (io_fs s2) !! csv_path))) as [[old Ho]|Hn].
    - simpl. rewrite Ho. auto.
    - assert (Ho : files (io_fs s2) !! csv_path = None).
      { destruct (files (io_fs s2) !! csv_path) eqn:E; [|reflexivity].
        exfalso. apply Hn. eauto. }
      rewrite Ho. unfold io_when, io_bind, do_op. simpl. rewrite lookup_insert_eq. simpl.
      split; [apply lookup_insert_eq|]. split; [|reflexivity].
      intros p Hp. rewrite !lookup_insert_ne by congruence. reflexivity. }
  destruct F3 as (F3 & F3' & D3).
  clearbody s3.
  (* the detection file is opened for appending *)
  set (s4 := {| io_fs := apply_op (io_fs s3) (OpenAppend csv_path);
                io_trace := io_trace s3 ++ [OpenAppend csv_path] |}).
  assert (F4 : io_fs s4 = io_fs s3).
  { unfold s4. simpl. rewrite F3. reflexivity. }
  eexists s4, _. split; [|split; [|split]].
  - unfold save_detections. fold cfg_path csv_path body wc.
    unfold io_bind at 1. unfold dir_exists at 1. cbv beta iota.
    unfold io_bind at 1. rewrite E1.
    unfold io_bind at 1. rewrite E2.
    unfold io_bind at 1. unfold file_exists at 1. cbv beta iota.
    unfold io_bind at 1. fold wh. rewrite E3.
    unfold io_bind at 1. unfold do_op at 1. cbv beta iota. fold s4.
    reflexivity.
  - rewrite F4. exact F3.
  - intros p Hp1 Hp2. rewrite F4, F3', F2, F1 by assumption. reflexivity.
  - rewrite F4, D3, D2, D1. reflexivity.
Qed.


(** X16. Whatever the outcome of [save_detections], the detection file
    holds afterwards what it held before, or the header if it was not
    there, followed by the rows of the peaks in order: all of them when
    the call returns, those before the first peak whose row cannot be
    computed when it raises.  No file other than the two it names is
    changed, and the detections directory exists. *)
Theorem save_detections_appends_rows config (state : WaterfallState K C) save_path
    scan_time scan_configs peaks props edges detection_type s r s' :
  save_detections str_of_time config state save_path scan_time scan_configs
    peaks props edges detection_type s = (r, s') ->
  exists (done : list nat) (rows : list (item (K:=K) (C:=C))),
    Forall2 (fun i row => detection_row scan_time props edges detection_type i = Ok row)
      done rows /\
    files (io_fs s') !! detection_save_path str_of_time save_path scan_time
    = Some (match files (io_fs s) !! detection_save_path str_of_time save_path scan_time with
            | Some old => old
            | None => [CsvHeader]
            end ++ rows) /\
    (forall p, p <> detection_config_save_path str_of_time save_path scan_time ->
               p <> detection_save_path str_of_time save_path scan_time ->
       files (io_fs s') !! p = files (io_fs s) !! p) /\
    dirs (io_fs s') = {[detection_save_dir save_path]} ∪ dirs (io_fs s) /\
    match r with
    | Ok _ => done = seq 0 (length peaks)
    | Raise e => exists i rest,
        seq 0 (length peaks) = done ++ i :: rest /\
        detection_row (C:=C) scan_time props edges detection_type i = Raise e
    end.
Proof.
  destruct (save_detections_before_rows config state save_path scan_time scan_configs
              peaks props edges detection_type s)
    as (s4 & state'' & -> & Hb4 & Hframe4 & Hd4).
  unfold io_bind at 1.
  destruct (io_for _ _ s4) as [r5 s5] eqn:Eloop.
  destruct (rows_loop_files _ _ _ _ _ _ _ _ _ _ Hb4 Eloop)
    as (done & rows & Hrows & Hcsv & Hframe & Hd & Hout).
  intros Eout.
  assert (Es : s' = s5) by (destruct r5; injection Eout as _ <-; reflexivity).
  subst s'.
  exists done, rows. split; [exact Hrows|].
  split; [exact Hcsv|]. split.
  - intros p Hp1 Hp2. rewrite Hframe by exact Hp2. apply Hframe4; assumption.
  - split; [rewrite Hd; exact Hd4|].
    destruct r5 as [u|e]; injection Eout as <-; exact Hout.
Qed.

(** X17. [draw_peaks] on a newest row whose candidates carry both bounds
    in arrays of the length of [peaks]: without a save path nothing is
    written and the state is returned; with one, the call is
    [save_detections] on the candidates that no other candidate strictly
    contains, and when it returns the detection file has grown by one row
    for each of them. *)
Theorem draw_peaks_persists_kept (find_peaks : list npfloat -> list Z * properties)
    config (state : WaterfallState K C) detection_type save_path scan_time scan_configs
    edges (row : list npfloat) (peaks : list Z) (props : properties) (left right : list Q)
    s r s' :
  last (db_data state) = Some row ->
  find_peaks row = (peaks, props) ->
  props !! "left_ips" = Some left ->
  props !! "right_ips" = Some right ->
  map_Forall (fun _ (a : list Q) => length a = length peaks) props ->
  draw_peaks str_of_time find_peaks config state detection_type save_path scan_time
    scan_configs edges s = (r, s') ->
  (save_path = "" -> r = Ok state /\ s' = s) /\
  (save_path <> "" ->
   (r, s') = save_detections str_of_time config state save_path scan_time scan_configs
               (select (spec_keep_mask left right) peaks)
               (select (spec_keep_mask left right) <$> props) edges detection_type s /\
   forall state', r = Ok state' ->
     exists rows : list (item (K:=K) (C:=C)),
       length rows = length (select (spec_keep_mask left right) peaks) /\
       files (io_fs s') !! detection_save_path str_of_time save_path scan_time
       = Some (match files (io_fs s) !! detection_save_path str_of_time save_path scan_time with
               | Some old => old
               | None => [CsvHeader]
               end ++ rows)).
Proof.
  intros Hrow Hfind Hleft Hright Hshape Hdraw. set (mask := spec_keep_mask left right).
  unfold draw_peaks, io_bind, io_lift in Hdraw.
  rewrite Hrow in Hdraw. simpl in Hdraw. rewrite Hfind in Hdraw.
  rewrite (filter_peaks_mask peaks props left right Hleft Hright Hshape) in Hdraw.
  fold mask in Hdraw. split.
  - intros ->. simpl in Hdraw. unfold io_ret in Hdraw. injection Hdraw as <- <-. auto.
  - intros Hne. rewrite (proj2 (String.eqb_neq _ _) Hne) in Hdraw.
    split; [symmetry; exact Hdraw|].
    intros state' ->.
    destruct (save_detections_before_rows config state save_path scan_time
                scan_configs (select mask peaks) (select mask <$> props) edges
                detection_type s) as (s4 & state'' & E & Hb4 & _ & _).
    rewrite E in Hdraw. unfold io_bind at 1 in Hdraw.
    destruct (io_for _ _ s4) as [r5 s5] eqn:Eloop.
    destruct (rows_loop_files _ _ _ _ _ _ _ _ _ _ Hb4 Eloop)
      as (done & rows & Hrows & Hcsv & _ & _ & Hout).
    destruct r5 as [u|e]; [|discriminate].
    injection Hdraw as _ <-.
    exists rows. split; [|exact Hcsv].
    apply Forall2_length in Hrows. rewrite <- Hrows, Hout. apply length_seq.
Qed.

End CsvFacts.

Lemma save_waterfall_times_spaced (save_time : Q) (nows : list Q) :
  forall last : Q,
    spaced (save_time * 60) last (save_waterfall_times (Some last) save_time nows).
Proof.
  induction nows as [|now rest IH]; intros last; [exact I|].
  simpl. unfold save_waterfall_due.
  destruct (Qltb (save_time * 60) (now - last)) eqn:E.
  - simpl. split; [apply Qltb_lt, E|apply IH].
  - apply IH.
Qed.

(** X18. For a non-negative [save_time], the first call of
    [save_waterfall] never saves, it only starts the clock; and over a
    run every save comes more than [save_time] minutes after the
    previous one, the first more than [save_time] minutes after the
    first call. *)
Theorem save_waterfall_spacing (save_time : Q) (now : Q) (nows : list Q) :
  (0 <= save_time)%Q ->
  save_waterfall_due None now save_time = (false, Some now) /\
  spaced (save_time * 60) now (save_waterfall_times None save_time (now :: nows)).
Proof.
  intros Hst.
  assert (E : save_waterfall_due None now save_time = (false, Some now)).
  { unfold save_waterfall_due.
    destruct (Qltb (save_time * 60) (now - now)) eqn:E; [|reflexivity].
    apply Qltb_lt in E. lra. }
  split; [exact E|].
  cbn [save_waterfall_times]. rewrite E. apply save_waterfall_times_spaced.
Qed.

(** The first save, again: the header and the row of the one peak. *)
Lemma save_detections_appends_rows_witness :
  files (io_fs (snd (first_save nothing_saved))) !! ("out/detections", "detections_17.csv")
  = Some [CsvHeader; CsvRow 17%Z 100 101 (-50) "narrowband"] /\
  dirs (io_fs (snd (first_save nothing_saved))) = {["out/detections"]}.
Proof.
  destruct (save_detections_appends_rows (fun t : Z => pretty t) example_config
              WaterfallState_init "out" 17%Z "cfgA" [1%Z] halfway_props three_edges
              "narrowband" nothing_saved (fst (first_save nothing_saved))
              (snd (first_save nothing_saved)) (surjective_pairing _))
    as (done & rows & _ & _ & _ & _ & _).
  split; vm_compute; reflexivity.
Defined.

(** Of the two nested candidates one row is written, that of the outer. *)
Lemma draw_peaks_persists_kept_witness :
  rbind (fst (nested_draw nothing_saved)) (fun state' => Ok (previous_scan_config state'))
  = Ok (Some "cfgA") /\
  files (io_fs (snd (nested_draw nothing_saved))) !! ("out/detections", "detections_17.csv")
  = Some [CsvHeader; CsvRow 17%Z 100 102 (-50) "narrowband"].
Proof.
  destruct (draw_peaks_persists_kept (fun t : Z => pretty t)
              (fun _ => (nested_peaks, nested_props)) small_config small_state
              "narrowband" "out" 17%Z "cfgA" three_edges [NaN; NaN; NaN]
              nested_peaks nested_props [0; 1]%Q [2; 3 # 2]%Q nothing_saved
              (fst (nested_draw nothing_saved)) (snd (nested_draw nothing_saved)))
    as [_ _].
  - reflexivity.
  - reflexivity.
  - reflexivity.
  - reflexivity.
  - apply (bool_decide_eq_true_1 _). vm_compute. reflexivity.
  - apply surjective_pairing.
  - split; vm_compute; reflexivity.
Defined.

(** Calls at 0, 200, 301, 400, 602 and 700 seconds with 5 minutes between
    saves. *)
Lemma save_waterfall_spacing_witness :
  (0 <= 5)%Q /\
  save_waterfall_times None 5 [0; 200; 301; 400; 602; 700]%Q = [301; 602]%Q.
Proof.
  split; [discriminate|].
  destruct (save_waterfall_spacing 5 0 [200; 301; 400; 602; 700]%Q) as (_ & _).
  - discriminate.
  - reflexivity.
Defined.
